(** * ChainManager: multi-chain trajectory dispatch and settle detection

    A shallow embedding of [robot_calibration/src/util/chain_manager.cpp]
    and the properties of its joint-state store, trajectory-point builder,
    dispatcher and settle monitor.

    Conventions of the embedding:
    - a C++ [double] is an IEEE-754 binary64 value ([spec_float] with
      [prec = 53], [emax = 1024]);
    - a [std::vector] is a [list]; reading or writing a vector out of range
      is undefined behaviour and shows as the outcome [Undefined];
    - [exit(status)] shows as the outcome [Exits status]: control never
      comes back to the caller;
    - everything the code does to the outside world (log lines, goals sent,
      waits on results, clock reads, event pumping) is recorded, in order,
      in a trace of [event]s; an event of the planner or of a command
      channel carries the index in [controllers_] of the chain it serves;
    - the mutex [state_mutex_] only serialises accesses to the store; the
      embedding runs one member function at a time, so it has no model. *)

From Stdlib Require Import ZArith Bool Lia.
From Stdlib Require Import Floats.SpecFloat.
From stdpp Require Import base option list strings.

Local Open Scope string_scope.
Local Open Scope list_scope.

(** ** Binary64 arithmetic *)

Module Double.

Definition prec : Z := 53.
Definition emax : Z := 1024.

Definition double : Type := spec_float.

Definition of_Z (z : Z) : double := binary_normalize prec emax z 0 false.
Definition mul (x y : double) : double := SFmul prec emax x y.
Definition div (x y : double) : double := SFdiv prec emax x y.
Definition ltb (x y : double) : bool := SFltb x y.
Definition leb (x y : double) : bool := SFleb x y.

(** [fabs] of <cmath>. *)
Definition fabs (x : double) : double := SFabs x.

(** [std::max(a, b)] is [(a < b) ? b : a]. *)
Definition max (a b : double) : double := if ltb a b then b else a.

(** A decimal literal [n/d] with [n] and [d] exactly representable is the
    correctly rounded quotient. *)
Definition lit (n d : Z) : double := div (of_Z n) (of_Z d).

Definition zero : double := S754_zero false.
Definition d0_001 : double := Eval vm_compute in lit 1 1000.
Definition d0_01 : double := Eval vm_compute in lit 1 100.
Definition d1_0 : double := Eval vm_compute in lit 1 1.
Definition d1_5 : double := Eval vm_compute in lit 3 2.
Definition d5_0 : double := Eval vm_compute in lit 5 1.
Definition d60_0 : double := Eval vm_compute in lit 60 1.

Definition is_nan (x : double) : bool :=
  match x with S754_nan => true | _ => false end.

End Double.

Abbreviation double := Double.double.

(** ** Outcomes and traces *)

Inductive outcome (A : Type) : Type :=
| Returns (a : A)        (* the call returns [a] to its caller *)
| Exits (status : Z)     (* [exit(status)]: the process terminates *)
| Undefined              (* out-of-range vector access *)
| Spinning.              (* still inside a polling loop when the script of
                            the environment ends *)
Arguments Returns {A} a.
Arguments Exits {A} status.
Arguments Undefined {A}.
Arguments Spinning {A}.

(** ** Messages *)

(** [rclcpp::Duration] and [rclcpp::Time] count nanoseconds;
    [builtin_interfaces::msg::Duration], a pair of seconds and nanoseconds,
    is identified with the count it stands for. *)
Definition Duration : Type := Z.
Definition Time : Type := Z.

(** [sensor_msgs::msg::JointState] (header and effort are never read). *)
Record JointState : Type := mkJointState {
  name : list string;
  position : list double;
  velocity : list double
}.

(** [trajectory_msgs::msg::JointTrajectoryPoint]. *)
Record JointTrajectoryPoint : Type := mkPoint {
  positions : list double;
  velocities : list double;
  accelerations : list double;
  time_from_start : Duration
}.

(** [trajectory_msgs::msg::JointTrajectory]. *)
Record JointTrajectory : Type := mkTrajectory {
  traj_joint_names : list string;
  points : list JointTrajectoryPoint
}.

(** [control_msgs::action::FollowJointTrajectory::Goal]. *)
Record TrajectoryGoal : Type := mkTrajectoryGoal {
  trajectory : JointTrajectory;
  goal_time_tolerance : Duration
}.

(** [moveit_msgs::msg::JointConstraint]. *)
Record JointConstraint : Type := mkJointConstraint {
  joint_name : string;
  jc_position : double;
  tolerance_above : double;
  tolerance_below : double;
  weight : double
}.

(** The fields of [moveit_msgs::action::MoveGroup::Goal] that are set. *)
Record MoveGroupGoal : Type := mkMoveGroupGoal {
  group_name : string;
  num_planning_attempts : Z;
  allowed_planning_time : double;
  goal_constraints : list (list JointConstraint);
  max_velocity_scaling_factor : double;
  start_state_is_diff : bool;
  planning_scene_diff_is_diff : bool;
  robot_state_is_diff : bool;
  plan_only : bool
}.

(** The fields of [moveit_msgs::action::MoveGroup::Result] that are read. *)
Record MoveGroupResult : Type := mkMoveGroupResult {
  error_code_val : Z;
  planned_trajectory : JointTrajectory
}.

(** [moveit_msgs::msg::MoveItErrorCodes::SUCCESS]. *)
Definition SUCCESS : Z := 1.

Inductive event : Type :=
| LogError (text : string)
| MoveGroupSendGoal (chain : nat) (g : MoveGroupGoal)
| MoveGroupWaitForResult (chain : nat) (timeout : Duration)
| MoveGroupGetResult (chain : nat) (r : MoveGroupResult)
| ClientSendGoal (chain : nat) (g : TrajectoryGoal)
| ClientWaitForResult (chain : nat) (timeout : Duration)
| NodeLock
| Invalidate
| ClockNow (t : Time)
| GetState
| SpinSome.

Definition trace : Type := list event.

(** Computations that log events and may fail to return. *)
Definition M (A : Type) : Type := (trace * outcome A)%type.

Definition ret {A} (a : A) : M A := ([], Returns a).

Definition bind {A B} (m : M A) (f : A -> M B) : M B :=
  match m with
  | (t, Returns a) => let '(t', o) := f a in (t ++ t', o)
  | (t, Exits s) => (t, Exits s)
  | (t, Undefined) => (t, Undefined)
  | (t, Spinning) => (t, Spinning)
  end.

Definition emit (e : event) : M unit := ([e], Returns tt).
Definition fail_with {A} (o : outcome A) : M A := ([], o).

Notation "x <- m ;; k" := (bind m (fun x => k))
  (at level 100, m at next level, right associativity).
Notation "m ;;; k" := (bind m (fun _ => k))
  (at level 100, right associativity).

(** ** The manager *)

(** [ChainController]: the chain's name, planning group and joints.  The
    command channel [client] is identified in events by the chain's index
    in [controllers_]. *)
Record ChainController : Type := mkChainController {
  chain_name : string;
  chain_planning_group : string;
  joint_names : list string
}.

(** Modelled from the spec: [ChainController::shouldPlan] is declared in
    the header, which is not among the sources; a chain requires planning
    exactly when its planning-group identifier is not empty. *)
Definition shouldPlan (c : ChainController) : bool :=
  negb (String.eqb (chain_planning_group c) "").

Record ChainManager : Type := mkChainManager {
  controllers_ : list ChainController;
  duration_ : double;
  velocity_factor_ : double;
  settling_timeout_ : double;
  state_ : JointState;
  state_is_valid_ : bool
}.

Definition set_state (cm : ChainManager) (st : JointState) (valid : bool)
  : ChainManager :=
  {| controllers_ := controllers_ cm;
     duration_ := duration_ cm;
     velocity_factor_ := velocity_factor_ cm;
     settling_timeout_ := settling_timeout_ cm;
     state_ := st;
     state_is_valid_ := valid |}.

(** The manager as the constructor leaves it: no joint observed yet and
    [state_is_valid_] false. *)
Definition ChainManager_new (cs : list ChainController)
    (duration velocity_factor settling_timeout : double) : ChainManager :=
  {| controllers_ := cs;
     duration_ := duration;
     velocity_factor_ := velocity_factor;
     settling_timeout_ := settling_timeout;
     state_ := mkJointState [] [] [];
     state_is_valid_ := false |}.

(** ** The joint-state store: [stateCallback] and [getState] *)

(** The inner search loops: index of the first element equal to [n]. *)
Fixpoint find_joint (n : string) (names : list string) : option nat :=
  match names with
  | [] => None
  | x :: rest =>
      if String.eqb x n then Some 0%nat
      else match find_joint n rest with
           | Some j => Some (S j)
           | None => None
           end
  end.

(** One round of the outer loop of [stateCallback]: overwrite the first
    entry named [n], or append a new one. *)
Definition update_joint (st : JointState) (n : string) (p v : double)
  : outcome JointState :=
  match find_joint n (name st) with
  | Some j =>
      if (j <? length (position st))%nat && (j <? length (velocity st))%nat
      then Returns {| name := name st;
                      position := <[j := p]> (position st);
                      velocity := <[j := v]> (velocity st) |}
      else Undefined
  | None =>
      Returns {| name := name st ++ [n];
                 position := position st ++ [p];
                 velocity := velocity st ++ [v] |}
  end.

(** The outer loop, over [msg_j]; the three arrays of the message are read
    at the same index. *)
Fixpoint update_joints (ns : list string) (ps vs : list double)
    (st : JointState) : outcome JointState :=
  match ns with
  | [] => Returns st
  | n :: ns' =>
      match ps, vs with
      | p :: ps', v :: vs' =>
          match update_joint st n p v with
          | Returns st' => update_joints ns' ps' vs' st'
          | Exits s => Exits s
          | Undefined => Undefined
          | Spinning => Spinning
          end
      | _, _ => Undefined
      end
  end.

Definition stateCallback (cm : ChainManager) (msg : JointState)
  : M ChainManager :=
  if negb (length (name msg) =? length (position msg))%nat then
    emit (LogError
      "JointState Error: name array is not same size as position array.") ;;;
    ret cm
  else if negb (length (position msg) =? length (velocity msg))%nat then
    emit (LogError
      "JointState Error: position array is not same size as velocity array.") ;;;
    ret cm
  else
    st' <- fail_with (update_joints (name msg) (position msg) (velocity msg)
                        (state_ cm)) ;;
    ret (set_state cm st' true).

(** [getState] copies the store into [*state] and returns the validity
    flag; the manager is left as it is. *)
Definition getState (cm : ChainManager) : JointState * bool :=
  (state_ cm, state_is_valid_ cm).

(** ** [makePoint] *)

(** The body of the loop over [joints], from joint [jn] on; [p] is the
    point built so far. *)
Fixpoint makePoint_loop (state : JointState) (joints : list string)
    (p : JointTrajectoryPoint) : M JointTrajectoryPoint :=
  match joints with
  | [] => ret p
  | jn :: rest =>
      ps <- fail_with
              match find_joint jn (name state) with
              | Some j =>
                  match position state !! j with
                  | Some x => Returns (positions p ++ [x])
                  | None => Undefined
                  end
              | None => Returns (positions p)
              end ;;
      let p' := {| positions := ps;
                   velocities := velocities p ++ [Double.zero];
                   accelerations := accelerations p ++ [Double.zero];
                   time_from_start := time_from_start p |} in
      if negb (length (velocities p') =? length (positions p'))%nat then
        emit (LogError ("Bad move to state, missing " ++ jn)) ;;;
        fail_with (Exits (-1))
      else makePoint_loop state rest p'
  end.

Definition empty_point : JointTrajectoryPoint :=
  {| positions := []; velocities := []; accelerations := [];
     time_from_start := 0%Z |}.

Definition makePoint (state : JointState) (joints : list string)
  : M JointTrajectoryPoint :=
  makePoint_loop state joints empty_point.

(** ** [getChains], [getChainJointNames], [getPlanningGroupName] *)

Definition getChains (cm : ChainManager) : list string :=
  map chain_name (controllers_ cm).

Fixpoint getChainJointNames_loop (cs : list ChainController)
    (chain : string) : list string :=
  match cs with
  | [] => []
  | c :: rest =>
      if String.eqb (chain_name c) chain then joint_names c
      else getChainJointNames_loop rest chain
  end.

Definition getChainJointNames (cm : ChainManager) (chain : string)
  : list string :=
  getChainJointNames_loop (controllers_ cm) chain.

Fixpoint getPlanningGroupName_loop (cs : list ChainController)
    (chain : string) : string :=
  match cs with
  | [] => ""
  | c :: rest =>
      if String.eqb (chain_name c) chain then chain_planning_group c
      else getPlanningGroupName_loop rest chain
  end.

Definition getPlanningGroupName (cm : ChainManager) (chain : string)
  : string :=
  getPlanningGroupName_loop (controllers_ cm) chain.

(** ** The settle scan of [waitToSettle] *)

(** Loop over [k]: the joints of one chain. *)
Fixpoint scan_chain_joints (jn : list string) (n : string) (settled : bool)
  : bool :=
  match jn with
  | [] => settled
  | x :: rest =>
      if String.eqb x n then false
      else scan_chain_joints rest n settled
  end.

(** Loop over [i]: every chain is visited, also after a match. *)
Fixpoint scan_chains (cs : list ChainController) (n : string)
    (settled : bool) : bool :=
  match cs with
  | [] => settled
  | c :: rest => scan_chains rest n (scan_chain_joints (joint_names c) n settled)
  end.

(** Loop over [j], from index [j] on, [names] being what is left of
    [state.name].  Returns [settled] and the value of [j] when the loop is
    left. *)
Fixpoint settle_scan (cs : list ChainController) (state : JointState)
    (names : list string) (j : nat) : outcome (bool * nat) :=
  match names with
  | [] => Returns (true, j)
  | n :: rest =>
      match velocity state !! j with
      | None => Undefined
      | Some v =>
          if Double.ltb (Double.fabs v) Double.d0_001
          then settle_scan cs state rest (S j)
          else if scan_chains cs n true
               then settle_scan cs state rest (S j)
               else Returns (false, j)
      end
  end.

(** ** The environment of one call *)

(** What one turn of the polling loop observes: the clock, read only when
    the timeout is enabled, and the joint-state messages whose callbacks
    [spin_some] runs. *)
Record tick : Type := mkTick {
  tick_now : Time;
  tick_msgs : list JointState
}.

Record NodeEnv : Type := mkNodeEnv {
  node_alive : bool;         (* does [node_ptr_.lock()] give a node? *)
  clock_start : Time;        (* the first [node->now()] *)
  ticks : list tick
}.

Section Collaborators.

(** [rclcpp::Duration::from_seconds] and [rclcpp::Duration::seconds]. *)
Variable from_seconds : double -> Duration.
Variable seconds : Duration -> double.

(** The planner: the result [move_group_->getResult()] gives for the goal
    sent on behalf of chain number [i].  The action client is taken to hand
    back a result whenever it is asked for one. *)
Variable move_group : nat -> MoveGroupGoal -> MoveGroupResult.

(** What [client.waitForResult] of chain number [i] answers. *)
Variable client_result : nat -> Duration -> bool.

(** *** [moveToState] *)

(** The loop over [c] that fills [c1.joint_constraints]. *)
Fixpoint joint_constraints_loop (jn : list string) (c : nat)
    (p : JointTrajectoryPoint) : M (list JointConstraint) :=
  match jn with
  | [] => ret []
  | n :: rest =>
      match positions p !! c with
      | None => fail_with Undefined
      | Some x =>
          l <- joint_constraints_loop rest (S c) p ;;
          ret ({| joint_name := n; jc_position := x;
                  tolerance_above := Double.d0_01;
                  tolerance_below := Double.d0_01;
                  weight := Double.d1_0 |} :: l)
      end
  end.

Definition moveit_goal_for (cm : ChainManager) (c : ChainController)
    (c1 : list JointConstraint) : MoveGroupGoal :=
  {| group_name := chain_planning_group c;
     num_planning_attempts := 1;
     allowed_planning_time := Double.d5_0;
     goal_constraints := [c1];
     max_velocity_scaling_factor := velocity_factor_ cm;
     start_state_is_diff := true;
     planning_scene_diff_is_diff := true;
     robot_state_is_diff := true;
     plan_only := true |}.

Definition direct_goal (cm : ChainManager) (c : ChainController)
    (p : JointTrajectoryPoint) : TrajectoryGoal :=
  {| trajectory :=
       {| traj_joint_names := joint_names c;
          points := [ {| positions := positions p;
                         velocities := velocities p;
                         accelerations := accelerations p;
                         time_from_start := from_seconds (duration_ cm) |} ] |};
     goal_time_tolerance := from_seconds Double.d1_0 |}.

Definition planned_goal (result : MoveGroupResult) : TrajectoryGoal :=
  {| trajectory := planned_trajectory result;
     goal_time_tolerance := from_seconds Double.d1_0 |}.

(** The first loop, from chain number [i] on.  [None] is the early
    [return false]; [Some d] is the loop left normally with
    [max_duration = d]. *)
Fixpoint moveToState_send (cm : ChainManager) (state : JointState) (i : nat)
    (cs : list ChainController) (max_duration : double) {struct cs}
  : M (option double) :=
  match cs with
  | [] => ret (Some max_duration)
  | c :: rest =>
      p <- makePoint state (joint_names c) ;;
      if shouldPlan c then
        c1 <- joint_constraints_loop (joint_names c) 0 p ;;
        let moveit_goal := moveit_goal_for cm c c1 in
        emit (MoveGroupSendGoal i moveit_goal) ;;;
        emit (MoveGroupWaitForResult i (from_seconds Double.d60_0)) ;;;
        let result := move_group i moveit_goal in
        emit (MoveGroupGetResult i result) ;;;
        if negb (error_code_val result =? SUCCESS)%Z then ret None
        else
          match last (points (planned_trajectory result)) with
          | None => fail_with Undefined
          | Some pt =>
              let d := time_from_start pt in
              emit (ClientSendGoal i (planned_goal result)) ;;;
              moveToState_send cm state (S i) rest
                (Double.max max_duration (seconds d))
          end
      else
        emit (ClientSendGoal i (direct_goal cm c p)) ;;;
        moveToState_send cm state (S i) rest max_duration
  end.

(** The second loop; the answer of [waitForResult] is dropped. *)
Fixpoint moveToState_wait (i : nat) (cs : list ChainController)
    (max_duration : double) : M unit :=
  match cs with
  | [] => ret tt
  | c :: rest =>
      let timeout := from_seconds (Double.mul max_duration Double.d1_5) in
      emit (ClientWaitForResult i timeout) ;;;
      let _ := client_result i timeout in
      moveToState_wait (S i) rest max_duration
  end.

Definition moveToState (cm : ChainManager) (state : JointState) : M bool :=
  r <- moveToState_send cm state 0 (controllers_ cm) (duration_ cm) ;;
  match r with
  | None => ret false
  | Some max_duration =>
      moveToState_wait 0 (controllers_ cm) max_duration ;;;
      ret true
  end.

(** *** [waitToSettle] *)

(** [rclcpp::spin_some]: the pending joint-state callbacks run in order. *)
Fixpoint spin_some (cm : ChainManager) (msgs : list JointState)
  : M ChainManager :=
  match msgs with
  | [] => ret cm
  | m :: rest => cm' <- stateCallback cm m ;; spin_some cm' rest
  end.

(** The first half of a turn of the [while (true)] loop: [settled] as it
    stands when the loop tests it. *)
Definition settle_check (cm : ChainManager) : M bool :=
  emit GetState ;;;
  let '(state, valid) := getState cm in
  if valid
  then r <- fail_with (settle_scan (controllers_ cm) state (name state) 0) ;;
       ret (fst r)
  else ret false.

(** The [while (true)] loop.  Each turn consumes one [tick] unless it
    leaves the loop before looking at the clock. *)
Fixpoint waitToSettle_loop (cm : ChainManager) (start : Time)
    (script : list tick) {struct script} : M (ChainManager * bool) :=
  settled <- settle_check cm ;;
  if settled then ret (cm, true)
  else
    match script with
    | [] => fail_with Spinning
    | t :: rest =>
        timed_out <-
          (if Double.ltb Double.zero (settling_timeout_ cm)
           then emit (ClockNow (tick_now t)) ;;;
                ret (Double.ltb (settling_timeout_ cm)
                       (seconds (tick_now t - start)%Z))
           else ret false) ;;
        if timed_out then ret (cm, false)
        else
          emit SpinSome ;;;
          cm' <- spin_some cm (tick_msgs t) ;;
          waitToSettle_loop cm' start rest
    end.

Definition waitToSettle (cm : ChainManager) (env : NodeEnv)
  : M (ChainManager * bool) :=
  match controllers_ cm with
  | [] => ret (cm, true)
  | _ :: _ =>
      emit NodeLock ;;;
      if negb (node_alive env) then
        emit (LogError "Unable to get rclcpp::Node lock") ;;;
        ret (cm, false)
      else
        emit Invalidate ;;;
        let cm1 := set_state cm (state_ cm) false in
        emit (ClockNow (clock_start env)) ;;;
        waitToSettle_loop cm1 (clock_start env) (ticks env)
  end.

End Collaborators.

(** ** Vocabulary of the properties *)

(** The three arrays of a joint state have one length. *)
Definition aligned (st : JointState) : Prop :=
  length (name st) = length (position st) /\
  length (position st) = length (velocity st).

(** The invariant of the store. *)
Definition store_inv (st : JointState) : Prop :=
  aligned st /\ NoDup (name st).

(** The entry of joint [n]: position and velocity at the first index that
    carries the name. *)
Definition lookup_joint (st : JointState) (n : string)
  : option (double * double) :=
  match find_joint n (name st) with
  | Some j =>
      match position st !! j, velocity st !! j with
      | Some p, Some v => Some (p, v)
      | _, _ => None
      end
  | None => None
  end.

(** The position a state records for joint [n]. *)
Definition joint_position (st : JointState) (n : string) : option double :=
  match find_joint n (name st) with
  | Some j => position st !! j
  | None => None
  end.

(** What a batch supplies last for joint [k]. *)
Fixpoint batch_last (ns : list string) (ps vs : list double) (k : string)
  : option (double * double) :=
  match ns, ps, vs with
  | n :: ns', p :: ps', v :: vs' =>
      match batch_last ns' ps' vs' k with
      | Some r => Some r
      | None => if String.eqb n k then Some (p, v) else None
      end
  | _, _, _ => None
  end.

(** The managers the program can be in: built by the constructor, then
    changed by [stateCallback] and by the reset of the validity flag in
    [waitToSettle]. *)
Inductive reachable : ChainManager -> Prop :=
| reach_new cs d vf st : reachable (ChainManager_new cs d vf st)
| reach_callback cm msg t cm' :
    reachable cm -> stateCallback cm msg = (t, Returns cm') -> reachable cm'
| reach_invalidate cm :
    reachable cm -> reachable (set_state cm (state_ cm) false).

(** Joint [n] belongs to the joint list of some registered chain. *)
Definition in_some_chain (cs : list ChainController) (n : string) : Prop :=
  exists c, c ∈ cs /\ n ∈ joint_names c.

(** The call comes back to its caller, with a value. *)
Definition returns_normally {A} (m : M A) : Prop :=
  exists a, snd m = Returns a.

(** The caller goes on after the call: its continuation [k] is run on what
    the call hands back.  A failure that is surfaced to the caller is one
    the caller goes on after. *)
Definition caller_goes_on {A B} (m : M A) (k : A -> M B) : Prop :=
  exists a, snd m = Returns a /\ snd (bind m k) = snd (k a).

(** What a trace shows of the command channels and of the planner. *)
Definition wait_events (t : trace) : list (nat * Duration) :=
  omap (fun e => match e with
                 | ClientWaitForResult i d => Some (i, d)
                 | _ => None
                 end) t.

Definition sent_chains (t : trace) : list nat :=
  omap (fun e => match e with
                 | ClientSendGoal i _ => Some i
                 | _ => None
                 end) t.

Definition plan_results (t : trace) : list (nat * MoveGroupResult) :=
  omap (fun e => match e with
                 | MoveGroupGetResult i r => Some (i, r)
                 | _ => None
                 end) t.

Definition plan_succeeded (r : MoveGroupResult) : Prop :=
  error_code_val r = SUCCESS.

(** The chains that require planning, by index, from index [i] on. *)
Fixpoint planning_chains (i : nat) (cs : list ChainController) : list nat :=
  match cs with
  | [] => []
  | c :: rest =>
      if shouldPlan c then i :: planning_chains (S i) rest
      else planning_chains (S i) rest
  end.

(** The target state has an entry for every joint of every chain. *)
Definition covers (state : JointState) (cs : list ChainController) : Prop :=
  Forall (fun c =>
    Forall (fun n => is_Some (joint_position state n)) (joint_names c)) cs.

(** The time of the last waypoint of each trajectory the planner returned,
    in seconds, in the order of the calls. *)
Definition planned_times (seconds : Duration -> double) (t : trace)
  : list double :=
  omap (fun ir =>
          match last (points (planned_trajectory (snd ir))) with
          | Some pt => Some (seconds (time_from_start pt))
          | None => None
          end) (plan_results t).

(** The aggregate duration as the specification words it: the maximum of
    the configured duration and the planned times. *)
Definition aggregate_duration (seconds : Duration -> double)
    (cm : ChainManager) (t : trace) : double :=
  fold_left Double.max (planned_times seconds t) (duration_ cm).

(** The velocity tests of the settle scan. *)
Definition below_threshold (v : double) : Prop :=
  Double.ltb (Double.fabs v) Double.d0_001 = true.

Definition at_or_above_threshold (v : double) : Prop :=
  Double.leb Double.d0_001 (Double.fabs v) = true.

(** Entry number [j] of a joint state names [n] and has velocity [v]. *)
Definition velocity_entry (st : JointState) (j : nat) (n : string)
    (v : double) : Prop :=
  name st !! j = Some n /\ velocity st !! j = Some v.

(** The events of one planning request on behalf of chain number [i]. *)
Definition plan_events (from_seconds : double -> Duration)
    (move_group : nat -> MoveGroupGoal -> MoveGroupResult)
    (i : nat) (g : MoveGroupGoal) : trace :=
  [MoveGroupSendGoal i g;
   MoveGroupWaitForResult i (from_seconds Double.d60_0);
   MoveGroupGetResult i (move_group i g)].

(** The events of the second loop of [moveToState] over [n] chains. *)
Definition wait_trace (from_seconds : double -> Duration) (n : nat)
    (max_duration : double) : trace :=
  map (fun k => ClientWaitForResult k
                  (from_seconds (Double.mul max_duration Double.d1_5)))
      (seq 0 n).

(** The planner never answers success with an empty trajectory. *)
Definition plans_have_waypoints
    (move_group : nat -> MoveGroupGoal -> MoveGroupResult) : Prop :=
  forall i g, plan_succeeded (move_group i g) ->
    points (planned_trajectory (move_group i g)) <> [].

(** ** A reference reading of the collaborators, and sample data

    The theorems hold for any conversions between seconds and durations
    and for any planner.  To run the code on samples, the conversions are
    read as rclcpp defines them on nanosecond counts: [seconds] divides by
    1e9 in binary64, [from_seconds] multiplies by 1e9 and truncates. *)

Definition rcl_seconds (d : Duration) : double :=
  Double.div (Double.of_Z d) (Double.of_Z 1000000000%Z).

Definition trunc_to_Z (x : double) : Z :=
  match x with
  | S754_finite s m e =>
      let a := match e with
               | Z0 => Zpos m
               | Zpos _ => (Zpos m * 2 ^ e)%Z
               | Zneg _ => (Zpos m / 2 ^ (- e))%Z
               end in
      if s then (- a)%Z else a
  | _ => 0%Z
  end.

Definition rcl_from_seconds (s : double) : Duration :=
  trunc_to_Z (Double.mul s (Double.of_Z 1000000000%Z)).

(** Two chains: the arm is driven directly, the head through the planner. *)
Definition chain_arm : ChainController :=
  {| chain_name := "arm"; chain_planning_group := "";
     joint_names := ["shoulder"; "elbow"] |}.

Definition chain_head : ChainController :=
  {| chain_name := "head"; chain_planning_group := "head_group";
     joint_names := ["pan"] |}.

Definition sample_manager : ChainManager :=
  ChainManager_new [chain_arm; chain_head]
    Double.d5_0 Double.d1_0 Double.zero.

Definition idle_manager : ChainManager :=
  ChainManager_new [] Double.d5_0 Double.d1_0 Double.d1_0.

(** A target that covers the three joints, and one that lacks the elbow. *)
Definition sample_target : JointState :=
  {| name := ["pan"; "shoulder"; "elbow"];
     position := [Double.d0_01; Double.d1_0; Double.d1_5];
     velocity := [Double.zero; Double.zero; Double.zero] |}.

Definition target_without_elbow : JointState :=
  {| name := ["pan"; "shoulder"];
     position := [Double.d0_01; Double.d1_0];
     velocity := [Double.zero; Double.zero] |}.

(** A planner whose trajectory ends at 8.2 s, one that fails, and one that
    answers success with a trajectory of no waypoint. *)
Definition sample_plan : JointTrajectory :=
  {| traj_joint_names := ["pan"];
     points := [ {| positions := [Double.zero]; velocities := [Double.zero];
                    accelerations := [Double.zero];
                    time_from_start := 4100000000%Z |};
                 {| positions := [Double.d0_01]; velocities := [Double.zero];
                    accelerations := [Double.zero];
                    time_from_start := 8200000000%Z |} ] |}.

Definition planner_ok (i : nat) (g : MoveGroupGoal) : MoveGroupResult :=
  {| error_code_val := SUCCESS; planned_trajectory := sample_plan |}.

Definition planner_fails (i : nat) (g : MoveGroupGoal) : MoveGroupResult :=
  {| error_code_val := (-1)%Z;
     planned_trajectory := {| traj_joint_names := []; points := [] |} |}.


Definition channel_ok (i : nat) (timeout : Duration) : bool := true.

(** Joint-state messages: all joints at rest; the elbow still moving, at
    the threshold exactly; arrays of different lengths. *)
Definition msg_at_rest : JointState :=
  {| name := ["pan"; "shoulder"; "elbow"];
     position := [Double.d0_01; Double.d1_0; Double.d1_5];
     velocity := [Double.zero; Double.zero; Double.zero] |}.

Definition msg_elbow_moving : JointState :=
  {| name := ["wheel"; "shoulder"; "elbow"; "pan"];
     position := [Double.zero; Double.d1_0; Double.d1_5; Double.zero];
     velocity := [Double.d1_0; Double.zero; Double.d0_001; Double.d5_0] |}.

Definition msg_malformed : JointState :=
  {| name := ["pan"; "shoulder"];
     position := [Double.d0_01; Double.d1_0];
     velocity := [Double.zero] |}.

(** A node whose clock reads 0 at the start; the first turn of the event
    loop delivers the moving elbow, the second a malformed message and then
    the robot at rest. *)
Definition sample_env : NodeEnv :=
  {| node_alive := true;
     clock_start := 0%Z;
     ticks := [ {| tick_now := 10000000%Z; tick_msgs := [msg_elbow_moving] |};
                {| tick_now := 20000000%Z;
                   tick_msgs := [msg_malformed; msg_at_rest] |} ] |}.

(** The manager after a message has been delivered to [stateCallback]. *)
Definition deliver (cm : ChainManager) (msg : JointState) : ChainManager :=
  match stateCallback cm msg with
  | (_, Returns cm') => cm'
  | _ => cm
  end.

Definition manager_at_rest : ChainManager :=
  Eval vm_compute in deliver sample_manager msg_at_rest.

Definition manager_moving : ChainManager :=
  Eval vm_compute in deliver sample_manager msg_elbow_moving.

(** A message in which the velocity of the shoulder is not a number while
    the elbow moves, and the manager after it. *)
Definition msg_shoulder_nan : JointState :=
  {| name := ["shoulder"; "elbow"];
     position := [Double.d1_0; Double.d1_5];
     velocity := [S754_nan; Double.d1_0] |}.

Definition manager_nan : ChainManager :=
  Eval vm_compute in deliver sample_manager msg_shoulder_nan.

(** ** The constructor *)

(** What the constructor asks of the node.  [declare_parameter] is taken
    to hand back a value for the name and default it is given, and
    [waitForServer] to answer within the wait time; the exceptions rclcpp
    raises (a name declared twice, an override of another type) are left
    out. *)
Record NodeConfig : Type := mkNodeConfig {
  declare_string_array : string -> list string -> list string;
  declare_string : string -> string -> string;
  declare_double : string -> double -> double;
  server_ready : nat -> string -> bool;   (* the channel of chain [i] *)
  planner_ready : bool                    (* the planner's action server *)
}.

Inductive setup_event : Type :=
| SetupWarn (text : string)
| SetupInfo (text : string)
| DeclareParameter (pname : string)
| ClientWaitForServer (chain : nat) (topic : string)
| MoveGroupInit (action : string)
| MoveGroupWaitForServer
| CreateSubscription (topic : string).

(** Modelled from the spec: the constructor of [ChainController] is
    declared in the header, which is not among the sources; a chain keeps
    the name and the planning group it is built with.  Its joint list is
    assigned by the constructor of the manager. *)
Definition ChainController_new (cfg : NodeConfig) (cname group : string)
  : ChainController :=
  {| chain_name := cname;
     chain_planning_group := group;
     joint_names := declare_string_array cfg (cname ++ ".joints") [] |}.

(** The loop over [chain_names], from chain number [i] on; [controllers]
    and [move_group] are [controllers_] and whether [move_group_] is set. *)
Fixpoint construct_chains (cfg : NodeConfig) (names : list string) (i : nat)
    (controllers : list ChainController) (move_group : bool)
  : list setup_event * (list ChainController * bool) :=
  match names with
  | [] => ([], (controllers, move_group))
  | cname :: rest =>
      let topic := declare_string cfg (cname ++ ".topic") "" in
      let group := declare_string cfg (cname ++ ".planning_group") "" in
      let controller := ChainController_new cfg cname group in
      let connect :=
        ClientWaitForServer i topic ::
        (if server_ready cfg i topic then []
         else [SetupWarn ("Failed to connect to " ++ topic)]) in
      let plan := shouldPlan controller && negb move_group in
      let planner :=
        if plan then
          MoveGroupInit "move_action" :: MoveGroupWaitForServer ::
          (if planner_ready cfg then []
           else [SetupWarn "Failed to connect to move_group"])
        else [] in
      let '(t, r) := construct_chains cfg rest (S i)
                       (controllers ++ [controller]) (move_group || plan) in
      ([DeclareParameter (cname ++ ".topic");
        DeclareParameter (cname ++ ".planning_group");
        SetupInfo ("Creating chain " ++ cname ++ " on topic " ++ topic);
        DeclareParameter (cname ++ ".joints")]
       ++ connect ++ planner ++ t, r)
  end.

(** The object the constructor leaves: the manager, whether [move_group_]
    is set and whether the subscription to the joint states exists. *)
Record Built : Type := mkBuilt {
  built_manager : ChainManager;
  move_group_created : bool;
  subscribed : bool
}.

(** [ChainManager::ChainManager].  The members the constructor does not
    assign on its early return keep the values [unset] holds. *)
Definition ChainManager_ctor (cfg : NodeConfig) (unset : ChainManager)
  : list setup_event * Built :=
  match declare_string_array cfg "chains" [] with
  | [] =>
      ([DeclareParameter "chains"; SetupWarn "No chains defined."],
       {| built_manager :=
            ChainManager_new [] (duration_ unset) (velocity_factor_ unset)
              (settling_timeout_ unset);
          move_group_created := false;
          subscribed := false |})
  | chain_names =>
      let '(t, (cs, mg)) := construct_chains cfg chain_names 0 [] false in
      (DeclareParameter "chains" :: t ++
       [DeclareParameter "duration"; DeclareParameter "velocity_factor";
        DeclareParameter "settling_timeout";
        CreateSubscription "/joint_states"],
       {| built_manager :=
            ChainManager_new cs
              (declare_double cfg "duration" Double.d5_0)
              (declare_double cfg "velocity_factor" Double.d1_0)
              (declare_double cfg "settling_timeout" Double.zero);
          move_group_created := mg;
          subscribed := true |})
  end.

(** ** Vocabulary of the further properties *)

(** The connections to the planner a set-up trace shows. *)
Definition planner_inits (t : list setup_event) : list string :=
  omap (fun e => match e with
                 | MoveGroupInit action => Some action
                 | _ => None
                 end) t.

(** The goals and the planning requests a trace shows. *)
Definition sent_goals (t : trace) : list (nat * TrajectoryGoal) :=
  omap (fun e => match e with
                 | ClientSendGoal i g => Some (i, g)
                 | _ => None
                 end) t.

Definition plan_requests (t : trace) : list (nat * MoveGroupGoal) :=
  omap (fun e => match e with
                 | MoveGroupSendGoal i g => Some (i, g)
                 | _ => None
                 end) t.

(** The clock readings a trace shows. *)
Definition clock_reads (t : trace) : list Time :=
  omap (fun e => match e with
                 | ClockNow now => Some now
                 | _ => None
                 end) t.

(** The joint [n] has an entry in the state. *)
Definition has_entry (state : JointState) (n : string) : Prop :=
  is_Some (joint_position state n).

(** Chain number [i] goes through the first loop of [moveToState]: its
    joints have entries and, if it requires planning, the planner answers
    success with a waypoint. *)
Definition dispatchable (move_group : nat -> MoveGroupGoal -> MoveGroupResult)
    (state : JointState) (i : nat) (c : ChainController) : Prop :=
  Forall (has_entry state) (joint_names c) /\
  (shouldPlan c = true ->
   forall g, plan_succeeded (move_group i g) /\
             points (planned_trajectory (move_group i g)) <> []).

(** The point of a directly actuated chain. *)
Definition direct_point_for (from_seconds : double -> Duration)
    (cm : ChainManager) (state : JointState) (c : ChainController)
    (pt : JointTrajectoryPoint) : Prop :=
  Forall2 (fun n x => joint_position state n = Some x)
    (joint_names c) (positions pt) /\
  velocities pt = replicate (length (joint_names c)) Double.zero /\
  accelerations pt = replicate (length (joint_names c)) Double.zero /\
  time_from_start pt = from_seconds (duration_ cm).

(** The constraint a planning request carries for joint [n]. *)
Definition constraint_for (state : JointState) (n : string)
    (jc : JointConstraint) : Prop :=
  joint_name jc = n /\
  joint_position state n = Some (jc_position jc) /\
  tolerance_above jc = Double.d0_01 /\
  tolerance_below jc = Double.d0_01 /\
  weight jc = Double.d1_0.

(** The planning request of chain [c]. *)
Definition request_for (cm : ChainManager) (state : JointState)
    (c : ChainController) (req : MoveGroupGoal) : Prop :=
  group_name req = chain_planning_group c /\
  num_planning_attempts req = 1%Z /\
  allowed_planning_time req = Double.d5_0 /\
  max_velocity_scaling_factor req = velocity_factor_ cm /\
  plan_only req = true /\
  exists c1, goal_constraints req = [c1] /\
             Forall2 (constraint_for state) (joint_names c) c1.

(** Two messages in one. *)
Definition msg_app (m1 m2 : JointState) : JointState :=
  {| name := name m1 ++ name m2;
     position := position m1 ++ position m2;
     velocity := velocity m1 ++ velocity m2 |}.

(** The timeout test of the polling loop at clock reading [now]. *)
Definition timeout_enabled (cm : ChainManager) : bool :=
  Double.ltb Double.zero (settling_timeout_ cm).

Definition elapsed (seconds : Duration -> double) (cm : ChainManager)
    (start now : Time) : bool :=
  Double.ltb (settling_timeout_ cm) (seconds (now - start)%Z).

(** The goal chain number [k] is sent. *)
Definition goal_for (from_seconds : double -> Duration)
    (move_group : nat -> MoveGroupGoal -> MoveGroupResult)
    (cm : ChainManager) (state : JointState) (k : nat)
    (c : ChainController) (g : TrajectoryGoal) : Prop :=
  goal_time_tolerance g = from_seconds Double.d1_0 /\
  if shouldPlan c then
    exists req, request_for cm state c req /\
                plan_succeeded (move_group k req) /\
                trajectory g = planned_trajectory (move_group k req)
  else
    traj_joint_names (trajectory g) = joint_names c /\
    exists pt, points (trajectory g) = [pt] /\
               direct_point_for from_seconds cm state c pt.

(** The controller the constructor builds for the chain named [n]. *)
Definition configured_chain (cfg : NodeConfig) (n : string)
  : ChainController :=
  ChainController_new cfg n (declare_string cfg (n ++ ".planning_group") "").

(** ** Sample data of the further properties *)

(** The arm alone, with a settling timeout of one second. *)
Definition timed_manager : ChainManager :=
  ChainManager_new [chain_arm] Double.d5_0 Double.d1_0 Double.d1_0.

(** A message about a joint of no chain, moving. *)
Definition msg_wheel : JointState :=
  {| name := ["wheel"]; position := [Double.zero];
     velocity := [Double.d1_0] |}.

(** A node that delivers malformed messages only; its clock reads half a
    second at the first turn and two seconds at the second. *)
Definition silent_env : NodeEnv :=
  {| node_alive := true;
     clock_start := 0%Z;
     ticks := [ {| tick_now := 500000000%Z; tick_msgs := [msg_malformed] |};
                {| tick_now := 2000000000%Z;
                   tick_msgs := [msg_malformed] |} ] |}.

(** A node that delivers one message, about the wheel. *)
Definition wheel_env : NodeEnv :=
  {| node_alive := true;
     clock_start := 0%Z;
     ticks := [ {| tick_now := 10000000%Z; tick_msgs := [msg_wheel] |} ] |}.

(** A target that lacks the pan joint, and one that names the elbow but
    holds two positions only. *)
Definition target_without_pan : JointState :=
  {| name := ["shoulder"; "elbow"];
     position := [Double.d1_0; Double.d1_5];
     velocity := [Double.zero; Double.zero] |}.

Definition target_short_of_positions : JointState :=
  {| name := ["pan"; "shoulder"; "elbow"];
     position := [Double.d0_01; Double.d1_0];
     velocity := [] |}.

(** Two messages about different joints. *)
Definition msg_pan : JointState :=
  {| name := ["pan"]; position := [Double.d0_01];
     velocity := [Double.zero] |}.

Definition msg_arm : JointState :=
  {| name := ["shoulder"; "elbow"];
     position := [Double.d1_0; Double.d1_5];
     velocity := [Double.zero; Double.d0_01] |}.

(** The parameters of a node that configures the two sample chains, and
    those of a node that configures nothing. *)
Definition sample_config : NodeConfig :=
  {| declare_string_array := fun p d =>
       if String.eqb p "chains" then ["arm"; "head"]
       else if String.eqb p "arm.joints" then ["shoulder"; "elbow"]
       else if String.eqb p "head.joints" then ["pan"]
       else d;
     declare_string := fun p d =>
       if String.eqb p "arm.topic" then "/arm_controller"
       else if String.eqb p "head.topic" then "/head_controller"
       else if String.eqb p "head.planning_group" then "head_group"
       else d;
     declare_double := fun p d => d;
     server_ready := fun i topic => true;
     planner_ready := false |}.

Definition empty_config : NodeConfig :=
  {| declare_string_array := fun p d => d;
     declare_string := fun p d => d;
     declare_double := fun p d => d;
     server_ready := fun i topic => true;
     planner_ready := true |}.

(** ** Proof steps used more than once *)

(** Case analysis on every comparison of integers in sight. *)
Ltac cmp_cases :=
  repeat match goal with
  | |- context [Z.compare ?a ?b] => destruct (Z.compare_spec a b)
  | H : context [Z.compare ?a ?b] |- _ => destruct (Z.compare_spec a b)
  | |- context [Pos.compare ?a ?b] => destruct (Pos.compare_spec a b)
  | H : context [Pos.compare ?a ?b] |- _ => destruct (Pos.compare_spec a b)
  end.

(** Name the run bound by a destructuring [let] in [H]. *)
Ltac open_let H :=
  match type of H with
  | (let '(_, _) := ?X in _) = _ =>
      let E := fresh "E" in
      destruct X as [? ?] eqn:E; injection H as _ ->; rename E into H
  end.

(** The same, keeping the equation of the trace as [Ht]. *)
Ltac open_let_trace H Ht :=
  match type of H with
  | (let '(_, _) := ?X in _) = _ =>
      let E := fresh "E" in
      destruct X as [? ?] eqn:E; injection H as Ht ->; rename E into H
  end.

(** ** The store: proofs *)

Lemma find_joint_Some n l j :
  find_joint n l = Some j <->
  l !! j = Some n /\ forall k, (k < j)%nat -> l !! k <> Some n.
Proof.
  revert j; induction l as [|x l IH]; intros j; simpl.
  - split; [discriminate | intros [H _]; discriminate].
  - destruct (String.eqb_spec x n) as [->|Hne].
    + split.
      * intros [= <-]. split; [reflexivity | intros k Hk; lia].
      * intros [Hj Hmin]. destruct j as [|j]; [reflexivity|].
        exfalso. apply (Hmin 0%nat); [lia | reflexivity].
    + split.
      * destruct (find_joint n l) as [j'|]; [|discriminate]. intros [= <-].
        destruct (IH j') as [IH1 _]. destruct (IH1 eq_refl) as [Hj Hmin].
        split; [exact Hj|].
        intros [|k] Hk; simpl; [congruence | apply Hmin; lia].
      * intros [Hj Hmin]. destruct j as [|j]; simpl in Hj; [congruence|].
        assert (E' : find_joint n l = Some j).
        { apply IH. split; [exact Hj|]. intros k Hk.
          apply (Hmin (S k)). lia. }
        rewrite E'. reflexivity.
Qed.

Lemma find_joint_None n l : find_joint n l = None <-> n ∉ l.
Proof.
  induction l as [|x l IH]; simpl.
  - split; [intros _; apply not_elem_of_nil | reflexivity].
  - destruct (String.eqb_spec x n) as [->|Hne].
    + split; [discriminate | intros H; exfalso; apply H; left].
    + destruct (find_joint n l) as [j|].
      * split; [discriminate|].
        intros H. exfalso. apply H. right. 
        destruct (decide (n ∈ l)) as [Hin|Hnin]; [exact Hin|].
        apply IH in Hnin. discriminate.
      * split; [|reflexivity]. intros _ Hin.
        apply elem_of_cons in Hin as [->|Hin]; [congruence|].
        destruct IH as [IH _]. specialize (IH eq_refl). contradiction.
Qed.

Lemma find_joint_lt n l j : find_joint n l = Some j -> (j < length l)%nat.
Proof.
  intros H. apply find_joint_Some in H as [H _].
  apply lookup_lt_Some in H. exact H.
Qed.

Lemma find_joint_elem n l : n ∈ l -> exists j, find_joint n l = Some j.
Proof.
  intros Hin. destruct (find_joint n l) as [j|] eqn:E; [eauto|].
  apply find_joint_None in E. contradiction.
Qed.

Lemma find_joint_NoDup l j n :
  NoDup l -> l !! j = Some n -> find_joint n l = Some j.
Proof.
  intros Hnd Hj. apply find_joint_Some. split; [exact Hj|].
  intros k Hk Hk'. pose proof (NoDup_lookup _ _ _ _ Hnd Hj Hk'). lia.
Qed.

Lemma find_joint_app_l n l l' j :
  find_joint n l = Some j -> find_joint n (l ++ l') = Some j.
Proof.
  intros H. apply find_joint_Some in H as [Hj Hmin].
  apply find_joint_Some. split.
  - rewrite lookup_app_l; [exact Hj | eapply lookup_lt_Some; eauto].
  - intros k Hk. rewrite lookup_app_l; [apply Hmin; exact Hk|].
    apply lookup_lt_Some in Hj. lia.
Qed.

Lemma find_joint_snoc_new n l :
  find_joint n l = None -> find_joint n (l ++ [n]) = Some (length l).
Proof.
  intros H. apply find_joint_None in H. apply find_joint_Some. split.
  - rewrite lookup_app_r by lia. rewrite Nat.sub_diag. reflexivity.
  - intros k Hk Hk'. rewrite lookup_app_l in Hk' by lia.
    apply H. eapply list_elem_of_lookup_2; eauto.
Qed.

Lemma find_joint_snoc_other n k l :
  k <> n -> find_joint n l = None -> find_joint n (l ++ [k]) = None.
Proof.
  intros Hne H. apply find_joint_None. apply find_joint_None in H.
  intros Hin. apply elem_of_app in Hin as [Hin|Hin]; [contradiction|].
  apply list_elem_of_singleton in Hin. congruence.
Qed.

Lemma update_joint_returns st n p v :
  aligned st ->
  exists st', update_joint st n p v = Returns st' /\ aligned st' /\
    (NoDup (name st) -> NoDup (name st')) /\
    (forall k, lookup_joint st' k =
               if String.eqb n k then Some (p, v) else lookup_joint st k) /\
    name st' = match find_joint n (name st) with
               | Some _ => name st
               | None => name st ++ [n]
               end.
Proof.
  intros [Hnp Hpv]. unfold update_joint.
  destruct (find_joint n (name st)) as [j|] eqn:E.
  - pose proof (find_joint_lt _ _ _ E) as Hj.
    assert (Hjp : (j <? length (position st))%nat = true)
      by (apply Nat.ltb_lt; lia).
    assert (Hjv : (j <? length (velocity st))%nat = true)
      by (apply Nat.ltb_lt; lia).
    rewrite Hjp, Hjv. simpl. eexists. split; [reflexivity|].
    split; [|split; [|split]].
    + split; simpl; rewrite !length_insert; assumption.
    + simpl. auto.
    + intros k. unfold lookup_joint. simpl.
      destruct (String.eqb_spec n k) as [<-|Hne].
      * rewrite E. rewrite !list_lookup_insert_eq by lia. reflexivity.
      * destruct (find_joint k (name st)) as [j'|] eqn:E'; [|reflexivity].
        assert (j <> j').
        { intros <-. apply find_joint_Some in E as [E _].
          apply find_joint_Some in E' as [E' _]. congruence. }
        rewrite !list_lookup_insert_ne by assumption. reflexivity.
    + reflexivity.
  - eexists. split; [reflexivity|]. split; [|split; [|split]].
    + split; simpl; rewrite !length_app; simpl; lia.
    + simpl. intros Hnd. apply NoDup_app. split; [exact Hnd|].
      split; [|apply NoDup_singleton].
      intros x Hx Hx'. apply list_elem_of_singleton in Hx'. subst x.
      apply find_joint_None in E. contradiction.
    + intros k. unfold lookup_joint. simpl.
      destruct (String.eqb_spec n k) as [<-|Hne].
      * rewrite (find_joint_snoc_new _ _ E).
        rewrite Hnp at 1. rewrite lookup_app_r by lia.
        rewrite Nat.sub_diag. simpl.
        replace (length (name st)) with (length (velocity st)) by lia.
        rewrite lookup_app_r by lia. rewrite Nat.sub_diag. reflexivity.
      * destruct (find_joint k (name st)) as [j'|] eqn:E'.
        -- rewrite (find_joint_app_l _ _ [n] _ E').
           pose proof (find_joint_lt _ _ _ E').
           rewrite !lookup_app_l by lia. reflexivity.
        -- rewrite (find_joint_snoc_other _ _ _ Hne E'). reflexivity.
    + reflexivity.
Qed.

Lemma update_joints_returns ns : forall ps vs st,
  length ns = length ps -> length ps = length vs -> aligned st ->
  exists st', update_joints ns ps vs st = Returns st' /\ aligned st' /\
    (NoDup (name st) -> NoDup (name st')) /\
    (forall k, lookup_joint st' k =
               match batch_last ns ps vs k with
               | Some r => Some r
               | None => lookup_joint st k
               end) /\
    (exists added, name st' = name st ++ added /\
       forall n, n ∈ added <-> n ∈ ns /\ n ∉ name st).
Proof.
  induction ns as [|n ns IH]; intros ps vs st Hnp Hpv Hal.
  - simpl. exists st. split; [reflexivity|]. split; [exact Hal|].
    split; [auto|]. split; [reflexivity|].
    exists []. rewrite app_nil_r. split; [reflexivity|].
    intros n. split.
    + intros H. apply not_elem_of_nil in H. contradiction.
    + intros [H _]. exact H.
  - destruct ps as [|p ps]; [discriminate|].
    destruct vs as [|v vs]; [discriminate|].
    simpl in Hnp, Hpv. simpl.
    destruct (update_joint_returns st n p v Hal)
      as (st1 & -> & Hal1 & Hnd1 & Hlk1 & Hnm1).
    destruct (IH ps vs st1) as (st' & -> & Hal' & Hnd' & Hlk' & added & Hnm' & Hadd);
      [lia | lia | exact Hal1 |].
    exists st'. split; [reflexivity|]. split; [exact Hal'|].
    split; [auto|]. split.
    + intros k. rewrite Hlk', Hlk1.
      destruct (batch_last ns ps vs k); [reflexivity|].
      destruct (String.eqb n k); reflexivity.
    + destruct (find_joint n (name st)) as [j|] eqn:E.
      * exists added. rewrite Hnm', Hnm1. split; [reflexivity|].
        intros x. rewrite Hadd, Hnm1. rewrite elem_of_cons.
        split; [intros [H1 H2]; auto|].
        intros [[->|H1] H2]; [|auto].
        exfalso. apply H2. apply find_joint_Some in E as [E _].
        eapply list_elem_of_lookup_2; eauto.
      * exists (n :: added). rewrite Hnm', Hnm1, <- app_assoc.
        split; [reflexivity|]. apply find_joint_None in E.
        intros x. rewrite !elem_of_cons, Hadd, Hnm1, elem_of_app.
        rewrite list_elem_of_singleton.
        destruct (decide (x = n)) as [->|Hne].
        -- split; [auto | intros _; auto].
        -- split.
           ++ intros [?|[H1 H2]]; [contradiction|]. split; [auto|].
              intros H3. apply H2. auto.
           ++ intros [[?|H1] H2]; [contradiction|]. right. split; [exact H1|].
              intros [?|?]; contradiction.
Qed.

Lemma batch_last_at ns : forall ps vs i n p v,
  ns !! i = Some n -> ps !! i = Some p -> vs !! i = Some v ->
  (forall i', (i < i')%nat -> ns !! i' <> Some n) ->
  batch_last ns ps vs n = Some (p, v).
Proof.
  induction ns as [|x ns IH]; intros ps vs i n p v Hn Hp Hv Hlast.
  - discriminate.
  - destruct ps as [|p0 ps]; [destruct i; discriminate|].
    destruct vs as [|v0 vs]; [destruct i; discriminate|].
    simpl. destruct i as [|i]; simpl in Hn, Hp, Hv.
    + injection Hn as ->. injection Hp as ->. injection Hv as ->.
      assert (Hnone : forall ps' vs', batch_last ns ps' vs' n = None).
      { assert (Hnin : n ∉ ns).
        { intros Hin. apply list_elem_of_lookup_1 in Hin as [i' Hi'].
          apply (Hlast (S i')); [lia | exact Hi']. }
        clear -Hnin. induction ns as [|y ns IH]; intros ps' vs';
          [reflexivity|].
        apply not_elem_of_cons in Hnin as [Hne Hnin].
        destruct ps' as [|? ps']; [reflexivity|].
        destruct vs' as [|? vs']; [reflexivity|].
        simpl. rewrite (IH Hnin).
        destruct (String.eqb_spec y n); [congruence | reflexivity]. }
      rewrite Hnone. rewrite String.eqb_refl. reflexivity.
    + erewrite IH; eauto.
      intros i' Hi'. apply (Hlast (S i')). lia.
Qed.

Lemma batch_last_None ns : forall ps vs k,
  k ∉ ns -> batch_last ns ps vs k = None.
Proof.
  induction ns as [|y ns IH]; intros ps vs k Hnin; [reflexivity|].
  apply not_elem_of_cons in Hnin as [Hne Hnin].
  destruct ps as [|? ps]; [reflexivity|].
  destruct vs as [|? vs]; [reflexivity|].
  simpl. rewrite (IH _ _ _ Hnin).
  destruct (String.eqb_spec y k); [congruence | reflexivity].
Qed.

(** Two stores that satisfy the invariant, list the same names and give
    every joint the same entry are equal. *)
Lemma store_ext st1 st2 :
  store_inv st1 -> store_inv st2 -> name st1 = name st2 ->
  (forall k, lookup_joint st1 k = lookup_joint st2 k) -> st1 = st2.
Proof.
  intros [[Hnp1 Hpv1] Hnd1] [[Hnp2 Hpv2] Hnd2] Hnm Hlk.
  destruct st1 as [n1 p1 v1], st2 as [n2 p2 v2]. simpl in *. subst n2.
  assert (Hent : forall j, (j < length n1)%nat ->
            p1 !! j = p2 !! j /\ v1 !! j = v2 !! j).
  { intros j Hj.
    destruct (lookup_lt_is_Some_2 n1 j Hj) as [n Hn].
    specialize (Hlk n). unfold lookup_joint in Hlk. simpl in Hlk.
    rewrite (find_joint_NoDup _ _ _ Hnd1 Hn) in Hlk.
    destruct (lookup_lt_is_Some_2 p1 j ltac:(lia)) as [a1 Ha1].
    destruct (lookup_lt_is_Some_2 v1 j ltac:(lia)) as [b1 Hb1].
    destruct (lookup_lt_is_Some_2 p2 j ltac:(lia)) as [a2 Ha2].
    destruct (lookup_lt_is_Some_2 v2 j ltac:(lia)) as [b2 Hb2].
    rewrite Ha1, Hb1, Ha2, Hb2 in *. split; congruence. }
  f_equal; apply list_eq; intros j.
  - destruct (decide (j < length n1)%nat) as [Hj|Hj];
      [apply Hent; exact Hj|].
    rewrite !lookup_ge_None_2 by lia. reflexivity.
  - destruct (decide (j < length n1)%nat) as [Hj|Hj];
      [apply Hent; exact Hj|].
    rewrite !lookup_ge_None_2 by lia. reflexivity.
Qed.

Lemma aligned_dec (st : JointState) :
  (length (name st) =? length (position st))%nat &&
  (length (position st) =? length (velocity st))%nat = true <-> aligned st.
Proof.
  unfold aligned. rewrite andb_true_iff, !Nat.eqb_eq. reflexivity.
Qed.

Lemma stateCallback_rejects cm msg :
  ~ aligned msg ->
  exists text, stateCallback cm msg = ([LogError text], Returns cm).
Proof.
  intros Hbad. unfold stateCallback.
  destruct (length (name msg) =? length (position msg))%nat eqn:E1; simpl.
  - destruct (length (position msg) =? length (velocity msg))%nat eqn:E2;
      simpl.
    + exfalso. apply Hbad. split; apply Nat.eqb_eq; assumption.
    + eexists. reflexivity.
  - eexists. reflexivity.
Qed.

Lemma stateCallback_accepts cm msg :
  aligned msg -> aligned (state_ cm) ->
  exists st',
    update_joints (name msg) (position msg) (velocity msg) (state_ cm)
      = Returns st' /\
    stateCallback cm msg = ([], Returns (set_state cm st' true)).
Proof.
  intros [H1 H2] Hal.
  destruct (update_joints_returns _ _ _ _ H1 H2 Hal) as (st' & Hup & _).
  exists st'. split; [exact Hup|].
  unfold stateCallback. rewrite H1, H2, !Nat.eqb_refl. simpl.
  rewrite Hup. reflexivity.
Qed.

Lemma aligned_or_not (msg : JointState) : aligned msg \/ ~ aligned msg.
Proof.
  unfold aligned.
  destruct (decide (length (name msg) = length (position msg)));
  destruct (decide (length (position msg) = length (velocity msg)));
  tauto.
Qed.

(** One callback from a store that satisfies the invariant. *)
Lemma stateCallback_step cm msg :
  store_inv (state_ cm) ->
  exists t cm', stateCallback cm msg = (t, Returns cm') /\
    store_inv (state_ cm') /\
    controllers_ cm' = controllers_ cm /\
    exists added, name (state_ cm') = name (state_ cm) ++ added /\
      forall n, n ∈ added -> n ∈ name msg /\ n ∉ name (state_ cm).
Proof.
  intros [Hal Hnd]. destruct (aligned_or_not msg) as [Hmsg|Hmsg].
  - destruct Hmsg as [H1 H2].
    destruct (update_joints_returns _ _ _ _ H1 H2 Hal)
      as (st' & Hup & Hal' & Hnd' & _ & added & Hnm & Hadd).
    destruct (stateCallback_accepts cm msg (conj H1 H2) Hal)
      as (st'' & Hup' & Hcb).
    rewrite Hup in Hup'. injection Hup' as <-.
    exists [], (set_state cm st' true). split; [exact Hcb|].
    split; [split; simpl; auto|]. split; [reflexivity|].
    exists added. split; [exact Hnm|]. intros n Hn. apply Hadd, Hn.
  - destruct (stateCallback_rejects cm msg Hmsg) as [text Hcb].
    exists [LogError text], cm. split; [exact Hcb|].
    split; [split; assumption|]. split; [reflexivity|].
    exists []. rewrite app_nil_r. split; [reflexivity|].
    intros n Hn. apply not_elem_of_nil in Hn. contradiction.
Qed.

Lemma reachable_store_inv cm : reachable cm -> store_inv (state_ cm).
Proof.
  induction 1 as [cs d vf st | cm msg t cm' _ IH Hcb | cm _ IH].
  - split; [split; reflexivity | apply NoDup_nil_2].
  - destruct (stateCallback_step cm msg IH) as (t' & cm'' & Hcb' & Hinv & _).
    rewrite Hcb in Hcb'. injection Hcb' as _ <-. exact Hinv.
  - exact IH.
Qed.

Lemma bind_Returns {A B} (m : M A) (f : A -> M B) t b :
  bind m f = (t, Returns b) ->
  exists t1 a t2,
    m = (t1, Returns a) /\ f a = (t2, Returns b) /\ t = t1 ++ t2.
Proof.
  destruct m as [t1 [a|s| |]]; simpl; try discriminate.
  destruct (f a) as [t2 o] eqn:E. intros [= <- ->].
  exists t1, a, t2. auto.
Qed.

(** [waitToSettle] moves among the reachable managers. *)
Lemma spin_some_reachable msgs : forall cm t cm',
  reachable cm -> spin_some cm msgs = (t, Returns cm') -> reachable cm'.
Proof.
  induction msgs as [|m msgs IH]; intros cm t cm' Hr Hrun; simpl in Hrun.
  - injection Hrun as _ <-. exact Hr.
  - apply bind_Returns in Hrun as (t1 & cm1 & t2 & Hcb & Hrest & _).
    apply (IH cm1 t2); [|exact Hrest].
    eapply reach_callback; eauto.
Qed.

Lemma waitToSettle_loop_reachable seconds script : forall cm start t cm' b,
  reachable cm ->
  waitToSettle_loop seconds cm start script = (t, Returns (cm', b)) ->
  reachable cm'.
Proof.
  induction script as [|tk script IH]; intros cm start t cm' b Hr Hrun;
    simpl in Hrun;
    apply bind_Returns in Hrun as (t1 & settled & t2 & _ & Hrun & _);
    destruct settled.
  - injection Hrun as _ <- _. exact Hr.
  - discriminate.
  - injection Hrun as _ <- _. exact Hr.
  - apply bind_Returns in Hrun as (t3 & timed_out & t4 & _ & Hrun & _).
    destruct timed_out.
    + injection Hrun as _ <- _. exact Hr.
    + open_let Hrun.
      apply bind_Returns in Hrun as (t7 & cm1 & t8 & Hspin & Hrun & _).
      apply (IH cm1 start t8 cm' b); [|exact Hrun].
      eapply spin_some_reachable; eauto.
Qed.

Lemma waitToSettle_reachable seconds cm env t cm' b :
  reachable cm ->
  waitToSettle seconds cm env = (t, Returns (cm', b)) ->
  reachable cm'.
Proof.
  intros Hr Hrun. unfold waitToSettle in Hrun.
  destruct (controllers_ cm) as [|c cs].
  - injection Hrun as _ <- _. exact Hr.
  - simpl in Hrun. destruct (node_alive env); simpl in Hrun.
    + repeat open_let Hrun.
      eapply waitToSettle_loop_reachable; [|exact Hrun].
      apply reach_invalidate, Hr.
    + injection Hrun as _ <- _. exact Hr.
Qed.

(** ** The store: theorems *)

(** C4. A joint-state message whose name, position and velocity arrays do
    not all have one length is dropped whole: [stateCallback] only logs an
    error and returns; the manager, hence every entry of the store and the
    validity flag, is what it was, and so is the snapshot [getState]
    gives. *)
Theorem stateCallback_malformed_rejected (cm : ChainManager)
    (msg : JointState) :
  ~ (length (name msg) = length (position msg) /\
     length (position msg) = length (velocity msg)) ->
  exists text cm',
    stateCallback cm msg = ([LogError text], Returns cm') /\
    cm' = cm /\
    state_ cm' = state_ cm /\
    state_is_valid_ cm' = state_is_valid_ cm /\
    getState cm' = getState cm.
Proof.
  intros Hbad. destruct (stateCallback_rejects cm msg Hbad) as [text Hcb].
  exists text, cm. split; [exact Hcb|]. auto.
Qed.

(** C9. Every manager the program can be in keeps the invariant of the
    store: the three arrays have one length and no name occurs twice.  A
    further [stateCallback], whatever the message, returns normally with
    the invariant kept, the old names where they were and appended names
    all new; the snapshot of [getState] satisfies the invariant and is the
    store itself; a call of [waitToSettle] that returns, with the callbacks
    it runs, leaves the invariant in place. *)
Theorem store_invariant_preserved (cm : ChainManager) :
  reachable cm ->
  store_inv (state_ cm) /\
  store_inv (fst (getState cm)) /\
  fst (getState cm) = state_ cm /\
  (forall msg, exists t cm',
     stateCallback cm msg = (t, Returns cm') /\
     reachable cm' /\
     store_inv (state_ cm') /\
     exists added, name (state_ cm') = name (state_ cm) ++ added /\
       forall n, n ∈ added -> n ∈ name msg /\ n ∉ name (state_ cm)) /\
  (forall seconds env t cm' b,
     waitToSettle seconds cm env = (t, Returns (cm', b)) ->
     store_inv (state_ cm')).
Proof.
  intros Hr. pose proof (reachable_store_inv cm Hr) as Hinv.
  split; [exact Hinv|]. split; [exact Hinv|]. split; [reflexivity|]. split.
  - intros msg.
    destruct (stateCallback_step cm msg Hinv)
      as (t & cm' & Hcb & Hinv' & _ & Hadd).
    exists t, cm'. split; [exact Hcb|].
    split; [eapply reach_callback; eauto|]. split; [exact Hinv'|]. exact Hadd.
  - intros seconds env t cm' b Hrun. apply reachable_store_inv.
    eapply waitToSettle_reachable; eauto.
Qed.

(** C5. A message with arrays of one length is merged by name: the
    snapshot taken afterwards is valid, gives every joint of the message
    the values of its last occurrence in the message, leaves the joints the
    message does not name as they were, keeps the old names in place and
    appends each unseen name once; delivering the same message again
    changes nothing. *)
Theorem stateCallback_latest_values (cm : ChainManager) (msg : JointState) :
  reachable cm ->
  length (name msg) = length (position msg) ->
  length (position msg) = length (velocity msg) ->
  exists cm',
    stateCallback cm msg = ([], Returns cm') /\
    snd (getState cm') = true /\
    (forall i n p v,
        name msg !! i = Some n -> position msg !! i = Some p ->
        velocity msg !! i = Some v ->
        (forall i', (i < i')%nat -> name msg !! i' <> Some n) ->
        lookup_joint (fst (getState cm')) n = Some (p, v)) /\
    (forall k, k ∉ name msg ->
        lookup_joint (fst (getState cm')) k = lookup_joint (state_ cm) k) /\
    (exists added,
        name (fst (getState cm')) = name (state_ cm) ++ added /\
        forall n, n ∈ added <-> n ∈ name msg /\ n ∉ name (state_ cm)) /\
    NoDup (name (fst (getState cm'))) /\
    stateCallback cm' msg = ([], Returns cm').
Proof.
  intros Hr H1 H2. destruct (reachable_store_inv cm Hr) as [Hal Hnd].
  destruct (update_joints_returns _ _ _ _ H1 H2 Hal)
    as (st1 & Hup & Hal1 & Hnd1 & Hlk1 & added & Hnm1 & Hadd1).
  destruct (stateCallback_accepts cm msg (conj H1 H2) Hal)
    as (st1' & Hup' & Hcb).
  rewrite Hup in Hup'. injection Hup' as <-.
  exists (set_state cm st1 true). split; [exact Hcb|].
  split; [reflexivity|]. simpl. split; [|split; [|split; [|split]]].
  - intros i n p v Hn Hp Hv Hlast. rewrite Hlk1.
    rewrite (batch_last_at _ _ _ i n p v Hn Hp Hv Hlast). reflexivity.
  - intros k Hk. rewrite Hlk1, batch_last_None by exact Hk. reflexivity.
  - exists added. split; [exact Hnm1 | exact Hadd1].
  - auto.
  - destruct (update_joints_returns _ _ _ _ H1 H2 Hal1)
      as (st2 & Hup2 & Hal2 & Hnd2 & Hlk2 & added2 & Hnm2 & Hadd2).
    destruct (stateCallback_accepts (set_state cm st1 true) msg
                (conj H1 H2) Hal1) as (st2' & Hup2' & Hcb2).
    simpl in Hup2'. rewrite Hup2 in Hup2'. injection Hup2' as <-.
    rewrite Hcb2.
    assert (Hadded2 : added2 = []).
    { destruct added2 as [|x added2]; [reflexivity|]. exfalso.
      destruct (Hadd2 x) as [Hx _].
      destruct Hx as [Hx1 Hx2]; [left|]. apply Hx2.
      rewrite Hnm1. apply elem_of_app.
      destruct (decide (x ∈ name (state_ cm))) as [Hin|Hnin]; [auto|].
      right. apply Hadd1. auto. }
    assert (Heq : st2 = st1).
    { apply store_ext.
      - split; auto.
      - split; auto.
      - rewrite Hnm2, Hadded2, app_nil_r. reflexivity.
      - intros k. rewrite Hlk2, Hlk1.
        destruct (batch_last _ _ _ k); reflexivity. }
    rewrite Heq. reflexivity.
Qed.

(** ** [makePoint]: proofs *)

(** One joint that has an entry extends a balanced point by one value in
    each sequence, and the loop goes on. *)
Lemma makePoint_loop_found state jn rest p x :
  length (velocities p) = length (positions p) ->
  joint_position state jn = Some x ->
  makePoint_loop state (jn :: rest) p =
  makePoint_loop state rest
    {| positions := positions p ++ [x];
       velocities := velocities p ++ [Double.zero];
       accelerations := accelerations p ++ [Double.zero];
       time_from_start := time_from_start p |}.
Proof.
  intros Hbal Hx. unfold joint_position in Hx. simpl.
  destruct (find_joint jn (name state)) as [j|]; [|discriminate].
  rewrite Hx. simpl. rewrite !length_app, Hbal. simpl.
  rewrite Nat.eqb_refl. simpl.
  destruct (makePoint_loop state rest _) as [t o]. reflexivity.
Qed.

(** One joint whose name the state does not list: the error is logged and
    the process exits. *)
Lemma makePoint_loop_missing state jn rest p :
  length (velocities p) = length (positions p) ->
  jn ∉ name state ->
  makePoint_loop state (jn :: rest) p =
  ([LogError ("Bad move to state, missing " ++ jn)], Exits (-1)).
Proof.
  intros Hbal Hnin. apply find_joint_None in Hnin. simpl.
  rewrite Hnin. simpl. rewrite length_app, Hbal. simpl.
  replace (length (positions p) + 1 =? length (positions p))%nat with false
    by (symmetry; apply Nat.eqb_neq; lia).
  reflexivity.
Qed.

Lemma makePoint_loop_covered state joints : forall p,
  length (velocities p) = length (positions p) ->
  Forall (fun n => is_Some (joint_position state n)) joints ->
  exists xs,
    Forall2 (fun n x => joint_position state n = Some x) joints xs /\
    makePoint_loop state joints p =
    ([], Returns {| positions := positions p ++ xs;
                    velocities := velocities p
                                  ++ replicate (length joints) Double.zero;
                    accelerations := accelerations p
                                  ++ replicate (length joints) Double.zero;
                    time_from_start := time_from_start p |}).
Proof.
  induction joints as [|jn rest IH]; intros p Hbal Hcov.
  - exists []. split; [constructor|]. simpl. rewrite !app_nil_r.
    destruct p; reflexivity.
  - apply Forall_cons in Hcov as [[x Hx] Hcov].
    rewrite (makePoint_loop_found _ _ _ _ x Hbal Hx).
    destruct (IH {| positions := positions p ++ [x];
                    velocities := velocities p ++ [Double.zero];
                    accelerations := accelerations p ++ [Double.zero];
                    time_from_start := time_from_start p |})
      as (xs & Hxs & ->); [simpl; rewrite !length_app; simpl; lia | exact Hcov |].
    exists (x :: xs). split; [constructor; assumption|].
    simpl. rewrite <- !app_assoc. reflexivity.
Qed.

(** Whatever the state, a point that [makePoint] returns is complete. *)
Lemma makePoint_loop_returns state joints : forall p t p',
  length (velocities p) = length (positions p) ->
  makePoint_loop state joints p = (t, Returns p') ->
  Forall (fun n => is_Some (joint_position state n)) joints /\
  length (positions p') = (length (positions p) + length joints)%nat.
Proof.
  induction joints as [|jn rest IH]; intros p t p' Hbal Hrun.
  - simpl in Hrun. injection Hrun as _ <-. split; [apply Forall_nil_2 | simpl; lia].
  - destruct (joint_position state jn) as [x|] eqn:Hx.
    + rewrite (makePoint_loop_found _ _ _ _ x Hbal Hx) in Hrun.
      apply IH in Hrun as [Hcov Hlen];
        [|simpl; rewrite !length_app; simpl; lia].
      split; [apply Forall_cons_2; [eauto | exact Hcov]|].
      simpl in Hlen. rewrite length_app in Hlen. simpl in *. lia.
    + exfalso. unfold joint_position in Hx. simpl in Hrun.
      destruct (find_joint jn (name state)) as [j|].
      * rewrite Hx in Hrun. simpl in Hrun. discriminate.
      * simpl in Hrun. rewrite length_app, Hbal in Hrun. simpl in Hrun.
        replace (length (positions p) + 1 =? length (positions p))%nat
          with false in Hrun by (symmetry; apply Nat.eqb_neq; lia).
        simpl in Hrun. discriminate.
Qed.

Lemma makePoint_loop_first_missing state n post pre : forall p,
  length (velocities p) = length (positions p) ->
  Forall (fun m => is_Some (joint_position state m)) pre ->
  n ∉ name state ->
  makePoint_loop state (pre ++ n :: post) p =
  ([LogError ("Bad move to state, missing " ++ n)], Exits (-1)).
Proof.
  induction pre as [|m pre IH]; intros p Hbal Hpre Hn.
  - apply makePoint_loop_missing; assumption.
  - apply Forall_cons in Hpre as [[x Hx] Hpre].
    change ((m :: pre) ++ n :: post) with (m :: (pre ++ n :: post)).
    rewrite (makePoint_loop_found _ _ _ _ x Hbal Hx).
    apply IH; [simpl; rewrite !length_app; simpl; lia | exact Hpre | exact Hn].
Qed.

(** ** [makePoint]: theorems *)

(** C7. When every joint of the list has an entry in the state,
    [makePoint] returns, without logging, a point whose positions,
    velocities and accelerations each have the length of the joint list;
    the positions are those of the state, in the order of the list, and
    every velocity and acceleration is zero. *)
Theorem makePoint_covered (state : JointState) (joints : list string) :
  (forall n, n ∈ joints -> exists x, joint_position state n = Some x) ->
  exists p,
    makePoint state joints = ([], Returns p) /\
    length (positions p) = length joints /\
    length (velocities p) = length joints /\
    length (accelerations p) = length joints /\
    Forall2 (fun n x => joint_position state n = Some x)
      joints (positions p) /\
    Forall (fun v => v = Double.zero) (velocities p) /\
    Forall (fun a => a = Double.zero) (accelerations p).
Proof.
  intros Hcov.
  assert (Hcov' : Forall (fun n => is_Some (joint_position state n)) joints).
  { apply Forall_forall. intros n Hn. destruct (Hcov n Hn) as [x Hx].
    rewrite Hx. eauto. }
  destruct (makePoint_loop_covered state joints empty_point eq_refl Hcov')
    as (xs & Hxs & Hrun).
  eexists. split; [exact Hrun|]. simpl.
  split; [symmetry; eapply Forall2_length; eauto|].
  split; [apply length_replicate|]. split; [apply length_replicate|].
  split; [exact Hxs|].
  split; apply Forall_forall; intros v Hv;
    apply elem_of_replicate in Hv as [-> _]; reflexivity.
Qed.

(** C6, as the code has it.  When a joint of the list is not named by the
    state, every joint before it having an entry, [makePoint] logs the
    missing joint and ends the process with [exit(-1)] at that joint.  It
    returns no point, so no shorter point and no skipped entry reaches the
    caller; and no error reaches the caller either: whatever the caller
    would do next is not run.  Any point that [makePoint] does return is
    complete. *)
Theorem makePoint_missing_joint_exits (state : JointState)
    (pre : list string) (n : string) (post : list string) :
  Forall (fun m => is_Some (joint_position state m)) pre ->
  n ∉ name state ->
  makePoint state (pre ++ n :: post) =
    ([LogError ("Bad move to state, missing " ++ n)], Exits (-1)) /\
  ~ returns_normally (makePoint state (pre ++ n :: post)) /\
  (forall (B : Type) (k : JointTrajectoryPoint -> M B),
      bind (makePoint state (pre ++ n :: post)) k =
        ([LogError ("Bad move to state, missing " ++ n)], Exits (-1)) /\
      ~ caller_goes_on (makePoint state (pre ++ n :: post)) k) /\
  (forall joints t p,
      makePoint state joints = (t, Returns p) ->
      length (positions p) = length joints /\
      Forall (fun m => is_Some (joint_position state m)) joints).
Proof.
  intros Hpre Hn.
  pose proof (makePoint_loop_first_missing state n post pre empty_point
                eq_refl Hpre Hn) as Hrun.
  unfold makePoint. rewrite Hrun. split; [reflexivity|].
  split; [|split].
  - intros [p Hp]. simpl in Hp. discriminate.
  - intros B k. split; [reflexivity|].
    intros (a & Ha & _). simpl in Ha. discriminate.
  - intros joints t p Hp.
    apply makePoint_loop_returns in Hp as [Hcov Hlen]; [|reflexivity].
    split; [exact Hlen | exact Hcov].
Qed.

(** ** Order of binary64 values *)

Lemma SFcompare_antisym (a b : double) :
  SFcompare b a = option_map CompOpp (SFcompare a b).
Proof.
  destruct a as [[]|[]| |[] ma ea], b as [[]|[]| |[] mb eb];
    simpl; try reflexivity;
  change (Pos.compare_cont Eq ?x ?y) with (Pos.compare x y);
  cmp_cases; simpl; try reflexivity; try lia.
Qed.

Lemma leb_not_ltb a b : Double.leb a b = true -> Double.ltb b a = false.
Proof.
  unfold Double.leb, Double.ltb, SFleb, SFltb.
  rewrite (SFcompare_antisym a b).
  destruct (SFcompare a b) as [[]|]; simpl; congruence.
Qed.

Lemma not_ltb_leb a b :
  Double.is_nan a = false -> Double.is_nan b = false ->
  Double.ltb a b = false -> Double.leb b a = true.
Proof.
  unfold Double.leb, Double.ltb, SFleb, SFltb.
  rewrite (SFcompare_antisym a b).
  destruct a as [[]|[]| |[] ma ea], b as [[]|[]| |[] mb eb];
    simpl; try congruence;
  change (Pos.compare_cont Eq ?x ?y) with (Pos.compare x y);
  intros _ _; cmp_cases; simpl; congruence.
Qed.

Lemma ltb_leb a b : Double.ltb a b = true -> Double.leb a b = true.
Proof.
  unfold Double.leb, Double.ltb, SFleb, SFltb.
  destruct (SFcompare a b) as [[]|]; congruence.
Qed.

Lemma leb_refl a : Double.is_nan a = false -> Double.leb a a = true.
Proof.
  unfold Double.leb, SFleb.
  destruct a as [[]|[]| |[] ma ea]; simpl; try congruence;
  change (Pos.compare_cont Eq ?x ?y) with (Pos.compare x y);
  intros _; rewrite Z.compare_refl, Pos.compare_refl; reflexivity.
Qed.

Lemma leb_trans a b c :
  Double.leb a b = true -> Double.leb b c = true -> Double.leb a c = true.
Proof.
  unfold Double.leb, SFleb.
  destruct a as [[]|[]| |[] ma ea], b as [[]|[]| |[] mb eb],
           c as [[]|[]| |[] mc ec];
    simpl; try congruence;
  change (Pos.compare_cont Eq ?x ?y) with (Pos.compare x y);
  cmp_cases; simpl; try congruence; try lia.
Qed.

Lemma max_cases a b : Double.max a b = a \/ Double.max a b = b.
Proof. unfold Double.max. destruct (Double.ltb a b); auto. Qed.

Lemma max_nan a b :
  Double.is_nan a = false -> Double.is_nan b = false ->
  Double.is_nan (Double.max a b) = false.
Proof.
  intros Ha Hb. destruct (max_cases a b) as [E | E]; rewrite E;
    [exact Ha | exact Hb].
Qed.

Lemma max_ge_l a b :
  Double.is_nan a = false -> Double.is_nan b = false ->
  Double.leb a (Double.max a b) = true.
Proof.
  intros Ha Hb. unfold Double.max. destruct (Double.ltb a b) eqn:E.
  - apply ltb_leb, E.
  - apply leb_refl, Ha.
Qed.

Lemma max_ge_r a b :
  Double.is_nan a = false -> Double.is_nan b = false ->
  Double.leb b (Double.max a b) = true.
Proof.
  intros Ha Hb. unfold Double.max. destruct (Double.ltb a b) eqn:E.
  - apply leb_refl, Hb.
  - apply not_ltb_leb; assumption.
Qed.

(** The left fold of [std::max] over values that are numbers is one of
    them and is at least each of them. *)
Lemma fold_max_is_maximum ts : forall d,
  Forall (fun x => Double.is_nan x = false) (d :: ts) ->
  fold_left Double.max ts d ∈ d :: ts /\
  Double.is_nan (fold_left Double.max ts d) = false /\
  Forall (fun x => Double.leb x (fold_left Double.max ts d) = true) (d :: ts).
Proof.
  induction ts as [|x ts IH]; intros d Hnn.
  - apply Forall_cons in Hnn as [Hd _]. simpl.
    split; [left|]. split; [exact Hd|].
    apply Forall_cons_2; [apply leb_refl, Hd | apply Forall_nil_2].
  - apply Forall_cons in Hnn as [Hd Hnn].
    apply Forall_cons in Hnn as [Hx Hts]. simpl.
    destruct (IH (Double.max d x)) as (Hin & Hnan & Hge).
    { apply Forall_cons_2; [apply max_nan; assumption | exact Hts]. }
    apply Forall_cons in Hge as [Hm Hge].
    split; [|split; [exact Hnan|]].
    + apply elem_of_cons in Hin as [Hin|Hin].
      * rewrite Hin. destruct (max_cases d x) as [-> | ->];
          [left | right; left].
      * right; right; exact Hin.
    + apply Forall_cons_2; [|apply Forall_cons_2; [|exact Hge]].
      * apply (leb_trans _ (Double.max d x));
          [apply max_ge_l; assumption | exact Hm].
      * apply (leb_trans _ (Double.max d x));
          [apply max_ge_r; assumption | exact Hm].
Qed.

(** ** The settle monitor: proofs *)

Lemma scan_chain_joints_false jn n : scan_chain_joints jn n false = false.
Proof.
  induction jn as [|x jn IH]; simpl; [reflexivity|].
  destruct (String.eqb x n); [reflexivity | exact IH].
Qed.

Lemma scan_chain_joints_true jn n :
  scan_chain_joints jn n true = false <-> n ∈ jn.
Proof.
  induction jn as [|x jn IH]; simpl.
  - split; [discriminate|]. intros H. apply not_elem_of_nil in H. contradiction.
  - rewrite elem_of_cons. destruct (String.eqb_spec x n) as [->|Hne].
    + split; auto.
    + rewrite IH. split; [auto|]. intros [?|?]; [congruence | assumption].
Qed.

Lemma scan_chains_false cs n : scan_chains cs n false = false.
Proof.
  induction cs as [|c cs IH]; simpl; [reflexivity|].
  rewrite scan_chain_joints_false. exact IH.
Qed.

Lemma scan_chains_true cs n :
  scan_chains cs n true = false <-> in_some_chain cs n.
Proof.
  unfold in_some_chain. induction cs as [|c cs IH]; simpl.
  - split; [discriminate|]. intros (c & Hc & _).
    apply not_elem_of_nil in Hc. contradiction.
  - destruct (scan_chain_joints (joint_names c) n true) eqn:E.
    + rewrite IH. split.
      * intros (c' & Hc' & Hn). exists c'. split; [right|]; assumption.
      * intros (c' & Hc' & Hn). apply elem_of_cons in Hc' as [->|Hc'].
        -- apply scan_chain_joints_true in Hn. congruence.
        -- exists c'. auto.
    + split; [|intros _; apply scan_chains_false].
      intros _. exists c. split; [left|].
      apply scan_chain_joints_true, E.
Qed.

(** The scan runs to the end when every joint it meets is below the
    threshold or outside every chain. *)
Lemma settle_scan_settled cs st names : forall j,
  (forall k n, names !! k = Some n ->
     exists v, velocity st !! (j + k)%nat = Some v /\
               (in_some_chain cs n -> below_threshold v)) ->
  settle_scan cs st names j = Returns (true, (j + length names)%nat).
Proof.
  induction names as [|n names IH]; intros j H; simpl.
  - rewrite Nat.add_0_r. reflexivity.
  - destruct (H 0%nat n eq_refl) as (v & Hv & Hslow).
    rewrite Nat.add_0_r in Hv. rewrite Hv.
    assert (Hrest : settle_scan cs st names (S j)
                    = Returns (true, (j + S (length names))%nat)).
    { rewrite IH; [f_equal; f_equal; lia|].
      intros k m Hk. destruct (H (S k) m Hk) as (w & Hw & Hs).
      exists w. split; [|exact Hs].
      replace (S j + k)%nat with (j + S k)%nat by lia. exact Hw. }
    destruct (Double.ltb (Double.fabs v) Double.d0_001) eqn:E;
      [exact Hrest|].
    destruct (scan_chains cs n true) eqn:Ec; [exact Hrest|].
    apply scan_chains_true in Ec. apply Hslow in Ec.
    unfold below_threshold in Ec. congruence.
Qed.

(** The scan stops at the first joint of a chain that is not below the
    threshold; what follows that joint is not read. *)
Lemma settle_scan_first_unsettled cs st n v post pre : forall j,
  (forall k m, pre !! k = Some m ->
     exists w, velocity st !! (j + k)%nat = Some w /\
               (in_some_chain cs m -> below_threshold w)) ->
  velocity st !! (j + length pre)%nat = Some v ->
  Double.ltb (Double.fabs v) Double.d0_001 = false ->
  in_some_chain cs n ->
  settle_scan cs st (pre ++ n :: post) j
  = Returns (false, (j + length pre)%nat).
Proof.
  induction pre as [|m pre IH]; intros j Hpre Hv Hfast Hin; simpl.
  - rewrite Nat.add_0_r in *. rewrite Hv, Hfast.
    apply scan_chains_true in Hin. rewrite Hin. reflexivity.
  - destruct (Hpre 0%nat m eq_refl) as (w & Hw & Hslow).
    rewrite Nat.add_0_r in Hw. rewrite Hw.
    assert (Hrest : settle_scan cs st (pre ++ n :: post) (S j)
                    = Returns (false, (j + S (length pre))%nat)).
    { rewrite IH; [f_equal; f_equal; lia | | | exact Hfast | exact Hin].
      - intros k x Hk. destruct (Hpre (S k) x Hk) as (y & Hy & Hs).
        exists y. split; [|exact Hs].
        replace (S j + k)%nat with (j + S k)%nat by lia. exact Hy.
      - replace (S j + length pre)%nat with (j + length (m :: pre))%nat
          by (simpl; lia). exact Hv. }
    destruct (Double.ltb (Double.fabs w) Double.d0_001) eqn:E;
      [exact Hrest|].
    destruct (scan_chains cs m true) eqn:Ec; [exact Hrest|].
    apply scan_chains_true in Ec. apply Hslow in Ec.
    unfold below_threshold in Ec. congruence.
Qed.

(** A joint of a chain that is not below the threshold, anywhere in an
    aligned snapshot, makes the scan answer unsettled. *)
Lemma settle_scan_unsettled cs st names : forall j,
  (forall k, (k < length names)%nat -> is_Some (velocity st !! (j + k)%nat)) ->
  (exists k n v, names !! k = Some n /\
     velocity st !! (j + k)%nat = Some v /\
     Double.ltb (Double.fabs v) Double.d0_001 = false /\
     in_some_chain cs n) ->
  exists j', settle_scan cs st names j = Returns (false, j').
Proof.
  induction names as [|n names IH]; intros j Hvel (k & m & v & Hk & Hv & Hfast & Hin).
  - discriminate.
  - simpl. destruct (Hvel 0%nat) as [w Hw]; [simpl; lia|].
    rewrite Nat.add_0_r in Hw. rewrite Hw.
    assert (Hrest : k <> 0%nat ->
              exists j', settle_scan cs st names (S j) = Returns (false, j')).
    { intros Hk0. destruct k as [|k]; [congruence|]. apply IH.
      - intros i Hi. replace (S j + i)%nat with (j + S i)%nat by lia.
        apply Hvel. simpl. lia.
      - exists k, m, v. split; [exact Hk|]. split; [|auto].
        replace (S j + k)%nat with (j + S k)%nat by lia. exact Hv. }
    destruct (Double.ltb (Double.fabs w) Double.d0_001) eqn:E.
    + apply Hrest. intros ->. rewrite Nat.add_0_r in Hv. congruence.
    + destruct (scan_chains cs n true) eqn:Ec; [|eauto].
      apply Hrest. intros ->. simpl in Hk. injection Hk as <-.
      apply scan_chains_true in Hin. congruence.
Qed.

(** What the test [fabs(v) < 0.001] is false of. *)
Lemma not_below_threshold v :
  at_or_above_threshold v \/ Double.is_nan v = true -> ~ below_threshold v.
Proof.
  unfold below_threshold, at_or_above_threshold. intros [H|H] Hb.
  - apply leb_not_ltb in H. congruence.
  - destruct v; try discriminate H. discriminate Hb.
Qed.

Section SettleMonitor.

Variable seconds : Duration -> double.

(** ** The settle monitor: theorems *)

(** C8. With no registered chain [waitToSettle] returns true at once: the
    trace is empty, so the store is not read, the validity flag is not
    reset, the node and its clock are not asked; the manager is returned as
    it was, whatever the settling timeout and the environment. *)
Theorem waitToSettle_no_chains (cm : ChainManager) (env : NodeEnv) :
  controllers_ cm = [] ->
  waitToSettle seconds cm env = ([], Returns (cm, true)).
Proof.
  intros Hcs. unfold waitToSettle. rewrite Hcs. reflexivity.
Qed.

(** C3. In a turn of the polling loop that finds the store valid:
    - if every joint of the snapshot that belongs to a chain is below the
      threshold, [waitToSettle] returns true in that turn, having only read
      the store: the clock and the timeout play no part;
    - a joint of a chain that is not below the threshold makes the turn
      unsettled, and the scan stops at the first such joint;
    - a velocity at or above the threshold is not below it, and neither is
      one that is not a number: [fabs(v) < 0.001] is false of both. *)
Theorem waitToSettle_settle_turn (cm : ChainManager) (start : Time)
    (script : list tick) :
  reachable cm ->
  state_is_valid_ cm = true ->
  ((forall j n v, velocity_entry (state_ cm) j n v ->
      in_some_chain (controllers_ cm) n -> below_threshold v) ->
   waitToSettle_loop seconds cm start script
   = ([GetState], Returns (cm, true))) /\
  (forall j n v,
     velocity_entry (state_ cm) j n v ->
     ~ below_threshold v ->
     in_some_chain (controllers_ cm) n ->
     settle_check cm = ([GetState], Returns false) /\
     waitToSettle_loop seconds cm start [] = ([GetState], Spinning) /\
     ((forall k m w, (k < j)%nat -> velocity_entry (state_ cm) k m w ->
         in_some_chain (controllers_ cm) m -> below_threshold w) ->
      settle_scan (controllers_ cm) (state_ cm) (name (state_ cm)) 0
      = Returns (false, j))) /\
  (forall v, at_or_above_threshold v \/ Double.is_nan v = true ->
     ~ below_threshold v).
Proof.
  intros Hr Hvalid. destruct (reachable_store_inv cm Hr) as [[Hnp Hpv] _].
  assert (Hvel : forall k, (k < length (name (state_ cm)))%nat ->
                   is_Some (velocity (state_ cm) !! k)).
  { intros k Hk. apply lookup_lt_is_Some_2. lia. }
  split.
  - intros Hslow.
    assert (Hscan : settle_scan (controllers_ cm) (state_ cm)
                      (name (state_ cm)) 0
                    = Returns (true, length (name (state_ cm)))).
    { apply (settle_scan_settled _ _ _ 0%nat). intros k n Hk.
      destruct (Hvel k) as [v Hv]; [eapply lookup_lt_Some; eauto|].
      exists v. split; [exact Hv|]. intros Hin.
      apply (Hslow k n v); [split; assumption | exact Hin]. }
    assert (Hcheck : settle_check cm = ([GetState], Returns true)).
    { unfold settle_check, getState. simpl. rewrite Hvalid, Hscan.
      reflexivity. }
    destruct script; simpl; rewrite Hcheck; reflexivity.
  - split; [|exact not_below_threshold].
    intros j n v [Hn Hv] Habove Hin.
    apply not_true_is_false in Habove.
    assert (Hcheck : settle_check cm = ([GetState], Returns false)).
    { destruct (settle_scan_unsettled (controllers_ cm) (state_ cm)
                  (name (state_ cm)) 0%nat) as [j' Hj'].
      - intros k Hk. apply Hvel. exact Hk.
      - exists j, n, v. auto.
      - unfold settle_check, getState. simpl. rewrite Hvalid, Hj'.
        reflexivity. }
    split; [exact Hcheck|]. split.
    + simpl. rewrite Hcheck. reflexivity.
    + intros Hfirst.
      pose proof (take_drop_middle _ _ _ Hn) as Hsplit.
      assert (Hlen : length (take j (name (state_ cm))) = j).
      { apply length_take_le. apply lookup_lt_Some in Hn. lia. }
      pose proof (settle_scan_first_unsettled (controllers_ cm) (state_ cm)
                    n v (drop (S j) (name (state_ cm)))
                    (take j (name (state_ cm))) 0%nat) as Hscan.
      rewrite Hsplit, Hlen in Hscan. simpl in Hscan.
      apply Hscan; [|exact Hv | exact Habove | exact Hin].
      intros k m Hk.
      assert (Hkj : (k < j)%nat).
      { apply lookup_lt_Some in Hk. lia. }
      rewrite lookup_take_lt in Hk by exact Hkj.
      destruct (Hvel k) as [w Hw]; [eapply lookup_lt_Some; eauto|].
      exists w. split; [exact Hw|]. intros Hm.
      apply (Hfirst k m w Hkj); [split; assumption | exact Hm].
Qed.

End SettleMonitor.

(** ** Chain lookups: theorem *)

(** C10. For a name that no registered chain bears, [getChainJointNames]
    gives the empty list and [getPlanningGroupName] the empty string; for a
    name some chain bears, they give the joint list and the planning group
    of the first chain of that name. *)
Theorem chain_lookup_by_name (cm : ChainManager) (chain : string) :
  ((forall c, c ∈ controllers_ cm -> chain_name c <> chain) ->
   getChainJointNames cm chain = [] /\
   getPlanningGroupName cm chain = "") /\
  (forall pre c post,
     controllers_ cm = pre ++ c :: post ->
     chain_name c = chain ->
     (forall c', c' ∈ pre -> chain_name c' <> chain) ->
     getChainJointNames cm chain = joint_names c /\
     getPlanningGroupName cm chain = chain_planning_group c).
Proof.
  unfold getChainJointNames, getPlanningGroupName.
  generalize (controllers_ cm) as cs. intros cs. split.
  - induction cs as [|c cs IH]; intros Hno; simpl; [auto|].
    destruct (String.eqb_spec (chain_name c) chain) as [E|_].
    + exfalso. apply (Hno c); [left | exact E].
    + apply IH. intros c' Hc'. apply Hno. right. exact Hc'.
  - intros pre c post -> Hc. induction pre as [|c0 pre IH]; intros Hpre; simpl.
    + rewrite <- Hc, String.eqb_refl. auto.
    + destruct (String.eqb_spec (chain_name c0) chain) as [E|_].
      * exfalso. apply (Hpre c0); [left | exact E].
      * apply IH. intros c' Hc'. apply Hpre. right. exact Hc'.
Qed.

(** ** The dispatcher: proofs *)

Lemma wait_events_app t t' :
  wait_events (t ++ t') = wait_events t ++ wait_events t'.
Proof. apply omap_app. Qed.

Lemma sent_chains_app t t' :
  sent_chains (t ++ t') = sent_chains t ++ sent_chains t'.
Proof. apply omap_app. Qed.

Lemma plan_results_app t t' :
  plan_results (t ++ t') = plan_results t ++ plan_results t'.
Proof. apply omap_app. Qed.

(** What a call of [makePoint] can come to. *)
Lemma makePoint_loop_shape state joints : forall p,
  length (velocities p) = length (positions p) ->
  (exists p', makePoint_loop state joints p = ([], Returns p') /\
     length (positions p') = (length (positions p) + length joints)%nat) \/
  (exists text, makePoint_loop state joints p
                = ([LogError text], Exits (-1))) \/
  makePoint_loop state joints p = ([], Undefined).
Proof.
  induction joints as [|jn rest IH]; intros p Hbal.
  - left. exists p. split; [reflexivity | simpl; lia].
  - destruct (find_joint jn (name state)) as [j|] eqn:Ej.
    + destruct (position state !! j) as [x|] eqn:Ex.
      * assert (Hx : joint_position state jn = Some x)
          by (unfold joint_position; rewrite Ej; exact Ex).
        rewrite (makePoint_loop_found _ _ _ _ x Hbal Hx).
        destruct (IH {| positions := positions p ++ [x];
                        velocities := velocities p ++ [Double.zero];
                        accelerations := accelerations p ++ [Double.zero];
                        time_from_start := time_from_start p |})
          as [(p' & Hrun & Hlen) | [Hexit | Hub]];
          [simpl; rewrite !length_app; simpl; lia | | |].
        -- left. exists p'. split; [exact Hrun|].
           simpl in Hlen. rewrite length_app in Hlen. simpl in *. lia.
        -- right; left. exact Hexit.
        -- right; right. exact Hub.
      * right; right. simpl. rewrite Ej, Ex. reflexivity.
    + right; left. eexists. apply makePoint_loop_missing; [exact Hbal|].
      apply find_joint_None, Ej.
Qed.

Lemma makePoint_shape state joints :
  (exists p, makePoint state joints = ([], Returns p) /\
     length (positions p) = length joints) \/
  (exists text, makePoint state joints = ([LogError text], Exits (-1))) \/
  makePoint state joints = ([], Undefined).
Proof. apply (makePoint_loop_shape state joints empty_point eq_refl). Qed.

Lemma makePoint_covered_returns state joints :
  Forall (fun n => is_Some (joint_position state n)) joints ->
  exists p, makePoint state joints = ([], Returns p) /\
            length (positions p) = length joints.
Proof.
  intros Hcov.
  destruct (makePoint_loop_covered state joints empty_point eq_refl Hcov)
    as (xs & Hxs & Hrun).
  eexists. split; [exact Hrun|]. simpl. symmetry.
  eapply Forall2_length; eauto.
Qed.

Section Dispatcher.

Variable from_seconds : double -> Duration.
Variable seconds : Duration -> double.
Variable move_group : nat -> MoveGroupGoal -> MoveGroupResult.

Local Abbreviation send := (moveToState_send from_seconds seconds move_group).
Local Abbreviation constraints := joint_constraints_loop.
Local Abbreviation plan_events := (plan_events from_seconds move_group).

Lemma joint_constraints_loop_returns jn : forall c p,
  (c + length jn <= length (positions p))%nat ->
  exists l, constraints jn c p = ([], Returns l).
Proof.
  induction jn as [|n jn IH]; intros c p Hlen; simpl.
  - eexists. reflexivity.
  - simpl in Hlen.
    destruct (lookup_lt_is_Some_2 (positions p) c ltac:(lia)) as [x Hx].
    rewrite Hx. destruct (IH (S c) p ltac:(lia)) as [l Hl].
    rewrite Hl. simpl. eexists. reflexivity.
Qed.

(** A chain whose point cannot be built ends the call. *)
Lemma send_cons_no_point cm state i c rest md t o :
  makePoint state (joint_names c) = (t, o) ->
  (forall p, o <> Returns p) ->
  exists o', send cm state i (c :: rest) md = (t, o') /\
    (forall r, o' <> Returns r) /\
    (forall s, o = Exits s -> o' = Exits s).
Proof.
  intros Hp Hno. cbn [moveToState_send]. rewrite Hp.
  destruct o as [p|s| |]; simpl.
  - exfalso. apply (Hno p). reflexivity.
  - eexists. split; [reflexivity|]. split; [discriminate | intros ? [= <-]; reflexivity].
  - eexists. split; [reflexivity|]. split; discriminate.
  - eexists. split; [reflexivity|]. split; discriminate.
Qed.

(** A directly actuated chain: its goal is sent and the loop goes on. *)
Lemma send_cons_direct cm state i c rest md p :
  makePoint state (joint_names c) = ([], Returns p) ->
  shouldPlan c = false ->
  send cm state i (c :: rest) md =
  (ClientSendGoal i (direct_goal from_seconds cm c p)
     :: fst (send cm state (S i) rest md),
   snd (send cm state (S i) rest md)).
Proof.
  intros Hp Hsp. cbn [moveToState_send]. rewrite Hp, Hsp. simpl.
  destruct (send cm state (S i) rest md) as [t o]. reflexivity.
Qed.

(** A planned chain whose plan fails: [return false], nothing sent. *)
Lemma send_cons_plan_failed cm state i c rest md p c1 :
  makePoint state (joint_names c) = ([], Returns p) ->
  shouldPlan c = true ->
  constraints (joint_names c) 0 p = ([], Returns c1) ->
  error_code_val (move_group i (moveit_goal_for cm c c1)) <> SUCCESS ->
  send cm state i (c :: rest) md =
  (plan_events i (moveit_goal_for cm c c1), Returns None).
Proof.
  intros Hp Hsp Hc1 Hfail. cbn [moveToState_send]. rewrite Hp, Hsp. simpl.
  rewrite Hc1. simpl.
  apply Z.eqb_neq in Hfail. rewrite Hfail. reflexivity.
Qed.

(** A planned chain whose plan succeeds without a waypoint. *)
Lemma send_cons_plan_empty cm state i c rest md p c1 :
  makePoint state (joint_names c) = ([], Returns p) ->
  shouldPlan c = true ->
  constraints (joint_names c) 0 p = ([], Returns c1) ->
  error_code_val (move_group i (moveit_goal_for cm c c1)) = SUCCESS ->
  last (points (planned_trajectory (move_group i (moveit_goal_for cm c c1))))
    = None ->
  send cm state i (c :: rest) md =
  (plan_events i (moveit_goal_for cm c c1), Undefined).
Proof.
  intros Hp Hsp Hc1 Hok Hlast. cbn [moveToState_send]. rewrite Hp, Hsp.
  simpl. rewrite Hc1. simpl.
  apply Z.eqb_eq in Hok. rewrite Hok, Hlast. reflexivity.
Qed.

(** A planned chain whose plan succeeds: the planned trajectory is sent and
    [max_duration] takes the time of its last waypoint into account. *)
Lemma send_cons_planned cm state i c rest md p c1 pt :
  makePoint state (joint_names c) = ([], Returns p) ->
  shouldPlan c = true ->
  constraints (joint_names c) 0 p = ([], Returns c1) ->
  error_code_val (move_group i (moveit_goal_for cm c c1)) = SUCCESS ->
  last (points (planned_trajectory (move_group i (moveit_goal_for cm c c1))))
    = Some pt ->
  let md' := Double.max md (seconds (time_from_start pt)) in
  send cm state i (c :: rest) md =
  (plan_events i (moveit_goal_for cm c c1)
     ++ ClientSendGoal i
          (planned_goal from_seconds (move_group i (moveit_goal_for cm c c1)))
     :: fst (send cm state (S i) rest md'),
   snd (send cm state (S i) rest md')).
Proof.
  intros Hp Hsp Hc1 Hok Hlast md'. cbn [moveToState_send]. rewrite Hp, Hsp.
  simpl. rewrite Hc1. simpl.
  apply Z.eqb_eq in Hok. rewrite Hok, Hlast. simpl. fold md'.
  destruct (send cm state (S i) rest md') as [t o]. reflexivity.
Qed.


(** The first loop, whatever the inputs: what it returns and what it has
    done by then. *)
Lemma send_spec cm state cs : forall i md,
  exists t o, send cm state i cs md = (t, o) /\
    wait_events t = [] /\
    match o with
    | Returns (Some md') =>
        md' = fold_left Double.max (planned_times seconds t) md /\
        sent_chains t = seq i (length cs) /\
        Forall (fun ir => plan_succeeded (snd ir)) (plan_results t) /\
        map fst (plan_results t) = planning_chains i cs /\
        length (planned_times seconds t) = length (plan_results t)
    | Returns None =>
        exists t0 k c r,
          t = t0 ++ [MoveGroupGetResult (i + k) r] /\
          cs !! k = Some c /\ shouldPlan c = true /\
          (exists g, r = move_group (i + k) g) /\
          ~ plan_succeeded r /\
          Forall (fun ir => plan_succeeded (snd ir)) (plan_results t0) /\
          sent_chains t = seq i k
    | Exits s =>
        s = (-1)%Z /\
        Forall (fun ir => plan_succeeded (snd ir)) (plan_results t)
    | Undefined =>
        Forall (fun ir => plan_succeeded (snd ir)) (plan_results t)
    | Spinning => False
    end.
Proof.
  induction cs as [|c rest IH]; intros i md.
  - exists [], (Returns (Some md)). split; [reflexivity|].
    split; [reflexivity|]. simpl.
    repeat split; try reflexivity. apply Forall_nil_2.
  - destruct (makePoint_shape state (joint_names c))
      as [(p & Hp & Hlen) | [(text & Hp) | Hp]].
    + destruct (shouldPlan c) eqn:Hsp.
      * destruct (joint_constraints_loop_returns (joint_names c) 0 p)
          as [c1 Hc1]; [simpl; lia|].
        set (g := moveit_goal_for cm c c1).
        destruct (decide (error_code_val (move_group i g) = SUCCESS))
          as [Hok|Hfail].
        -- destruct (last (points (planned_trajectory (move_group i g))))
             as [pt|] eqn:Hlast.
           ++ pose proof (send_cons_planned cm state i c rest md p c1 pt
                            Hp Hsp Hc1 Hok Hlast) as Hrun.
              simpl in Hrun. fold g in Hrun.
              destruct (IH (S i) (Double.max md (seconds (time_from_start pt))))
                as (t & o & Hrest & Hw & Ho).
              rewrite Hrest in Hrun. simpl in Hrun.
              eexists _, o. split; [exact Hrun|].
              split; [simpl; exact Hw|].
              destruct o as [[md'|]|s| |]; simpl.
              ** destruct Ho as (Hmd & Hsent & Hres & Hidx & Hlen').
                 unfold planned_times in *. simpl. rewrite Hlast. simpl.
                 rewrite Hsp.
                 repeat split.
                 --- exact Hmd.
                 --- f_equal. exact Hsent.
                 --- apply Forall_cons_2; [exact Hok | exact Hres].
                 --- f_equal. exact Hidx.
                 --- f_equal. exact Hlen'.
              ** destruct Ho as (t0 & k & c' & r & Ht & Hc' & Hsp' & Hg & Hr & Hres & Hsent).
                 exists (plan_events i g
                           ++ ClientSendGoal i
                                (planned_goal from_seconds (move_group i g))
                           :: t0), (S k), c', r.
                 split; [rewrite Ht; simpl;
                         replace (i + S k)%nat with (S i + k)%nat by lia;
                         reflexivity|].
                 split; [exact Hc'|]. split; [exact Hsp'|].
                 split; [replace (i + S k)%nat with (S i + k)%nat by lia;
                         exact Hg|].
                 split; [exact Hr|]. split.
                 --- simpl. apply Forall_cons_2; [exact Hok | exact Hres].
                 --- simpl. f_equal. exact Hsent.
              ** destruct Ho as [Hs Hres]. split; [exact Hs|].
                 apply Forall_cons_2; [exact Hok | exact Hres].
              ** apply Forall_cons_2; [exact Hok | exact Ho].
              ** exact Ho.
           ++ pose proof (send_cons_plan_empty cm state i c rest md p c1
                            Hp Hsp Hc1 Hok Hlast) as Hrun.
              fold g in Hrun.
              eexists _, _. split; [exact Hrun|]. split; [reflexivity|].
              simpl. apply Forall_cons_2; [exact Hok | apply Forall_nil_2].
        -- pose proof (send_cons_plan_failed cm state i c rest md p c1
                         Hp Hsp Hc1 Hfail) as Hrun.
           fold g in Hrun.
           eexists _, _. split; [exact Hrun|]. split; [reflexivity|].
           exists [MoveGroupSendGoal i g;
                   MoveGroupWaitForResult i (from_seconds Double.d60_0)],
                  0%nat, c, (move_group i g).
           rewrite Nat.add_0_r.
           split; [reflexivity|]. split; [reflexivity|].
           split; [exact Hsp|]. split; [exists g; reflexivity|].
           split; [exact Hfail|].
           split; [apply Forall_nil_2 | reflexivity].
      * pose proof (send_cons_direct cm state i c rest md p Hp Hsp) as Hrun.
        destruct (IH (S i) md) as (t & o & Hrest & Hw & Ho).
        rewrite Hrest in Hrun. simpl in Hrun.
        eexists _, o. split; [exact Hrun|]. split; [simpl; exact Hw|].
        destruct o as [[md'|]|s| |]; simpl.
        -- destruct Ho as (Hmd & Hsent & Hres & Hidx & Hlen').
           rewrite Hsp. repeat split; try assumption.
           f_equal. exact Hsent.
        -- destruct Ho as (t0 & k & c' & r & Ht & Hc' & Hsp' & Hg & Hr & Hres & Hsent).
           exists (ClientSendGoal i (direct_goal from_seconds cm c p) :: t0),
                  (S k), c', r.
           split; [rewrite Ht; simpl;
                   replace (i + S k)%nat with (S i + k)%nat by lia;
                   reflexivity|].
           split; [exact Hc'|]. split; [exact Hsp'|].
           split; [replace (i + S k)%nat with (S i + k)%nat by lia;
                   exact Hg|].
           split; [exact Hr|]. split; [exact Hres|].
           simpl. f_equal. exact Hsent.
        -- exact Ho.
        -- exact Ho.
        -- exact Ho.
    + destruct (send_cons_no_point cm state i c rest md _ _ Hp)
        as (o' & Hrun & Hno & Hex); [discriminate|].
      rewrite (Hex _ eq_refl) in Hrun.
      eexists _, _. split; [exact Hrun|]. split; [reflexivity|].
      split; [reflexivity | apply Forall_nil_2].
    + destruct (send_cons_no_point cm state i c rest md _ _ Hp)
        as (o' & Hrun & Hno & Hex); [discriminate|].
      assert (o' = Undefined) as ->.
      { cbn [moveToState_send] in Hrun. rewrite Hp in Hrun.
        simpl in Hrun. congruence. }
      eexists _, _. split; [exact Hrun|]. split; [reflexivity|].
      apply Forall_nil_2.
Qed.


(** With every joint covered and no empty plan, the first loop returns. *)
Lemma send_returns cm state cs : forall i md,
  covers state cs -> plans_have_waypoints move_group ->
  exists t r, send cm state i cs md = (t, Returns r).
Proof.
  induction cs as [|c rest IH]; intros i md Hcov Hplans.
  - eexists _, _. reflexivity.
  - apply Forall_cons in Hcov as [Hc Hcov].
    destruct (makePoint_covered_returns state (joint_names c) Hc)
      as (p & Hp & Hlen).
    destruct (shouldPlan c) eqn:Hsp.
    + destruct (joint_constraints_loop_returns (joint_names c) 0 p)
        as [c1 Hc1]; [simpl; lia|].
      set (g := moveit_goal_for cm c c1).
      destruct (decide (error_code_val (move_group i g) = SUCCESS))
        as [Hok|Hfail].
      * destruct (last (points (planned_trajectory (move_group i g))))
          as [pt|] eqn:Hlast.
        -- pose proof (send_cons_planned cm state i c rest md p c1 pt
                         Hp Hsp Hc1 Hok Hlast) as Hrun.
           simpl in Hrun. fold g in Hrun.
           destruct (IH (S i) (Double.max md (seconds (time_from_start pt)))
                       Hcov Hplans) as (t & r & Hrest).
           rewrite Hrest in Hrun. simpl in Hrun.
           eexists _, _. exact Hrun.
        -- exfalso. apply last_None in Hlast.
           apply (Hplans i g Hok Hlast).
      * eexists _, _.
        apply (send_cons_plan_failed cm state i c rest md p c1
                 Hp Hsp Hc1 Hfail).
    + pose proof (send_cons_direct cm state i c rest md p Hp Hsp) as Hrun.
      destruct (IH (S i) md Hcov Hplans) as (t & r & Hrest).
      rewrite Hrest in Hrun. simpl in Hrun.
      eexists _, _. exact Hrun.
Qed.

Lemma wait_loop_trace cr cs : forall i md,
  moveToState_wait from_seconds cr i cs md =
  (map (fun k => ClientWaitForResult k
                   (from_seconds (Double.mul md Double.d1_5)))
       (seq i (length cs)),
   Returns tt).
Proof.
  induction cs as [|c rest IH]; intros i md; simpl; [reflexivity|].
  rewrite IH. reflexivity.
Qed.

Lemma wait_trace_observed n md :
  wait_events (wait_trace from_seconds n md)
  = map (fun k => (k, from_seconds (Double.mul md Double.d1_5))) (seq 0 n) /\
  sent_chains (wait_trace from_seconds n md) = [] /\
  plan_results (wait_trace from_seconds n md) = [].
Proof.
  unfold wait_trace. generalize (seq 0 n) as ks.
  induction ks as [|k ks (IH1 & IH2 & IH3)]; simpl; [auto|].
  rewrite IH1. auto.
Qed.

(** [moveToState] in terms of its first loop. *)
Lemma moveToState_unfold cr cm state t o :
  send cm state 0 (controllers_ cm) (duration_ cm) = (t, o) ->
  moveToState from_seconds seconds move_group cr cm state =
  match o with
  | Returns (Some md) =>
      (t ++ wait_trace from_seconds (length (controllers_ cm)) md,
       Returns true)
  | Returns None => (t, Returns false)
  | Exits s => (t, Exits s)
  | Undefined => (t, Undefined)
  | Spinning => (t, Spinning)
  end.
Proof.
  intros Hsend. unfold moveToState. rewrite Hsend.
  destruct o as [[md|]|s| |]; simpl; try reflexivity.
  - rewrite wait_loop_trace. simpl. rewrite app_nil_r. reflexivity.
  - rewrite app_nil_r. reflexivity.
Qed.


(** ** The dispatcher: theorems *)


(** C2.  In every run of [moveToState], each wait on a chain's result is
    bounded by the aggregate duration times 1.5, the aggregate duration
    being the fold of [std::max] over the configured duration and the time
    of the last waypoint of each trajectory the planner returned.  When the
    call returns true there is one such wait per chain, in order, and one
    planned time per chain that requires planning; otherwise nothing is
    awaited.  When none of these durations is a NaN the aggregate duration
    is one of them and is at least each of them.  The call does return true
    when every joint is covered and every plan succeeds with a waypoint. *)
Theorem moveToState_wait_bound (cr : nat -> Duration -> bool)
    (cm : ChainManager) (state : JointState) :
  let run := moveToState from_seconds seconds move_group cr cm state in
  let times := planned_times seconds (fst run) in
  let dmax := aggregate_duration seconds cm (fst run) in
  Forall (fun w => snd w = from_seconds (Double.mul dmax Double.d1_5))
    (wait_events (fst run)) /\
  (snd run = Returns true ->
     map fst (wait_events (fst run)) = seq 0 (length (controllers_ cm)) /\
     map fst (plan_results (fst run)) = planning_chains 0 (controllers_ cm) /\
     length times = length (planning_chains 0 (controllers_ cm))) /\
  (snd run <> Returns true -> wait_events (fst run) = []) /\
  (Forall (fun x => Double.is_nan x = false) (duration_ cm :: times) ->
     dmax ∈ duration_ cm :: times /\
     Forall (fun x => Double.leb x dmax = true) (duration_ cm :: times)) /\
  (covers state (controllers_ cm) ->
   plans_have_waypoints move_group ->
   (forall i g, plan_succeeded (move_group i g)) ->
   snd run = Returns true).
Proof.
  intros run times dmax.
  destruct (send_spec cm state (controllers_ cm) 0 (duration_ cm))
    as (t & o & Hsend & Hw & Ho).
  pose proof (moveToState_unfold cr cm state t o Hsend) as Hrun.
  fold run in Hrun.
  assert (Hmax :
    Forall (fun x => Double.is_nan x = false) (duration_ cm :: times) ->
    dmax ∈ duration_ cm :: times /\
    Forall (fun x => Double.leb x dmax = true) (duration_ cm :: times)).
  { intros Hnn. destruct (fold_max_is_maximum times (duration_ cm) Hnn)
      as (Hin & _ & Hge). split; [exact Hin | exact Hge]. }
  assert (Hlast : covers state (controllers_ cm) ->
            plans_have_waypoints move_group ->
            (forall i g, plan_succeeded (move_group i g)) ->
            snd run = Returns true).
  { intros Hcov Hplans Hall.
    destruct (send_returns cm state (controllers_ cm) 0 (duration_ cm)
                Hcov Hplans) as (t1 & r1 & Hsend1).
    rewrite Hsend in Hsend1. injection Hsend1 as _ ->.
    destruct r1 as [md|]; [rewrite Hrun; reflexivity|].
    destruct Ho as (t0 & k & c & r & _ & _ & _ & [g ->] & Hr & _).
    exfalso. apply Hr, Hall. }
  assert (Hquiet : (forall md, o <> Returns (Some md)) ->
            fst run = t /\ snd run <> Returns true).
  { intros Hno. rewrite Hrun.
    destruct o as [[md|]|s| |]; simpl; split;
      try reflexivity; try discriminate.
    - exfalso. apply (Hno md). reflexivity.
    - exfalso. apply (Hno md). reflexivity. }
  destruct o as [[md|]|s| |].
  - destruct Ho as (Hmd & Hsent & Hres & Hidx & Hlen).
    destruct (wait_trace_observed (length (controllers_ cm)) md)
      as (Hww & Hws & Hwp).
    assert (Htimes : times = planned_times seconds t).
    { unfold times, planned_times. rewrite Hrun. simpl.
      rewrite plan_results_app, Hwp, app_nil_r. reflexivity. }
    assert (Hdmax : dmax = md).
    { unfold dmax, aggregate_duration. fold times. rewrite Htimes.
      symmetry. exact Hmd. }
    assert (Hwaits : wait_events (fst run)
              = map (fun k => (k, from_seconds (Double.mul md Double.d1_5)))
                    (seq 0 (length (controllers_ cm)))).
    { rewrite Hrun. simpl. rewrite wait_events_app, Hw, Hww. reflexivity. }
    split; [|split; [|split; [|split]]].
    + rewrite Hwaits, Hdmax. apply Forall_forall. intros w Hin.
      apply list_elem_of_fmap in Hin as (k & -> & _). reflexivity.
    + intros _. rewrite Hwaits. split; [|split].
      * rewrite map_map. simpl. apply map_id.
      * rewrite Hrun. simpl. rewrite plan_results_app, Hwp, app_nil_r.
        exact Hidx.
      * rewrite Htimes, Hlen, <- Hidx. symmetry. apply length_map.
    + intros Hne. exfalso. apply Hne. rewrite Hrun. reflexivity.
    + exact Hmax.
    + exact Hlast.
  - destruct Hquiet as [Ht Hne]; [discriminate|].
    rewrite Ht, Hw. split; [apply Forall_nil_2|].
    split; [intros; contradiction|]. auto.
  - destruct Hquiet as [Ht Hne]; [discriminate|].
    rewrite Ht, Hw. split; [apply Forall_nil_2|].
    split; [intros; contradiction|]. auto.
  - destruct Hquiet as [Ht Hne]; [discriminate|].
    rewrite Ht, Hw. split; [apply Forall_nil_2|].
    split; [intros; contradiction|]. auto.
  - destruct Hquiet as [Ht Hne]; [discriminate|].
    rewrite Ht, Hw. split; [apply Forall_nil_2|].
    split; [intros; contradiction|]. auto.
Qed.

End Dispatcher.

(** ** The theorems at work on the sample data *)

Lemma stateCallback_malformed_rejected_witness :
  ~ (length (name msg_malformed) = length (position msg_malformed) /\
     length (position msg_malformed) = length (velocity msg_malformed)) /\
  exists text,
    stateCallback manager_at_rest msg_malformed
    = ([LogError text], Returns manager_at_rest).
Proof.
  assert (Hbad : ~ (length (name msg_malformed)
                      = length (position msg_malformed) /\
                    length (position msg_malformed)
                      = length (velocity msg_malformed))).
  { simpl. lia. }
  split; [exact Hbad|].
  destruct (stateCallback_malformed_rejected manager_at_rest msg_malformed
              Hbad) as (text & cm' & Hrun & -> & _).
  exists text. exact Hrun.
Defined.

Lemma reachable_manager_at_rest : reachable manager_at_rest.
Proof.
  apply (reach_callback sample_manager msg_at_rest []).
  - apply reach_new.
  - vm_compute. reflexivity.
Qed.

Lemma reachable_manager_moving : reachable manager_moving.
Proof.
  apply (reach_callback sample_manager msg_elbow_moving []).
  - apply reach_new.
  - vm_compute. reflexivity.
Qed.

Lemma store_invariant_preserved_witness :
  reachable manager_at_rest /\
  store_inv (state_ manager_at_rest) /\
  exists t cm',
    stateCallback manager_at_rest msg_elbow_moving = (t, Returns cm') /\
    store_inv (state_ cm').
Proof.
  split; [exact reachable_manager_at_rest|].
  destruct (store_invariant_preserved manager_at_rest
              reachable_manager_at_rest) as (Hinv & _ & _ & Hstep & _).
  split; [exact Hinv|].
  destruct (Hstep msg_elbow_moving) as (t & cm' & Hrun & _ & Hinv' & _).
  exists t, cm'. split; [exact Hrun | exact Hinv'].
Defined.

Lemma stateCallback_latest_values_witness :
  reachable manager_at_rest /\
  length (name msg_elbow_moving) = length (position msg_elbow_moving) /\
  length (position msg_elbow_moving) = length (velocity msg_elbow_moving) /\
  exists cm',
    stateCallback manager_at_rest msg_elbow_moving = ([], Returns cm') /\
    lookup_joint (fst (getState cm')) "elbow"
      = Some (Double.d1_5, Double.d0_001) /\
    lookup_joint (fst (getState cm')) "wheel"
      = Some (Double.zero, Double.d1_0) /\
    stateCallback cm' msg_elbow_moving = ([], Returns cm').
Proof.
  split; [exact reachable_manager_at_rest|].
  split; [reflexivity|]. split; [reflexivity|].
  destruct (stateCallback_latest_values manager_at_rest msg_elbow_moving
              reachable_manager_at_rest eq_refl eq_refl)
    as (cm' & Hrun & _ & Hlatest & _ & _ & _ & Hagain).
  exists cm'. split; [exact Hrun|]. split; [|split; [|exact Hagain]].
  - apply (Hlatest 2%nat); try reflexivity.
    intros [|[|[|[|i']]]] Hi; try lia; simpl; discriminate.
  - apply (Hlatest 0%nat); try reflexivity.
    intros [|[|[|[|i']]]] Hi; try lia; simpl; discriminate.
Defined.

Lemma makePoint_covered_witness :
  (forall n, n ∈ ["elbow"; "pan"] ->
             exists x, joint_position sample_target n = Some x) /\
  exists p,
    makePoint sample_target ["elbow"; "pan"] = ([], Returns p) /\
    positions p = [Double.d1_5; Double.d0_01] /\
    velocities p = [Double.zero; Double.zero] /\
    accelerations p = [Double.zero; Double.zero].
Proof.
  assert (Hcov : forall n, n ∈ ["elbow"; "pan"] ->
                   exists x, joint_position sample_target n = Some x).
  { intros n Hn. apply elem_of_cons in Hn as [->|Hn];
      [eexists; reflexivity|].
    apply elem_of_cons in Hn as [->|Hn]; [eexists; reflexivity|].
    apply not_elem_of_nil in Hn. contradiction. }
  split; [exact Hcov|].
  destruct (makePoint_covered sample_target ["elbow"; "pan"] Hcov)
    as (p & Hrun & _).
  exists p. split; [exact Hrun|].
  vm_compute in Hrun. injection Hrun as <-. vm_compute. auto.
Defined.

(** C6, counterexample.  The elbow is missing from the target.  The
    failure is not surfaced to the caller: [makePoint] ends the process, so
    the continuation of a caller is not run, whatever it is, and
    [moveToState], which calls [makePoint], sends nothing and never
    returns. *)
Lemma makePoint_missing_not_surfaced :
  ("elbow" ∉ name target_without_elbow) /\
  makePoint target_without_elbow ["shoulder"; "elbow"]
  = ([LogError "Bad move to state, missing elbow"], Exits (-1)) /\
  (forall k : JointTrajectoryPoint -> M bool,
     ~ caller_goes_on
         (makePoint target_without_elbow ["shoulder"; "elbow"]) k) /\
  moveToState rcl_from_seconds rcl_seconds planner_ok channel_ok
    sample_manager target_without_elbow
  = ([LogError "Bad move to state, missing elbow"], Exits (-1)) /\
  ~ returns_normally
      (moveToState rcl_from_seconds rcl_seconds planner_ok channel_ok
         sample_manager target_without_elbow).
Proof.
  split; [|split; [|split; [|split]]].
  - apply find_joint_None. reflexivity.
  - vm_compute. reflexivity.
  - intros k (a & Ha & _). vm_compute in Ha. discriminate.
  - vm_compute. reflexivity.
  - intros [b Hb]. vm_compute in Hb. discriminate.
Qed.

Lemma makePoint_missing_joint_exits_witness :
  Forall (fun m => is_Some (joint_position target_without_elbow m))
    ["shoulder"] /\
  ("elbow" ∉ name target_without_elbow) /\
  makePoint target_without_elbow (["shoulder"] ++ "elbow" :: ["pan"])
  = ([LogError "Bad move to state, missing elbow"], Exits (-1)).
Proof.
  assert (Hpre : Forall (fun m => is_Some (joint_position
                                             target_without_elbow m))
                   ["shoulder"]).
  { apply Forall_cons_2; [eexists; reflexivity | apply Forall_nil_2]. }
  assert (Hn : "elbow" ∉ name target_without_elbow).
  { apply find_joint_None. reflexivity. }
  split; [exact Hpre|]. split; [exact Hn|].
  destruct (makePoint_missing_joint_exits target_without_elbow
              ["shoulder"] "elbow" ["pan"] Hpre Hn) as (Hrun & _).
  exact Hrun.
Defined.

Lemma waitToSettle_no_chains_witness :
  controllers_ idle_manager = [] /\
  waitToSettle rcl_seconds idle_manager
    {| node_alive := false; clock_start := 0%Z; ticks := [] |}
  = ([], Returns (idle_manager, true)).
Proof.
  split; [reflexivity|].
  apply (waitToSettle_no_chains rcl_seconds idle_manager). reflexivity.
Defined.

Lemma reachable_manager_nan : reachable manager_nan.
Proof.
  apply (reach_callback sample_manager msg_shoulder_nan []).
  - apply reach_new.
  - vm_compute. reflexivity.
Qed.

Lemma in_chain_arm_shoulder :
  in_some_chain (controllers_ manager_nan) "shoulder".
Proof.
  exists chain_arm. split; left.
Qed.

Lemma in_chain_arm_elbow : in_some_chain (controllers_ manager_moving) "elbow".
Proof.
  exists chain_arm. split; [left | right; left].
Qed.

Lemma waitToSettle_settle_turn_witness :
  (reachable manager_at_rest /\ state_is_valid_ manager_at_rest = true /\
   waitToSettle_loop rcl_seconds manager_at_rest 0%Z []
   = ([GetState], Returns (manager_at_rest, true))) /\
  (reachable manager_moving /\ state_is_valid_ manager_moving = true /\
   velocity_entry (state_ manager_moving) 2 "elbow" Double.d0_001 /\
   at_or_above_threshold Double.d0_001 /\
   settle_check manager_moving = ([GetState], Returns false) /\
   settle_scan (controllers_ manager_moving) (state_ manager_moving)
     (name (state_ manager_moving)) 0 = Returns (false, 2%nat)) /\
  (reachable manager_nan /\ state_is_valid_ manager_nan = true /\
   velocity_entry (state_ manager_nan) 0 "shoulder" S754_nan /\
   ~ below_threshold S754_nan /\
   settle_scan (controllers_ manager_nan) (state_ manager_nan)
     (name (state_ manager_nan)) 0 = Returns (false, 0%nat)).
Proof.
  split; [|split].
  - split; [exact reachable_manager_at_rest|]. split; [reflexivity|].
    destruct (waitToSettle_settle_turn rcl_seconds manager_at_rest 0%Z []
                reachable_manager_at_rest eq_refl) as [Hsettled _].
    apply Hsettled. intros j n v [Hn Hv] _.
    destruct j as [|[|[|j]]]; simpl in Hv; try discriminate;
      injection Hv as <-; reflexivity.
  - assert (Hentry : velocity_entry (state_ manager_moving) 2 "elbow"
                       Double.d0_001) by (split; reflexivity).
    assert (Habove : at_or_above_threshold Double.d0_001) by reflexivity.
    split; [exact reachable_manager_moving|]. split; [reflexivity|].
    split; [exact Hentry|]. split; [exact Habove|].
    destruct (waitToSettle_settle_turn rcl_seconds manager_moving 0%Z []
                reachable_manager_moving eq_refl) as (_ & Hmoving & Hnot).
    destruct (Hmoving 2%nat "elbow" Double.d0_001 Hentry
                (Hnot Double.d0_001 (or_introl Habove))
                in_chain_arm_elbow) as (Hcheck & _ & Hscan).
    split; [exact Hcheck|]. apply Hscan.
    intros k m w Hk [Hm Hw] Hin.
    destruct k as [|[|k]]; [| |lia]; simpl in Hm, Hw.
    + exfalso. injection Hm as <-.
      destruct Hin as (c & Hc & Hj).
      repeat (apply elem_of_cons in Hc as [->|Hc];
              [repeat (apply elem_of_cons in Hj as [Hj|Hj];
                       [discriminate|]);
               apply not_elem_of_nil in Hj; contradiction|]).
      apply not_elem_of_nil in Hc. contradiction.
    + injection Hw as <-. reflexivity.
  - assert (Hentry : velocity_entry (state_ manager_nan) 0 "shoulder"
                       S754_nan) by (split; reflexivity).
    destruct (waitToSettle_settle_turn rcl_seconds manager_nan 0%Z []
                reachable_manager_nan eq_refl) as (_ & Hmoving & Hnot).
    assert (Hnan : ~ below_threshold S754_nan).
    { apply Hnot. right. reflexivity. }
    split; [exact reachable_manager_nan|]. split; [reflexivity|].
    split; [exact Hentry|]. split; [exact Hnan|].
    destruct (Hmoving 0%nat "shoulder" S754_nan Hentry Hnan
                in_chain_arm_shoulder) as (_ & _ & Hscan).
    apply Hscan. intros k m w Hk. lia.
Defined.

(** C3, counterexample.  The velocity of the shoulder is not a number and
    the elbow moves at 1.0.  The elbow, entry 1, is the first joint of a
    chain whose velocity is at or above the threshold (the shoulder's is
    neither below nor at or above it), and yet the scan does not stop at
    entry 1: it stops at entry 0, at the shoulder. *)
Lemma waitToSettle_scan_stops_before_first_above :
  reachable manager_nan /\ state_is_valid_ manager_nan = true /\
  velocity_entry (state_ manager_nan) 1 "elbow" Double.d1_0 /\
  at_or_above_threshold Double.d1_0 /\
  in_some_chain (controllers_ manager_nan) "elbow" /\
  (forall k m w, (k < 1)%nat ->
     velocity_entry (state_ manager_nan) k m w ->
     in_some_chain (controllers_ manager_nan) m ->
     ~ at_or_above_threshold w) /\
  settle_scan (controllers_ manager_nan) (state_ manager_nan)
    (name (state_ manager_nan)) 0 = Returns (false, 0%nat) /\
  ~ (forall cm j n v,
       reachable cm -> state_is_valid_ cm = true ->
       velocity_entry (state_ cm) j n v ->
       at_or_above_threshold v ->
       in_some_chain (controllers_ cm) n ->
       (forall k m w, (k < j)%nat -> velocity_entry (state_ cm) k m w ->
          in_some_chain (controllers_ cm) m -> ~ at_or_above_threshold w) ->
       settle_scan (controllers_ cm) (state_ cm) (name (state_ cm)) 0
       = Returns (false, j)).
Proof.
  assert (Hentry : velocity_entry (state_ manager_nan) 1 "elbow" Double.d1_0)
    by (split; reflexivity).
  assert (Habove : at_or_above_threshold Double.d1_0) by reflexivity.
  assert (Hin : in_some_chain (controllers_ manager_nan) "elbow").
  { exists chain_arm. split; [left | right; left]. }
  assert (Hfirst : forall k m w, (k < 1)%nat ->
            velocity_entry (state_ manager_nan) k m w ->
            in_some_chain (controllers_ manager_nan) m ->
            ~ at_or_above_threshold w).
  { intros k m w Hk [_ Hw] _ Hab. destruct k as [|k]; [|lia].
    simpl in Hw. injection Hw as <-. discriminate Hab. }
  assert (Hscan : settle_scan (controllers_ manager_nan) (state_ manager_nan)
                    (name (state_ manager_nan)) 0 = Returns (false, 0%nat))
    by (vm_compute; reflexivity).
  split; [exact reachable_manager_nan|]. split; [reflexivity|].
  split; [exact Hentry|]. split; [exact Habove|]. split; [exact Hin|].
  split; [exact Hfirst|]. split; [exact Hscan|].
  intros Hall.
  specialize (Hall manager_nan 1%nat "elbow" Double.d1_0
                reachable_manager_nan eq_refl Hentry Habove Hin Hfirst).
  rewrite Hscan in Hall. discriminate Hall.
Qed.

Lemma chain_lookup_by_name_witness :
  (getChainJointNames sample_manager "torso" = [] /\
   getPlanningGroupName sample_manager "torso" = "") /\
  (getChainJointNames sample_manager "head" = ["pan"] /\
   getPlanningGroupName sample_manager "head" = "head_group").
Proof.
  split.
  - destruct (chain_lookup_by_name sample_manager "torso") as [Hnone _].
    apply Hnone. intros c Hc.
    repeat (apply elem_of_cons in Hc as [->|Hc]; [discriminate|]).
    apply not_elem_of_nil in Hc. contradiction.
  - destruct (chain_lookup_by_name sample_manager "head") as [_ Hfirst].
    apply (Hfirst [chain_arm] chain_head []); [reflexivity | reflexivity|].
    intros c Hc.
    repeat (apply elem_of_cons in Hc as [->|Hc]; [discriminate|]).
    apply not_elem_of_nil in Hc. contradiction.
Defined.

Lemma sample_target_covers : covers sample_target (controllers_ sample_manager).
Proof.
  repeat (apply Forall_cons_2 || apply Forall_nil_2);
    eexists; reflexivity.
Qed.

Lemma planner_ok_has_waypoints : plans_have_waypoints planner_ok.
Proof. intros i g _. discriminate. Qed.




(** The scenario of the specification: the arm driven directly with a
    configured duration of 5.0 s, the head planned with a last waypoint at
    8.2 s. *)
Lemma moveToState_wait_bound_witness :
  let run := moveToState rcl_from_seconds rcl_seconds planner_ok channel_ok
               sample_manager sample_target in
  snd run = Returns true /\
  planned_times rcl_seconds (fst run) = [Double.lit 82 10] /\
  aggregate_duration rcl_seconds sample_manager (fst run)
    = Double.max Double.d5_0 (Double.lit 82 10) /\
  aggregate_duration rcl_seconds sample_manager (fst run) = Double.lit 82 10 /\
  wait_events (fst run)
    = [(0%nat, rcl_from_seconds (Double.mul (Double.lit 82 10) Double.d1_5));
       (1%nat, rcl_from_seconds (Double.mul (Double.lit 82 10) Double.d1_5))].
Proof.
  intros run.
  destruct (moveToState_wait_bound rcl_from_seconds rcl_seconds planner_ok
              channel_ok sample_manager sample_target)
    as (Hbound & Hall & _ & _ & Hreturns).
  fold run in Hbound, Hall, Hreturns.
  assert (Htrue : snd run = Returns true).
  { apply Hreturns.
    - exact sample_target_covers.
    - exact planner_ok_has_waypoints.
    - intros i g. reflexivity. }
  split; [exact Htrue|].
  assert (Htimes : planned_times rcl_seconds (fst run) = [Double.lit 82 10])
    by (vm_compute; reflexivity).
  assert (Hagg : aggregate_duration rcl_seconds sample_manager (fst run)
                 = Double.lit 82 10)
    by (vm_compute; reflexivity).
  split; [exact Htimes|]. split; [rewrite Hagg; vm_compute; reflexivity|].
  split; [exact Hagg|].
  destruct (Hall Htrue) as (Hchains & _).
  rewrite Hagg in Hbound.
  destruct (wait_events (fst run)) as [|[i0 d0] [|[i1 d1] [|w ws]]];
    try discriminate.
  simpl in Hchains. injection Hchains as -> ->.
  apply Forall_cons in Hbound as [H0 Hbound].
  apply Forall_cons in Hbound as [H1 _].
  simpl in H0, H1. rewrite H0, H1. reflexivity.
Defined.

(** In that scenario the product of 8.2 and 1.5 is taken in binary64: it
    is the double next below the one nearest to 12.3, and the reference
    conversion turns it into 12299999999 ns. *)
Lemma scenario_wait_in_binary64 :
  Double.mul (Double.lit 82 10) Double.d1_5
    = S754_finite false 6924284427082137 (-49) /\
  Double.lit 123 10 = S754_finite false 6924284427082138 (-49) /\
  rcl_from_seconds (Double.mul (Double.lit 82 10) Double.d1_5)
    = 12299999999%Z.
Proof. vm_compute. auto. Qed.

(** A whole call of [waitToSettle]: the first turn finds the store
    invalid, the second finds the elbow moving, the third finds the robot
    at rest and returns true; the malformed message only leaves a log
    line. *)
Lemma waitToSettle_sample_run :
  fst (waitToSettle rcl_seconds sample_manager sample_env)
  = [NodeLock; Invalidate; ClockNow 0%Z;
     GetState; SpinSome;
     GetState; SpinSome;
     LogError
       "JointState Error: position array is not same size as velocity array.";
     GetState] /\
  exists cm',
    snd (waitToSettle rcl_seconds sample_manager sample_env)
    = Returns (cm', true) /\
    lookup_joint (state_ cm') "elbow" = Some (Double.d1_5, Double.zero).
Proof.
  split; [vm_compute; reflexivity|].
  eexists. split; vm_compute; reflexivity.
Qed.

(** ** The settle monitor, further: proofs *)

Lemma stateCallback_fields cm msg t cm' :
  stateCallback cm msg = (t, Returns cm') ->
  controllers_ cm' = controllers_ cm /\
  settling_timeout_ cm' = settling_timeout_ cm /\
  duration_ cm' = duration_ cm /\
  velocity_factor_ cm' = velocity_factor_ cm.
Proof.
  unfold stateCallback.
  destruct (negb (length (name msg) =? length (position msg))%nat);
    [simpl; intros [= _ <-]; auto|].
  destruct (negb (length (position msg) =? length (velocity msg))%nat);
    [simpl; intros [= _ <-]; auto|].
  destruct (update_joints _ _ _ _) as [st'|s| |]; simpl; try discriminate.
  intros [= _ <-]. auto.
Qed.

Lemma spin_some_fields msgs : forall cm t cm',
  spin_some cm msgs = (t, Returns cm') ->
  controllers_ cm' = controllers_ cm /\
  settling_timeout_ cm' = settling_timeout_ cm.
Proof.
  induction msgs as [|m msgs IH]; intros cm t cm' Hrun; simpl in Hrun.
  - injection Hrun as _ <-. auto.
  - apply bind_Returns in Hrun as (t1 & cm1 & t2 & Hcb & Hrest & _).
    apply stateCallback_fields in Hcb as (Hc & Ht & _).
    apply IH in Hrest as (Hc' & Ht'). split; congruence.
Qed.

Lemma clock_reads_app t t' :
  clock_reads (t ++ t') = clock_reads t ++ clock_reads t'.
Proof. apply omap_app. Qed.

Lemma spin_some_malformed msgs : forall cm,
  Forall (fun m => ~ aligned m) msgs ->
  exists t, spin_some cm msgs = (t, Returns cm) /\ clock_reads t = [].
Proof.
  induction msgs as [|m msgs IH]; intros cm Hbad; simpl.
  - eexists. split; reflexivity.
  - apply Forall_cons in Hbad as [Hm Hbad].
    destruct (stateCallback_rejects cm m Hm) as [text ->].
    simpl. destruct (IH cm Hbad) as (t & -> & Ht).
    eexists. split; [reflexivity|]. simpl. exact Ht.
Qed.

Lemma settle_check_invalid cm :
  state_is_valid_ cm = false -> settle_check cm = ([GetState], Returns false).
Proof. intros H. unfold settle_check, getState. simpl. rewrite H. reflexivity. Qed.

Lemma settle_check_trace cm t o : settle_check cm = (t, o) -> t = [GetState].
Proof.
  unfold settle_check, getState. simpl.
  destruct (state_is_valid_ cm); [|intros [= <- _]; reflexivity].
  destruct (settle_scan _ _ _ _) as [[b j]|s| |]; simpl;
    intros [= <- _]; reflexivity.
Qed.

Lemma settle_scan_sound cs st names : forall j0 j',
  settle_scan cs st names j0 = Returns (true, j') ->
  forall k n v, names !! k = Some n -> velocity st !! (j0 + k)%nat = Some v ->
    in_some_chain cs n -> below_threshold v.
Proof.
  induction names as [|m names IH]; intros j0 j' Hscan k n v Hk Hv Hin.
  - discriminate.
  - simpl in Hscan.
    destruct (velocity st !! j0) as [w|] eqn:Hw; [|discriminate].
    destruct k as [|k]; simpl in Hk.
    + injection Hk as ->. rewrite Nat.add_0_r, Hw in Hv. injection Hv as ->.
      unfold below_threshold.
      destruct (Double.ltb (Double.fabs v) Double.d0_001); [reflexivity|].
      apply scan_chains_true in Hin. rewrite Hin in Hscan. discriminate.
    + assert (Hrest : settle_scan cs st names (S j0) = Returns (true, j')).
      { destruct (Double.ltb (Double.fabs w) Double.d0_001); [exact Hscan|].
        destruct (scan_chains cs m true); [exact Hscan | discriminate]. }
      apply (IH _ _ Hrest k n v Hk); [|exact Hin].
      replace (S j0 + k)%nat with (j0 + S k)%nat by lia. exact Hv.
Qed.

Lemma settle_check_true cm t :
  settle_check cm = (t, Returns true) ->
  state_is_valid_ cm = true /\
  forall j n v, velocity_entry (state_ cm) j n v ->
    in_some_chain (controllers_ cm) n -> below_threshold v.
Proof.
  unfold settle_check, getState. simpl.
  destruct (state_is_valid_ cm); [|discriminate].
  destruct (settle_scan _ _ _ _) as [[b j']|s| |] eqn:Hscan; simpl;
    try discriminate.
  intros [= _ ->]. split; [reflexivity|].
  intros j n v [Hn Hv] Hin.
  apply (settle_scan_sound _ _ _ _ _ Hscan j n v Hn); [exact Hv | exact Hin].
Qed.

Section Loop.
Variable seconds : Duration -> double.

Lemma loop_settled cm start script ts :
  settle_check cm = (ts, Returns true) ->
  waitToSettle_loop seconds cm start script = (ts, Returns (cm, true)).
Proof.
  intros H. destruct script; simpl; rewrite H; simpl; rewrite app_nil_r;
    reflexivity.
Qed.

Lemma loop_unsettled_nil cm start ts :
  settle_check cm = (ts, Returns false) ->
  waitToSettle_loop seconds cm start [] = (ts ++ [], Spinning).
Proof. intros H. simpl. rewrite H. reflexivity. Qed.

Lemma loop_timed_out cm start tk rest ts :
  settle_check cm = (ts, Returns false) ->
  timeout_enabled cm = true ->
  elapsed seconds cm start (tick_now tk) = true ->
  waitToSettle_loop seconds cm start (tk :: rest)
  = (ts ++ [ClockNow (tick_now tk)], Returns (cm, false)).
Proof.
  unfold timeout_enabled, elapsed. intros H He Hel. simpl.
  rewrite H. simpl. rewrite He. simpl. rewrite Hel. reflexivity.
Qed.

Lemma loop_goes_on cm start tk rest ts :
  settle_check cm = (ts, Returns false) ->
  timeout_enabled cm && elapsed seconds cm start (tick_now tk) = false ->
  waitToSettle_loop seconds cm start (tk :: rest) =
  let '(t', o) := bind (spin_some cm (tick_msgs tk))
                    (fun cm' => waitToSettle_loop seconds cm' start rest) in
  (ts ++ (if timeout_enabled cm then [ClockNow (tick_now tk)] else [])
      ++ SpinSome :: t', o).
Proof.
  unfold timeout_enabled, elapsed. intros H Hgo.
  cbn [waitToSettle_loop]. rewrite H. cbn [bind].
  destruct (Double.ltb Double.zero (settling_timeout_ cm)); simpl in Hgo |- *.
  - rewrite Hgo. simpl.
    destruct (bind _ _) as [t' o]. reflexivity.
  - destruct (bind _ _) as [t' o]. reflexivity.
Qed.

End Loop.

Section SettleMonitorFurther.
Variable seconds : Duration -> double.

Lemma loop_true_sound script : forall cm start t cm',
  waitToSettle_loop seconds cm start script = (t, Returns (cm', true)) ->
  controllers_ cm' = controllers_ cm /\
  state_is_valid_ cm' = true /\
  forall j n v, velocity_entry (state_ cm') j n v ->
    in_some_chain (controllers_ cm') n -> below_threshold v.
Proof.
  induction script as [|tk script IH]; intros cm start t cm' Hrun;
    simpl in Hrun;
    apply bind_Returns in Hrun as (t1 & settled & t2 & Hcheck & Hrun & _);
    destruct settled.
  - injection Hrun as _ <-. split; [reflexivity|].
    apply (settle_check_true cm t1 Hcheck).
  - discriminate.
  - injection Hrun as _ <-. split; [reflexivity|].
    apply (settle_check_true cm t1 Hcheck).
  - apply bind_Returns in Hrun as (t3 & timed_out & t4 & _ & Hrun & _).
    destruct timed_out; [discriminate|].
    open_let Hrun.
    apply bind_Returns in Hrun as (t7 & cm1 & t8 & Hspin & Hrun & _).
    apply spin_some_fields in Hspin as [Hc _].
    apply IH in Hrun as (Hc' & Hrest). split; [congruence | exact Hrest].
Qed.


Lemma loop_false_cause script : forall cm start t cm',
  waitToSettle_loop seconds cm start script = (t, Returns (cm', false)) ->
  timeout_enabled cm = true /\
  exists tk, tk ∈ script /\
    elapsed seconds cm start (tick_now tk) = true /\
    last t = Some (ClockNow (tick_now tk)).
Proof.
  induction script as [|tk script IH]; intros cm start t cm' Hrun.
  - simpl in Hrun.
    apply bind_Returns in Hrun as (t1 & settled & t2 & Hcheck & Hrun & _).
    destruct settled; discriminate.
  - pose proof Hrun as Hrun0. simpl in Hrun.
    apply bind_Returns in Hrun as (t1 & settled & t2 & Hcheck & Hrun & _).
    destruct settled; [discriminate|].
    destruct (timeout_enabled cm && elapsed seconds cm start (tick_now tk))
      eqn:Hgo.
    + apply andb_true_iff in Hgo as [He Hel].
      rewrite (loop_timed_out seconds cm start tk script t1 Hcheck He Hel)
        in Hrun0.
      injection Hrun0 as <- _. split; [exact He|].
      exists tk. split; [left|]. split; [exact Hel|]. apply last_snoc.
    + rewrite (loop_goes_on seconds cm start tk script t1 Hcheck Hgo) in Hrun0.
      open_let_trace Hrun0 Ht.
      apply bind_Returns in Hrun0 as (t7 & cm1 & t8 & Hspin & Hrest & ->).
      apply spin_some_fields in Hspin as [_ Hto].
      apply IH in Hrest as (He & tk' & Hin & Hel & Hlast).
      assert (He' : timeout_enabled cm = true)
        by (unfold timeout_enabled in *; congruence).
      split; [exact He'|].
      exists tk'. split; [right; exact Hin|]. split.
      * unfold elapsed in *. congruence.
      * rewrite <- Ht. destruct t8 as [|e t8]; [discriminate|].
        rewrite !app_assoc. rewrite app_comm_cons.
        rewrite !app_assoc. rewrite last_app, Hlast. reflexivity.
Qed.

(** X2. [waitToSettle] returns false in two cases only, and never without
    chains: the node is gone, and then the call has done nothing but try
    the lock and log the error, the manager being left as it was; or the
    timeout is enabled ([settling_timeout_ > 0.0]) and the last thing the
    call did was to read the clock further than the timeout away from the
    start. *)
Theorem waitToSettle_false_cause (cm : ChainManager) (env : NodeEnv)
    (t : trace) (cm' : ChainManager) :
  waitToSettle seconds cm env = (t, Returns (cm', false)) ->
  controllers_ cm <> [] /\
  ((node_alive env = false /\ cm' = cm /\
    t = [NodeLock; LogError "Unable to get rclcpp::Node lock"]) \/
   (node_alive env = true /\ timeout_enabled cm = true /\
    exists tk, tk ∈ ticks env /\
      elapsed seconds cm (clock_start env) (tick_now tk) = true /\
      last t = Some (ClockNow (tick_now tk)))).
Proof.
  intros Hrun. unfold waitToSettle in Hrun.
  destruct (controllers_ cm) as [|c cs] eqn:Ecs; [discriminate|].
  split; [discriminate|].
  simpl in Hrun. destruct (node_alive env); simpl in Hrun.
  - right. split; [reflexivity|].
    open_let_trace Hrun Ht1. open_let_trace Hrun Ht2.
    open_let_trace Hrun Ht3. subst.
    apply loop_false_cause in Hrun as (He & tk & Hin & Hel & Hlast).
    split; [exact He|]. exists tk. split; [exact Hin|]. split; [exact Hel|].
    destruct t2 as [|e t2]; [discriminate|].
    change (NodeLock :: Invalidate :: ClockNow (clock_start env) :: e :: t2)
      with ([NodeLock; Invalidate; ClockNow (clock_start env)] ++ e :: t2).
    rewrite last_app, Hlast. reflexivity.
  - left. injection Hrun as <- <-. auto.
Qed.

Lemma loop_waits_for_a_message script : forall cm start,
  state_is_valid_ cm = false ->
  Forall (fun tk => Forall (fun m => ~ aligned m) (tick_msgs tk)) script ->
  exists t, waitToSettle_loop seconds cm start script = (t, Spinning) \/
            waitToSettle_loop seconds cm start script
            = (t, Returns (cm, false)).
Proof.
  induction script as [|tk script IH]; intros cm start Hinv Hbad.
  - eexists. left. apply loop_unsettled_nil, settle_check_invalid, Hinv.
  - apply Forall_cons in Hbad as [Htk Hbad].
    pose proof (settle_check_invalid cm Hinv) as Hcheck.
    destruct (timeout_enabled cm && elapsed seconds cm start (tick_now tk))
      eqn:Hgo.
    + apply andb_true_iff in Hgo as [He Hel]. eexists. right.
      apply (loop_timed_out seconds cm start tk script _ Hcheck He Hel).
    + rewrite (loop_goes_on seconds cm start tk script _ Hcheck Hgo).
      destruct (spin_some_malformed (tick_msgs tk) cm Htk) as (ts & -> & _).
      simpl. destruct (IH cm start Hinv Hbad) as [t [-> | ->]];
        eexists; [left | right]; reflexivity.
Qed.

(** X3. With at least one chain registered, as long as no well-formed
    joint-state message arrives, [waitToSettle] does not return true,
    whatever the store held before the call: it keeps polling, or it
    returns false.  (Without a chain it returns true at once.) *)
Theorem waitToSettle_waits_for_a_message (cm : ChainManager)
    (env : NodeEnv) :
  controllers_ cm <> [] ->
  Forall (fun tk => Forall (fun m => ~ aligned m) (tick_msgs tk))
    (ticks env) ->
  exists t o,
    waitToSettle seconds cm env = (t, o) /\
    (o = Spinning \/ o = Returns (cm, false) \/
     o = Returns (set_state cm (state_ cm) false, false)).
Proof.
  intros Hcs Hbad. unfold waitToSettle.
  destruct (controllers_ cm) as [|c cs] eqn:Ecs; [congruence|].
  simpl. destruct (node_alive env); simpl.
  - destruct (loop_waits_for_a_message (ticks env)
                (set_state cm (state_ cm) false) (clock_start env)
                eq_refl Hbad) as [t [-> | ->]];
      eexists _, _; (split; [reflexivity|]); auto.
  - eexists _, _. split; [reflexivity|]. auto.
Qed.

Lemma loop_times_out pre : forall cm start tk post,
  state_is_valid_ cm = false ->
  timeout_enabled cm = true ->
  Forall (fun p => elapsed seconds cm start (tick_now p) = false /\
                   Forall (fun m => ~ aligned m) (tick_msgs p)) pre ->
  elapsed seconds cm start (tick_now tk) = true ->
  exists t,
    waitToSettle_loop seconds cm start (pre ++ tk :: post)
    = (t, Returns (cm, false)) /\
    clock_reads t = map tick_now pre ++ [tick_now tk].
Proof.
  induction pre as [|p pre IH]; intros cm start tk post Hinv He Hpre Hel.
  - eexists. split.
    + apply loop_timed_out;
        [apply settle_check_invalid, Hinv | exact He | exact Hel].
    + reflexivity.
  - apply Forall_cons in Hpre as [[Hp Hmsgs] Hpre].
    pose proof (settle_check_invalid cm Hinv) as Hcheck.
    change ((p :: pre) ++ tk :: post) with (p :: (pre ++ tk :: post)).
    rewrite (loop_goes_on seconds cm start p _ _ Hcheck)
      by (rewrite Hp; apply andb_false_r).
    destruct (spin_some_malformed (tick_msgs p) cm Hmsgs) as (ts & -> & Hts).
    simpl. destruct (IH cm start tk post Hinv He Hpre Hel) as (t & -> & Ht).
    eexists. split; [reflexivity|].
    rewrite He. simpl. rewrite clock_reads_app, Hts, Ht. reflexivity.
Qed.

(** X4. With the timeout enabled and a node, [waitToSettle] returns false
    at the first turn whose clock reading is further than
    [settling_timeout_] seconds from the start, when no well-formed message
    arrived before: the store is as it was, its validity flag reset, and
    the clock has been read once at the start and once in each turn. *)
Theorem waitToSettle_times_out (cm : ChainManager) (env : NodeEnv)
    (pre : list tick) (tk : tick) (post : list tick) :
  controllers_ cm <> [] ->
  node_alive env = true ->
  timeout_enabled cm = true ->
  ticks env = pre ++ tk :: post ->
  Forall (fun p =>
            elapsed seconds cm (clock_start env) (tick_now p) = false /\
            Forall (fun m => ~ aligned m) (tick_msgs p)) pre ->
  elapsed seconds cm (clock_start env) (tick_now tk) = true ->
  exists t,
    waitToSettle seconds cm env
    = (t, Returns (set_state cm (state_ cm) false, false)) /\
    clock_reads t = clock_start env :: map tick_now pre ++ [tick_now tk].
Proof.
  intros Hcs Hnode He Hticks Hpre Hel. unfold waitToSettle.
  destruct (controllers_ cm) as [|c cs] eqn:Ecs; [congruence|].
  rewrite Hnode, Hticks. simpl.
  destruct (loop_times_out pre (set_state cm (state_ cm) false)
              (clock_start env) tk post eq_refl He Hpre Hel)
    as (t & -> & Ht).
  eexists. split; [reflexivity|]. simpl. rewrite Ht. reflexivity.
Qed.

(** X5. The reset of the validity flag does not clear the store.  One
    well-formed message that names no joint of any chain makes the store
    valid again, and [waitToSettle] then returns true on the velocities the
    store held for the chain joints before the call: that message has not
    changed their entries. *)
Theorem waitToSettle_trusts_stored_velocities (cm : ChainManager)
    (env : NodeEnv) (tk : tick) (rest : list tick) (m : JointState) :
  reachable cm ->
  controllers_ cm <> [] ->
  node_alive env = true ->
  ticks env = tk :: rest ->
  timeout_enabled cm && elapsed seconds cm (clock_start env) (tick_now tk)
    = false ->
  tick_msgs tk = [m] ->
  aligned m ->
  (forall n, n ∈ name m -> ~ in_some_chain (controllers_ cm) n) ->
  (forall j n v, velocity_entry (state_ cm) j n v ->
     in_some_chain (controllers_ cm) n -> below_threshold v) ->
  exists t cm',
    waitToSettle seconds cm env = (t, Returns (cm', true)) /\
    stateCallback (set_state cm (state_ cm) false) m = ([], Returns cm') /\
    forall n, in_some_chain (controllers_ cm) n ->
      lookup_joint (state_ cm') n = lookup_joint (state_ cm) n.
Proof.
  intros Hr Hcs Hnode Hticks Hgo Hmsgs Hm Hother Hslow.
  destruct (reachable_store_inv cm Hr) as [Hal Hnd].
  set (cm1 := set_state cm (state_ cm) false).
  destruct Hm as [H1 H2].
  destruct (update_joints_returns _ _ _ _ H1 H2 Hal)
    as (st' & Hup & Hal' & Hnd' & Hlk & _).
  destruct (stateCallback_accepts cm1 m (conj H1 H2) Hal)
    as (st'' & Hup' & Hcb).
  simpl in Hup'. rewrite Hup in Hup'. injection Hup' as <-.
  set (cm2 := set_state cm1 st' true) in *.
  assert (Hsame : forall n, in_some_chain (controllers_ cm) n ->
                    lookup_joint st' n = lookup_joint (state_ cm) n).
  { intros n Hin. rewrite Hlk, batch_last_None; [reflexivity|].
    intros Hn. apply (Hother n Hn Hin). }
  assert (Hscan : settle_scan (controllers_ cm2) st' (name st') 0
                  = Returns (true, length (name st'))).
  { apply (settle_scan_settled _ _ _ 0%nat). intros k n Hk. simpl.
    destruct Hal' as [Hnp Hpv].
    destruct (lookup_lt_is_Some_2 (velocity st') k) as [v Hv];
      [apply lookup_lt_Some in Hk; lia|].
    destruct (lookup_lt_is_Some_2 (position st') k) as [p Hp];
      [apply lookup_lt_Some in Hk; lia|].
    exists v. split; [exact Hv|]. intros Hin.
    specialize (Hsame n Hin). unfold lookup_joint in Hsame.
    rewrite (find_joint_NoDup _ _ _ (Hnd' Hnd) Hk), Hp, Hv in Hsame.
    destruct (find_joint n (name (state_ cm))) as [j|] eqn:Ej;
      [|discriminate].
    destruct (position (state_ cm) !! j) as [p0|]; [|discriminate].
    destruct (velocity (state_ cm) !! j) as [v0|] eqn:Ev0; [|discriminate].
    injection Hsame as _ ->.
    apply (Hslow j n v0); [|exact Hin].
    split; [|exact Ev0]. apply find_joint_Some in Ej as [Ej _]. exact Ej. }
  assert (Hcheck2 : settle_check cm2 = ([GetState], Returns true)).
  { unfold settle_check, getState. simpl. 
    change (controllers_ cm) with (controllers_ cm2). rewrite Hscan.
    reflexivity. }
  exists ([NodeLock; Invalidate; ClockNow (clock_start env)] ++
          [GetState] ++
          (if timeout_enabled cm1 then [ClockNow (tick_now tk)] else [])
          ++ SpinSome :: [] ++ [GetState]), cm2.
  split; [|split; [exact Hcb | exact Hsame]].
  unfold waitToSettle.
  destruct (controllers_ cm) as [|c cs] eqn:Ecs; [congruence|].
  rewrite Hnode, Hticks. simpl negb. cbn iota.
  fold cm1.
  rewrite (loop_goes_on seconds cm1 (clock_start env) tk rest [GetState]
             (settle_check_invalid cm1 eq_refl) Hgo).
  rewrite Hmsgs. simpl spin_some. rewrite Hcb. simpl.
  rewrite (loop_settled seconds cm2 (clock_start env) rest _ Hcheck2).
  reflexivity.
Qed.

Lemma stateCallback_keeps_entry cm msg t cm' n :
  store_inv (state_ cm) -> n ∉ name msg ->
  stateCallback cm msg = (t, Returns cm') ->
  store_inv (state_ cm') /\
  lookup_joint (state_ cm') n = lookup_joint (state_ cm) n.
Proof.
  intros [Hal Hnd] Hn Hcb.
  destruct (aligned_or_not msg) as [[H1 H2]|Hbad].
  - destruct (update_joints_returns _ _ _ _ H1 H2 Hal)
      as (st' & Hup & Hal' & Hnd' & Hlk & _).
    destruct (stateCallback_accepts cm msg (conj H1 H2) Hal)
      as (st'' & Hup' & Hcb').
    rewrite Hup in Hup'. injection Hup' as <-.
    rewrite Hcb in Hcb'. injection Hcb' as _ ->. simpl.
    split; [split; auto|].
    rewrite Hlk, batch_last_None by exact Hn. reflexivity.
  - destruct (stateCallback_rejects cm msg Hbad) as [text Hcb'].
    rewrite Hcb in Hcb'. injection Hcb' as _ ->.
    split; [split; assumption | reflexivity].
Qed.

Lemma spin_some_keeps_entry msgs n : forall cm t cm',
  store_inv (state_ cm) -> Forall (fun m => n ∉ name m) msgs ->
  spin_some cm msgs = (t, Returns cm') ->
  store_inv (state_ cm') /\
  lookup_joint (state_ cm') n = lookup_joint (state_ cm) n.
Proof.
  induction msgs as [|m msgs IH]; intros cm t cm' Hinv Hn Hrun;
    simpl in Hrun.
  - injection Hrun as _ <-. auto.
  - apply Forall_cons in Hn as [Hm Hn].
    apply bind_Returns in Hrun as (t1 & cm1 & t2 & Hcb & Hrest & _).
    destruct (stateCallback_keeps_entry _ _ _ _ n Hinv Hm Hcb) as [Hinv1 H1].
    destruct (IH _ _ _ Hinv1 Hn Hrest) as [Hinv' H']. split; congruence.
Qed.

Lemma loop_keeps_entry script n : forall cm start t cm' b,
  store_inv (state_ cm) ->
  Forall (fun tk => Forall (fun m => n ∉ name m) (tick_msgs tk)) script ->
  waitToSettle_loop seconds cm start script = (t, Returns (cm', b)) ->
  store_inv (state_ cm') /\
  lookup_joint (state_ cm') n = lookup_joint (state_ cm) n.
Proof.
  induction script as [|tk script IH]; intros cm start t cm' b Hinv Hn Hrun;
    simpl in Hrun;
    apply bind_Returns in Hrun as (t1 & settled & t2 & _ & Hrun & _);
    destruct settled.
  - injection Hrun as _ <- _. auto.
  - discriminate.
  - injection Hrun as _ <- _. auto.
  - apply Forall_cons in Hn as [Htk Hn].
    apply bind_Returns in Hrun as (t3 & timed_out & t4 & _ & Hrun & _).
    destruct timed_out.
    + injection Hrun as _ <- _. auto.
    + open_let Hrun.
      apply bind_Returns in Hrun as (t7 & cm1 & t8 & Hspin & Hrun & _).
      destruct (spin_some_keeps_entry _ n _ _ _ Hinv Htk Hspin)
        as [Hinv1 H1].
      destruct (IH _ _ _ _ _ Hinv1 Hn Hrun) as [Hinv' H'].
      split; congruence.
Qed.

(** X6. A joint of a registered chain whose stored velocity is not below
    the threshold (a NaN included), and that no message received during
    the call names, keeps [waitToSettle] from ever returning true. *)
Theorem waitToSettle_blocked_by_moving_joint (cm : ChainManager)
    (env : NodeEnv) (j : nat) (n : string) (v : double) :
  reachable cm ->
  velocity_entry (state_ cm) j n v ->
  in_some_chain (controllers_ cm) n ->
  ~ below_threshold v ->
  Forall (fun tk => Forall (fun m => n ∉ name m) (tick_msgs tk))
    (ticks env) ->
  forall t cm', waitToSettle seconds cm env <> (t, Returns (cm', true)).
Proof.
  intros Hr [Hn Hv] Hin Hfast Hquiet t cm' Hrun.
  destruct (reachable_store_inv cm Hr) as [[Hnp Hpv] Hnd].
  assert (Hboth :
    lookup_joint (state_ cm') n = lookup_joint (state_ cm) n /\
    forall j' v', velocity_entry (state_ cm') j' n v' -> below_threshold v').
  { unfold waitToSettle in Hrun.
    destruct (controllers_ cm) as [|c cs] eqn:Ecs.
    - destruct Hin as (c & Hc & _). apply not_elem_of_nil in Hc.
      contradiction.
    - simpl in Hrun.
      destruct (node_alive env); simpl in Hrun; [|discriminate].
      repeat open_let Hrun. split.
      + apply (loop_keeps_entry _ n) in Hrun as [_ Hk];
          [exact Hk | split; [split|]; assumption | exact Hquiet].
      + apply loop_true_sound in Hrun as (Hc & _ & Hslow).
        intros j' v' He. apply (Hslow j' n v' He).
        rewrite Hc. simpl. rewrite Ecs. exact Hin. }
  destruct Hboth as [Hkeep Hslow].
  destruct (lookup_lt_is_Some_2 (position (state_ cm)) j) as [p Hp];
    [apply lookup_lt_Some in Hn; lia|].
  unfold lookup_joint in Hkeep.
  rewrite (find_joint_NoDup _ _ _ Hnd Hn), Hp, Hv in Hkeep.
  destruct (find_joint n (name (state_ cm'))) as [j'|] eqn:Ej;
    [|discriminate].
  destruct (position (state_ cm') !! j'); [|discriminate].
  destruct (velocity (state_ cm') !! j') as [v'|] eqn:Ev; [|discriminate].
  injection Hkeep as _ ->.
  apply Hfast, (Hslow j' v).
  split; [|exact Ev]. apply find_joint_Some in Ej as [Ej _]. exact Ej.
Qed.

End SettleMonitorFurther.

(** ** The dispatcher, further: proofs *)

Lemma sent_goals_app t t' : sent_goals (t ++ t') = sent_goals t ++ sent_goals t'.
Proof. apply omap_app. Qed.

Lemma plan_requests_app t t' :
  plan_requests (t ++ t') = plan_requests t ++ plan_requests t'.
Proof. apply omap_app. Qed.

(** The point [makePoint] returns, in full. *)
Lemma makePoint_returns_exact state joints t p :
  makePoint state joints = (t, Returns p) ->
  t = [] /\
  Forall2 (fun n x => joint_position state n = Some x) joints (positions p) /\
  velocities p = replicate (length joints) Double.zero /\
  accelerations p = replicate (length joints) Double.zero.
Proof.
  intros Hrun. pose proof Hrun as Hrun'.
  apply makePoint_loop_returns in Hrun' as [Hcov _]; [|reflexivity].
  destruct (makePoint_loop_covered state joints empty_point eq_refl Hcov)
    as (xs & Hxs & Hexact).
  unfold makePoint in Hrun. rewrite Hexact in Hrun.
  injection Hrun as <- <-. simpl. auto.
Qed.

Lemma joint_constraints_loop_spec state jn : forall c p t l,
  joint_constraints_loop jn c p = (t, Returns l) ->
  (forall k n, jn !! k = Some n ->
     exists x, positions p !! (c + k)%nat = Some x /\
               joint_position state n = Some x) ->
  Forall2 (constraint_for state) jn l.
Proof.
  induction jn as [|n jn IH]; intros c p t l Hrun Hpos; simpl in Hrun.
  - injection Hrun as _ <-. constructor.
  - destruct (Hpos 0%nat n eq_refl) as (x & Hx & Hjp).
    rewrite Nat.add_0_r in Hx. rewrite Hx in Hrun.
    apply bind_Returns in Hrun as (t1 & l' & t2 & Hrest & Hret & _).
    injection Hret as _ <-.
    constructor.
    + repeat split; simpl; auto.
    + apply (IH (S c) p t1 l' Hrest). intros k m Hk.
      destruct (Hpos (S k) m Hk) as (y & Hy & Hjy).
      exists y. split; [|exact Hjy].
      replace (S c + k)%nat with (c + S k)%nat by lia. exact Hy.
Qed.

Section DispatcherFurther.

Variable from_seconds : double -> Duration.
Variable seconds : Duration -> double.
Variable move_group : nat -> MoveGroupGoal -> MoveGroupResult.

Local Abbreviation send := (moveToState_send from_seconds seconds move_group).
Local Abbreviation plan_events := (plan_events from_seconds move_group).

(** A dispatchable chain at the head of the list: its goal is sent and the
    loop goes on. *)
Lemma send_cons_dispatchable cm state i c rest md :
  dispatchable move_group state i c ->
  exists th md',
    send cm state i (c :: rest) md =
      (th ++ fst (send cm state (S i) rest md'),
       snd (send cm state (S i) rest md')) /\
    wait_events th = [] /\ sent_chains th = [i] /\
    Forall (fun ir => plan_succeeded (snd ir)) (plan_results th) /\
    md' = fold_left Double.max (planned_times seconds th) md /\
    (shouldPlan c = false ->
       md' = md /\ plan_results th = [] /\ plan_requests th = []).
Proof.
  intros [Hcov Hplan].
  destruct (makePoint_covered_returns state (joint_names c) Hcov)
    as (p & Hp & Hlen).
  destruct (shouldPlan c) eqn:Hsp.
  - destruct (joint_constraints_loop_returns (joint_names c) 0 p)
      as [c1 Hc1]; [simpl; lia|].
    set (g := moveit_goal_for cm c c1).
    destruct (Hplan eq_refl g) as [Hok Hpts].
    destruct (last (points (planned_trajectory (move_group i g))))
      as [pt|] eqn:Hlast; [|apply last_None in Hlast; contradiction].
    pose proof (send_cons_planned from_seconds seconds move_group
                  cm state i c rest md p c1 pt Hp Hsp Hc1 Hok Hlast) as Hrun.
    cbv zeta in Hrun. fold g in Hrun.
    exists (plan_events i g ++
            [ClientSendGoal i (planned_goal from_seconds (move_group i g))]),
           (Double.max md (seconds (time_from_start pt))).
    split; [rewrite Hrun, <- app_assoc; reflexivity|].
    split; [reflexivity|]. split; [reflexivity|]. split.
    + simpl. apply Forall_cons_2; [exact Hok | apply Forall_nil_2].
    + split; [|discriminate].
      unfold planned_times. simpl. rewrite Hlast. reflexivity.
  - pose proof (send_cons_direct from_seconds seconds move_group
                  cm state i c rest md p Hp Hsp) as Hrun.
    exists [ClientSendGoal i (direct_goal from_seconds cm c p)], md.
    split; [exact Hrun|].
    split; [reflexivity|]. split; [reflexivity|].
    split; [apply Forall_nil_2|]. split; [reflexivity|]. auto.
Qed.

(** A run of dispatchable chains at the head of the list. *)
Lemma send_prefix cm state pre : forall i md rest,
  (forall k c, pre !! k = Some c ->
     dispatchable move_group state (i + k) c) ->
  exists t1 md1,
    send cm state i (pre ++ rest) md =
      (t1 ++ fst (send cm state (i + length pre) rest md1),
       snd (send cm state (i + length pre) rest md1)) /\
    wait_events t1 = [] /\ sent_chains t1 = seq i (length pre) /\
    Forall (fun ir => plan_succeeded (snd ir)) (plan_results t1) /\
    md1 = fold_left Double.max (planned_times seconds t1) md /\
    (Forall (fun c => shouldPlan c = false) pre ->
       md1 = md /\ plan_results t1 = [] /\ plan_requests t1 = []).
Proof.
  induction pre as [|c pre IH]; intros i md rest Hpre.
  - exists [], md. simpl. rewrite Nat.add_0_r.
    destruct (send cm state i rest md) as [t o]. simpl.
    repeat split; auto.
  - destruct (send_cons_dispatchable cm state i c (pre ++ rest) md)
      as (th & md' & Hhead & Hwh & Hsh & Hrh & Hmd' & Hdh).
    { specialize (Hpre 0%nat c eq_refl). rewrite Nat.add_0_r in Hpre.
      exact Hpre. }
    destruct (IH (S i) md' rest) as (t1 & md1 & Htail & Hw1 & Hs1 & Hr1 & Hmd1 & Hd1).
    { intros k c' Hk. replace (S i + k)%nat with (i + S k)%nat by lia.
      apply Hpre. exact Hk. }
    exists (th ++ t1), md1.
    change ((c :: pre) ++ rest) with (c :: (pre ++ rest)).
    assert (Hidx : (i + length (c :: pre) = S i + length pre)%nat)
      by (simpl; lia).
    rewrite Hidx, Hhead, Htail. cbn [fst snd].
    split; [rewrite app_assoc; reflexivity|].
    rewrite wait_events_app, sent_chains_app, plan_results_app.
    rewrite Hwh, Hw1, Hsh, Hs1.
    split; [reflexivity|]. split; [reflexivity|].
    split; [apply Forall_app; auto|]. split.
    + unfold planned_times in *. rewrite plan_results_app, omap_app.
      rewrite fold_left_app. rewrite <- Hmd'. exact Hmd1.
    + intros Hall. apply Forall_cons in Hall as [Hc Hall].
      destruct (Hdh Hc) as (-> & -> & Hq).
      destruct (Hd1 Hall) as (-> & -> & Hq1).
      rewrite plan_requests_app, Hq, Hq1. auto.
Qed.

Lemma request_for_built cm state c p c1 :
  makePoint state (joint_names c) = ([], Returns p) ->
  joint_constraints_loop (joint_names c) 0 p = ([], Returns c1) ->
  request_for cm state c (moveit_goal_for cm c c1).
Proof.
  intros Hp Hc1.
  destruct (makePoint_returns_exact _ _ _ _ Hp) as (_ & Hpos & _).
  repeat split. exists c1. split; [reflexivity|].
  apply (joint_constraints_loop_spec state _ 0 p [] c1 Hc1).
  intros k n Hk. simpl.
  destruct (Forall2_lookup_l _ _ _ _ _ Hpos Hk) as (x & Hx & Hjp).
  exists x. auto.
Qed.

Lemma direct_goal_for cm state i c p :
  makePoint state (joint_names c) = ([], Returns p) ->
  shouldPlan c = false ->
  goal_for from_seconds move_group cm state i c
    (direct_goal from_seconds cm c p).
Proof.
  intros Hp Hsp.
  destruct (makePoint_returns_exact _ _ _ _ Hp) as (_ & Hpos & Hvel & Hacc).
  split; [reflexivity|]. rewrite Hsp. split; [reflexivity|].
  eexists. split; [reflexivity|]. repeat split; simpl; assumption.
Qed.

(** What the chain at the head of the list comes to. *)
Lemma send_cons_cases cm state i c rest md :
  (exists t o, send cm state i (c :: rest) md = (t, o) /\
     sent_goals t = [] /\ plan_requests t = []) \/
  (exists g, goal_for from_seconds move_group cm state i c g /\
     shouldPlan c = false /\
     send cm state i (c :: rest) md =
       (ClientSendGoal i g :: fst (send cm state (S i) rest md),
        snd (send cm state (S i) rest md))) \/
  (exists req, request_for cm state c req /\ shouldPlan c = true /\
     ((exists o, send cm state i (c :: rest) md = (plan_events i req, o)) \/
      (exists g md',
         goal_for from_seconds move_group cm state i c g /\
         send cm state i (c :: rest) md =
           (plan_events i req ++
            ClientSendGoal i g :: fst (send cm state (S i) rest md'),
            snd (send cm state (S i) rest md'))))).
Proof.
  destruct (makePoint_shape state (joint_names c))
    as [(p & Hp & Hlen) | [(text & Hp) | Hp]].
  - destruct (shouldPlan c) eqn:Hsp.
    + right; right.
      destruct (joint_constraints_loop_returns (joint_names c) 0 p)
        as [c1 Hc1]; [simpl; lia|].
      set (g := moveit_goal_for cm c c1).
      exists g. split; [apply (request_for_built _ _ _ p); assumption|].
      split; [reflexivity|].
      destruct (decide (error_code_val (move_group i g) = SUCCESS))
        as [Hok|Hfail].
      * destruct (last (points (planned_trajectory (move_group i g))))
          as [pt|] eqn:Hlast.
        -- right.
           pose proof (send_cons_planned from_seconds seconds move_group
                         cm state i c rest md p c1 pt Hp Hsp Hc1 Hok Hlast)
             as Hrun.
           cbv zeta in Hrun. fold g in Hrun.
           eexists _, _. split; [|exact Hrun].
           split; [reflexivity|]. rewrite Hsp.
           exists g. split; [apply (request_for_built _ _ _ p); assumption|].
           split; [exact Hok | reflexivity].
        -- left. eexists.
           apply (send_cons_plan_empty from_seconds seconds move_group
                    cm state i c rest md p c1 Hp Hsp Hc1 Hok Hlast).
      * left. eexists.
        apply (send_cons_plan_failed from_seconds seconds move_group
                 cm state i c rest md p c1 Hp Hsp Hc1 Hfail).
    + right; left. eexists. split; [apply (direct_goal_for _ _ _ _ p Hp Hsp)|].
      split; [reflexivity|].
      apply (send_cons_direct from_seconds seconds move_group
               cm state i c rest md p Hp Hsp).
  - left.
    destruct (send_cons_no_point from_seconds seconds move_group
                cm state i c rest md _ _ Hp) as (o' & Hrun & _);
      [discriminate|].
    eexists _, _. split; [exact Hrun|]. split; reflexivity.
  - left.
    destruct (send_cons_no_point from_seconds seconds move_group
                cm state i c rest md _ _ Hp) as (o' & Hrun & _);
      [discriminate|].
    eexists _, _. split; [exact Hrun|]. split; reflexivity.
Qed.

(** Every goal and every planning request of the first loop is the one of
    the chain it is sent for. *)
Lemma send_content cm state cs : forall i md,
  Forall (fun kg => exists c, (i <= fst kg)%nat /\
            cs !! (fst kg - i)%nat = Some c /\
            goal_for from_seconds move_group cm state (fst kg) c (snd kg))
    (sent_goals (fst (send cm state i cs md))) /\
  Forall (fun kr => exists c, (i <= fst kr)%nat /\
            cs !! (fst kr - i)%nat = Some c /\ shouldPlan c = true /\
            request_for cm state c (snd kr))
    (plan_requests (fst (send cm state i cs md))).
Proof.
  induction cs as [|c rest IH]; intros i md.
  - simpl. split; apply Forall_nil_2.
  - assert (Hshift_g : forall md',
      Forall (fun kg => exists c0, (i <= fst kg)%nat /\
                (c :: rest) !! (fst kg - i)%nat = Some c0 /\
                goal_for from_seconds move_group cm state (fst kg) c0 (snd kg))
        (sent_goals (fst (send cm state (S i) rest md')))).
    { intros md'. destruct (IH (S i) md') as [Hg _].
      eapply Forall_impl; [exact Hg|]. intros [k g] (c0 & Hle & Hc0 & Hgoal).
      simpl in *. exists c0. split; [lia|]. split; [|exact Hgoal].
      replace (k - i)%nat with (S (k - S i)) by lia. exact Hc0. }
    assert (Hshift_r : forall md',
      Forall (fun kr => exists c0, (i <= fst kr)%nat /\
                (c :: rest) !! (fst kr - i)%nat = Some c0 /\
                shouldPlan c0 = true /\ request_for cm state c0 (snd kr))
        (plan_requests (fst (send cm state (S i) rest md')))).
    { intros md'. destruct (IH (S i) md') as [_ Hr].
      eapply Forall_impl; [exact Hr|]. intros [k r] (c0 & Hle & Hc0 & Hrest).
      simpl in *. exists c0. split; [lia|]. split; [|exact Hrest].
      replace (k - i)%nat with (S (k - S i)) by lia. exact Hc0. }
    assert (Hhead : forall k, k = i -> (c :: rest) !! (k - i)%nat = Some c).
    { intros k ->. rewrite Nat.sub_diag. reflexivity. }
    destruct (send_cons_cases cm state i c rest md)
      as [(t & o & -> & Hg & Hr)
         | [(g & Hgoal & Hsp & ->)
           | (req & Hreq & Hsp & [[o ->] | (g & md' & Hgoal & ->)])]];
      cbn [fst].
    + rewrite Hg, Hr. split; apply Forall_nil_2.
    + split.
      * simpl. apply Forall_cons_2; [|apply Hshift_g].
        exists c. simpl. split; [lia|]. split; [apply Hhead; reflexivity|].
        exact Hgoal.
      * simpl. apply Hshift_r.
    + split; [apply Forall_nil_2|].
      simpl. apply Forall_cons_2; [|apply Forall_nil_2].
      exists c. simpl. split; [lia|]. split; [apply Hhead; reflexivity|].
      auto.
    + split.
      * simpl. apply Forall_cons_2; [|apply Hshift_g].
        exists c. simpl. split; [lia|]. split; [apply Hhead; reflexivity|].
        exact Hgoal.
      * simpl. apply Forall_cons_2; [|apply Hshift_r].
        exists c. simpl. split; [lia|]. split; [apply Hhead; reflexivity|].
        auto.
Qed.

Lemma wait_trace_quiet n md :
  sent_goals (wait_trace from_seconds n md) = [] /\
  plan_requests (wait_trace from_seconds n md) = [].
Proof.
  unfold wait_trace. generalize (seq 0 n) as ks.
  induction ks as [|k ks [IH1 IH2]]; simpl; auto.
Qed.

(** ** The dispatcher, further: theorems *)

(** X7. Every goal [moveToState] sends goes to a registered chain and has
    the goal-time tolerance [from_seconds(1.0)].  For a chain that requires
    planning it carries the trajectory the planner returned, with success,
    for that chain's request; for another chain it carries the chain's
    joint names and one point: the target's positions of these joints in
    order, zero velocities and accelerations, at [from_seconds(duration_)].
    This holds of every run, also of one that ends early. *)
Theorem moveToState_goal_contents (cr : nat -> Duration -> bool)
    (cm : ChainManager) (state : JointState) :
  Forall (fun kg => exists c,
            controllers_ cm !! fst kg = Some c /\
            goal_for from_seconds move_group cm state (fst kg) c (snd kg))
    (sent_goals
       (fst (moveToState from_seconds seconds move_group cr cm state))).
Proof.
  destruct (send_content cm state (controllers_ cm) 0 (duration_ cm))
    as [Hg _].
  destruct (send cm state 0 (controllers_ cm) (duration_ cm)) as [t o] eqn:Hs.
  rewrite (moveToState_unfold from_seconds seconds move_group cr cm state
             t o Hs).
  assert (Hgoals : Forall (fun kg => exists c,
            controllers_ cm !! fst kg = Some c /\
            goal_for from_seconds move_group cm state (fst kg) c (snd kg))
            (sent_goals t)).
  { eapply Forall_impl; [exact Hg|]. intros [k g] (c & _ & Hc & Hgoal).
    simpl in *. rewrite Nat.sub_0_r in Hc. eauto. }
  destruct o as [[md|]|s| |]; simpl; try exact Hgoals.
  rewrite sent_goals_app.
  destruct (wait_trace_quiet (length (controllers_ cm)) md) as [-> _].
  rewrite app_nil_r. exact Hgoals.
Qed.

(** X8. Every planning request [moveToState] sends is made for a chain
    that requires planning and is that chain's: its planning group, one
    planning attempt, 5.0 s of planning time, the manager's velocity
    factor, plan only, and one set of constraints with, for each joint of
    the chain in order, the target's position, tolerances 0.01 and weight
    1.0. *)
Theorem moveToState_request_contents (cr : nat -> Duration -> bool)
    (cm : ChainManager) (state : JointState) :
  Forall (fun kr => exists c,
            controllers_ cm !! fst kr = Some c /\ shouldPlan c = true /\
            request_for cm state c (snd kr))
    (plan_requests
       (fst (moveToState from_seconds seconds move_group cr cm state))).
Proof.
  destruct (send_content cm state (controllers_ cm) 0 (duration_ cm))
    as [_ Hr].
  destruct (send cm state 0 (controllers_ cm) (duration_ cm)) as [t o] eqn:Hs.
  rewrite (moveToState_unfold from_seconds seconds move_group cr cm state
             t o Hs).
  assert (Hreqs : Forall (fun kr => exists c,
            controllers_ cm !! fst kr = Some c /\ shouldPlan c = true /\
            request_for cm state c (snd kr)) (plan_requests t)).
  { eapply Forall_impl; [exact Hr|]. intros [k r] (c & _ & Hc & Hrest).
    simpl in *. rewrite Nat.sub_0_r in Hc. eauto. }
  destruct o as [[md|]|s| |]; simpl; try exact Hreqs.
  rewrite plan_requests_app.
  destruct (wait_trace_quiet (length (controllers_ cm)) md) as [_ ->].
  rewrite app_nil_r. exact Hreqs.
Qed.

(** X9. A run of [moveToState] is a send phase followed by a wait phase:
    nothing is awaited on a command channel before the last goal is sent,
    and the wait phase sends nothing and plans nothing.  A run that returns
    true has sent one goal per chain, in order, and then awaited each
    chain once, in the same order; any other run has no wait phase at
    all. *)
Theorem moveToState_sends_before_waiting (cr : nat -> Duration -> bool)
    (cm : ChainManager) (state : JointState) :
  let run := moveToState from_seconds seconds move_group cr cm state in
  exists t1 t2,
    fst run = t1 ++ t2 /\
    wait_events t1 = [] /\
    sent_goals t2 = [] /\ plan_requests t2 = [] /\
    length (wait_events t2) = length t2 /\
    (snd run = Returns true ->
       sent_chains t1 = seq 0 (length (controllers_ cm)) /\
       map fst (wait_events t2) = seq 0 (length (controllers_ cm)) /\
       length t2 = length (controllers_ cm)) /\
    (snd run <> Returns true -> t2 = []).
Proof.
  intros run.
  destruct (send_spec from_seconds seconds move_group cm state
              (controllers_ cm) 0 (duration_ cm))
    as (t & o & Hsend & Hw & Ho).
  pose proof (moveToState_unfold from_seconds seconds move_group cr cm state
                t o Hsend) as Hrun.
  fold run in Hrun. rewrite Hrun.
  destruct o as [[md|]|s| |]; simpl.
  - destruct Ho as (_ & Hsent & _).
    destruct (wait_trace_quiet (length (controllers_ cm)) md) as [Hq1 Hq2].
    destruct (wait_trace_observed from_seconds (length (controllers_ cm)) md)
      as (Hww & _).
    exists t, (wait_trace from_seconds (length (controllers_ cm)) md).
    split; [reflexivity|]. split; [exact Hw|].
    split; [exact Hq1|]. split; [exact Hq2|].
    assert (Hlen : length (wait_trace from_seconds
                             (length (controllers_ cm)) md)
                   = length (controllers_ cm)).
    { unfold wait_trace. rewrite length_map, length_seq. reflexivity. }
    split; [rewrite Hww, length_map, length_seq, Hlen; reflexivity|].
    split; [intros _; split; [exact Hsent | split; [|exact Hlen]]|].
    + rewrite Hww, map_map. simpl. apply map_id.
    + intros Hne. exfalso. apply Hne. reflexivity.
  - exists t, []. rewrite app_nil_r. split; [reflexivity|].
    split; [exact Hw|]. do 3 (split; [reflexivity|]).
    split; [intros H; discriminate H | intros _; reflexivity].
  - exists t, []. rewrite app_nil_r. split; [reflexivity|].
    split; [exact Hw|]. do 3 (split; [reflexivity|]).
    split; [intros H; discriminate H | intros _; reflexivity].
  - exists t, []. rewrite app_nil_r. split; [reflexivity|].
    split; [exact Hw|]. do 3 (split; [reflexivity|]).
    split; [intros H; discriminate H | intros _; reflexivity].
  - exists t, []. rewrite app_nil_r. split; [reflexivity|].
    split; [exact Hw|]. do 3 (split; [reflexivity|]).
    split; [intros H; discriminate H | intros _; reflexivity].
Qed.

(** X10. When no chain requires planning and the target covers the
    joints of every chain, [moveToState] returns true without contacting
    the planner, having sent one goal per chain in order and awaited each
    chain for [from_seconds(duration_ * 1.5)]. *)
Theorem moveToState_direct_only (cr : nat -> Duration -> bool)
    (cm : ChainManager) (state : JointState) :
  Forall (fun c => shouldPlan c = false) (controllers_ cm) ->
  covers state (controllers_ cm) ->
  exists t,
    moveToState from_seconds seconds move_group cr cm state
      = (t, Returns true) /\
    plan_requests t = [] /\ plan_results t = [] /\
    sent_chains t = seq 0 (length (controllers_ cm)) /\
    wait_events t
      = map (fun k => (k, from_seconds
                            (Double.mul (duration_ cm) Double.d1_5)))
            (seq 0 (length (controllers_ cm))).
Proof.
  intros Hdirect Hcov.
  destruct (send_prefix cm state (controllers_ cm) 0 (duration_ cm) [])
    as (t1 & md1 & Hsend & Hw & Hs & _ & _ & Hd).
  { intros k c Hk. split.
    - apply (Forall_lookup_1 _ _ _ _ Hcov Hk).
    - intros Hsp.
      rewrite (Forall_lookup_1 _ _ _ _ Hdirect Hk) in Hsp. discriminate. }
  destruct (Hd Hdirect) as (-> & Hres & Hreq).
  rewrite app_nil_r in Hsend. simpl in Hsend. rewrite app_nil_r in Hsend.
  rewrite (moveToState_unfold from_seconds seconds move_group cr cm state
             _ _ Hsend).
  destruct (wait_trace_quiet (length (controllers_ cm)) (duration_ cm))
    as [_ Hq].
  destruct (wait_trace_observed from_seconds (length (controllers_ cm))
              (duration_ cm)) as (Hww & Hws & Hwp).
  eexists. split; [reflexivity|].
  rewrite plan_requests_app, plan_results_app, sent_chains_app,
    wait_events_app.
  rewrite Hreq, Hres, Hq, Hwp, Hs, Hws, Hw, Hww, !app_nil_r. auto.
Qed.


(** X12. A planning failure ends the dispatch where it occurs: the chains
    before the failing one have their goals, the failing chain's request
    is the last thing that happens, nothing is awaited, and the chains
    after it are not looked at, whatever they are. *)
Theorem moveToState_plan_failure_ends_dispatch
    (cr : nat -> Duration -> bool) (cm : ChainManager) (state : JointState)
    (pre : list ChainController) (c : ChainController)
    (post : list ChainController) :
  controllers_ cm = pre ++ c :: post ->
  (forall k c', pre !! k = Some c' -> dispatchable move_group state k c') ->
  Forall (has_entry state) (joint_names c) ->
  shouldPlan c = true ->
  (forall g, ~ plan_succeeded (move_group (length pre) g)) ->
  exists t req,
    moveToState from_seconds seconds move_group cr cm state
      = (t ++ plan_events (length pre) req, Returns false) /\
    request_for cm state c req /\
    sent_chains t = seq 0 (length pre) /\
    wait_events t = [].
Proof.
  intros Hcs Hpre Hcov Hsp Hfail.
  destruct (send_prefix cm state pre 0 (duration_ cm) (c :: post) Hpre)
    as (t1 & md1 & Hsend & Hw & Hs & _).
  destruct (makePoint_covered_returns state (joint_names c) Hcov)
    as (p & Hp & Hlen).
  destruct (joint_constraints_loop_returns (joint_names c) 0 p)
    as [c1 Hc1]; [simpl; lia|].
  pose proof (send_cons_plan_failed from_seconds seconds move_group cm state
                (0 + length pre) c post md1 p c1 Hp Hsp Hc1
                (Hfail (moveit_goal_for cm c c1))) as Hhead.
  rewrite Hhead in Hsend. simpl in Hsend. rewrite <- Hcs in Hsend.
  rewrite (moveToState_unfold from_seconds seconds move_group cr cm state
             _ _ Hsend).
  exists t1, (moveit_goal_for cm c c1).
  split; [reflexivity|].
  split; [apply (request_for_built _ _ _ p); assumption|]. auto.
Qed.

End DispatcherFurther.

(** ** The store, further: proofs *)

Lemma update_joints_app ns1 : forall ps1 vs1 ns2 ps2 vs2 st,
  length ns1 = length ps1 -> length ps1 = length vs1 ->
  update_joints (ns1 ++ ns2) (ps1 ++ ps2) (vs1 ++ vs2) st =
  match update_joints ns1 ps1 vs1 st with
  | Returns st1 => update_joints ns2 ps2 vs2 st1
  | Exits s => Exits s
  | Undefined => Undefined
  | Spinning => Spinning
  end.
Proof.
  induction ns1 as [|n ns1 IH]; intros ps1 vs1 ns2 ps2 vs2 st H1 H2.
  - destruct ps1; [|discriminate]. destruct vs1; [|discriminate]. reflexivity.
  - destruct ps1 as [|p ps1]; [discriminate|].
    destruct vs1 as [|v vs1]; [discriminate|].
    simpl in H1, H2. simpl.
    destruct (update_joint st n p v) as [st1|s| |]; try reflexivity.
    apply IH; lia.
Qed.

Lemma stateCallback_aligned cm msg :
  aligned msg ->
  stateCallback cm msg =
  match update_joints (name msg) (position msg) (velocity msg) (state_ cm) with
  | Returns st' => ([], Returns (set_state cm st' true))
  | Exits s => ([], Exits s)
  | Undefined => ([], Undefined)
  | Spinning => ([], Spinning)
  end.
Proof.
  intros [H1 H2]. unfold stateCallback. rewrite H1, H2, !Nat.eqb_refl. simpl.
  destruct (update_joints _ _ _ _); reflexivity.
Qed.

Lemma batch_last_elem ns : forall ps vs k r,
  batch_last ns ps vs k = Some r -> k ∈ ns.
Proof.
  induction ns as [|n ns IH]; intros ps vs k r H; [discriminate|].
  destruct ps as [|p ps]; [discriminate|].
  destruct vs as [|v vs]; [discriminate|].
  simpl in H. destruct (batch_last ns ps vs k) as [r'|] eqn:E.
  - right. eapply IH; eauto.
  - destruct (String.eqb_spec n k) as [->|]; [left | discriminate].
Qed.

(** ** The store, further: theorems *)

(** X13. Delivering two well-formed messages joined into one gives the
    same trace and the same manager as delivering them one after the
    other. *)
Theorem stateCallback_of_joined_messages (cm : ChainManager)
    (m1 m2 : JointState) :
  aligned m1 -> aligned m2 ->
  aligned (msg_app m1 m2) /\
  stateCallback cm (msg_app m1 m2) = spin_some cm [m1; m2].
Proof.
  intros Hm1 Hm2.
  assert (Hj : aligned (msg_app m1 m2)).
  { destruct Hm1, Hm2. split; simpl; rewrite !length_app; lia. }
  split; [exact Hj|].
  rewrite (stateCallback_aligned cm _ Hj). simpl.
  rewrite (stateCallback_aligned cm m1 Hm1).
  destruct Hm1 as [H1 H2].
  rewrite (update_joints_app _ _ _ _ _ _ _ H1 H2).
  destruct (update_joints (name m1) _ _ _) as [st1|s| |]; simpl;
    try reflexivity.
  rewrite (stateCallback_aligned _ m2 Hm2). simpl.
  destruct (update_joints (name m2) _ _ _) as [st2|s| |]; reflexivity.
Qed.

(** X14. Two well-formed messages that share no joint name can be
    delivered in either order to a reachable manager: the stores name the
    same joints and hold the same entry for each, and when every joint
    named is already in the store the two managers are equal. *)
Theorem stateCallback_disjoint_commute (cm : ChainManager)
    (m1 m2 : JointState) :
  reachable cm -> aligned m1 -> aligned m2 ->
  (forall n, n ∈ name m1 -> n ∉ name m2) ->
  exists cm12 cm21,
    spin_some cm [m1; m2] = ([], Returns cm12) /\
    spin_some cm [m2; m1] = ([], Returns cm21) /\
    (forall n, lookup_joint (state_ cm12) n = lookup_joint (state_ cm21) n) /\
    (forall n, n ∈ name (state_ cm12) <-> n ∈ name (state_ cm21)) /\
    ((forall n, n ∈ name m1 ++ name m2 -> n ∈ name (state_ cm)) ->
     cm12 = cm21).
Proof.
  intros Hr [A1 A2] [B1 B2] Hdisj.
  destruct (reachable_store_inv cm Hr) as [Hal Hnd].
  destruct (update_joints_returns _ _ _ _ A1 A2 Hal)
    as (s1 & Hu1 & Hal1 & Hnd1 & Hlk1 & add1 & Hn1 & Ha1).
  destruct (update_joints_returns _ _ _ _ B1 B2 Hal1)
    as (s12 & Hu12 & Hal12 & Hnd12 & Hlk12 & add12 & Hn12 & Ha12).
  destruct (update_joints_returns _ _ _ _ B1 B2 Hal)
    as (s2 & Hu2 & Hal2 & Hnd2 & Hlk2 & add2 & Hn2 & Ha2).
  destruct (update_joints_returns _ _ _ _ A1 A2 Hal2)
    as (s21 & Hu21 & Hal21 & Hnd21 & Hlk21 & add21 & Hn21 & Ha21).
  exists (set_state cm s12 true), (set_state cm s21 true).
  assert (Hlk : forall n, lookup_joint s12 n = lookup_joint s21 n).
  { intros n. rewrite Hlk12, Hlk1, Hlk21, Hlk2.
    destruct (batch_last (name m2) _ _ n) as [r2|] eqn:E2;
    destruct (batch_last (name m1) _ _ n) as [r1|] eqn:E1; try reflexivity.
    exfalso. apply batch_last_elem in E1, E2. apply (Hdisj n E1 E2). }
  assert (Hnames : forall n, n ∈ name s12 <-> n ∈ name s21).
  { intros n. rewrite Hn12, Hn1, Hn21, Hn2, !elem_of_app.
    rewrite Ha1, Ha12, Ha2, Ha21, Hn1, Hn2, !elem_of_app, Ha1, Ha2.
    destruct (decide (n ∈ name (state_ cm))); [tauto|].
    destruct (decide (n ∈ name m1)); destruct (decide (n ∈ name m2)); tauto. }
  split; [|split; [|split; [exact Hlk|split; [exact Hnames|]]]].
  - simpl. rewrite (stateCallback_aligned cm m1 (conj A1 A2)), Hu1. simpl.
    rewrite (stateCallback_aligned _ m2 (conj B1 B2)). simpl.
    rewrite Hu12. reflexivity.
  - simpl. rewrite (stateCallback_aligned cm m2 (conj B1 B2)), Hu2. simpl.
    rewrite (stateCallback_aligned _ m1 (conj A1 A2)). simpl.
    rewrite Hu21. reflexivity.
  - intros Hknown. f_equal.
    assert (E : forall (added base ns : list string),
              (forall n, n ∈ added <-> n ∈ ns /\ n ∉ base) ->
              (forall n, n ∈ ns -> n ∈ base) -> added = []).
    { intros added base ns Hadd Hin. destruct added as [|x added];
        [reflexivity|]. exfalso.
      destruct (Hadd x) as [Hx _]. destruct Hx as [Hx1 Hx2]; [left|].
      apply Hx2, Hin, Hx1. }
    assert (E1 : add1 = []).
    { apply (E _ _ _ Ha1). intros n Hn. apply Hknown, elem_of_app. auto. }
    assert (E2 : add2 = []).
    { apply (E _ _ _ Ha2). intros n Hn. apply Hknown, elem_of_app. auto. }
    assert (E12 : add12 = []).
    { apply (E _ _ _ Ha12). intros n Hn. rewrite Hn1, E1, app_nil_r.
      apply Hknown, elem_of_app. auto. }
    assert (E21 : add21 = []).
    { apply (E _ _ _ Ha21). intros n Hn. rewrite Hn2, E2, app_nil_r.
      apply Hknown, elem_of_app. auto. }
    apply store_ext.
    + split; auto.
    + split; auto.
    + rewrite Hn12, Hn1, Hn21, Hn2, E1, E2, E12, E21. reflexivity.
    + exact Hlk.
Qed.

(** ** Chain lookups, further: theorem *)

(** X15. [getChains] lists the name of every registered chain, in
    registration order; each name it lists resolves, in
    [getChainJointNames] and [getPlanningGroupName], to the joints and the
    planning group of a registered chain of that name, and a name it does
    not list resolves to the empty results. *)
Theorem getChains_names_resolve (cm : ChainManager) :
  length (getChains cm) = length (controllers_ cm) /\
  (forall i c, controllers_ cm !! i = Some c ->
     getChains cm !! i = Some (chain_name c)) /\
  (forall n, n ∈ getChains cm ->
     exists c, c ∈ controllers_ cm /\ chain_name c = n /\
       getChainJointNames cm n = joint_names c /\
       getPlanningGroupName cm n = chain_planning_group c) /\
  (forall n, n ∉ getChains cm ->
     getChainJointNames cm n = [] /\ getPlanningGroupName cm n = "").
Proof.
  unfold getChains, getChainJointNames, getPlanningGroupName.
  generalize (controllers_ cm) as cs. intros cs.
  split; [apply length_map|]. split; [|split].
  - intros i c Hc. rewrite list_lookup_fmap, Hc. reflexivity.
  - induction cs as [|c cs IH]; intros n Hn; simpl in *.
    + apply not_elem_of_nil in Hn. contradiction.
    + destruct (String.eqb_spec (chain_name c) n) as [E|Hne].
      * exists c. split; [left|]. auto.
      * apply elem_of_cons in Hn as [Hn|Hn]; [congruence|].
        destruct (IH n Hn) as (c' & Hc' & Hrest).
        exists c'. split; [right; exact Hc' | exact Hrest].
  - induction cs as [|c cs IH]; intros n Hn; simpl in *; [auto|].
    apply not_elem_of_cons in Hn as [Hne Hn].
    destruct (String.eqb_spec (chain_name c) n) as [E|_]; [congruence|].
    apply IH, Hn.
Qed.

(** ** [makePoint], further *)

Lemma makePoint_loop_out_of_range state n j post pre : forall p,
  length (velocities p) = length (positions p) ->
  Forall (has_entry state) pre ->
  find_joint n (name state) = Some j ->
  (length (position state) <= j)%nat ->
  makePoint_loop state (pre ++ n :: post) p = ([], Undefined).
Proof.
  induction pre as [|m pre IH]; intros p Hbal Hpre Hj Hshort.
  - simpl. rewrite Hj, (lookup_ge_None_2 _ _ Hshort). reflexivity.
  - apply Forall_cons in Hpre as [[x Hx] Hpre].
    change ((m :: pre) ++ n :: post) with (m :: (pre ++ n :: post)).
    rewrite (makePoint_loop_found _ _ _ _ x Hbal Hx).
    apply IH; [simpl; rewrite !length_app; simpl; lia | | |]; assumption.
Qed.

(** X16. [makePoint] trusts the target to have a position for every name
    it lists: a joint found at an index the position array does not reach
    is read out of range, whatever follows in the list.  Such a target is
    not well-formed. *)
Theorem makePoint_trusts_the_target (state : JointState)
    (pre : list string) (n : string) (post : list string) (j : nat) :
  Forall (has_entry state) pre ->
  find_joint n (name state) = Some j ->
  (length (position state) <= j)%nat ->
  ~ aligned state /\
  makePoint state (pre ++ n :: post) = ([], Undefined).
Proof.
  intros Hpre Hj Hshort. split.
  - intros [Hnp _]. apply find_joint_lt in Hj. lia.
  - apply makePoint_loop_out_of_range with (j := j);
      [reflexivity | assumption..].
Qed.

(** ** The constructor: proofs *)

Lemma construct_chains_spec cfg names : forall i acc mg,
  let planning := existsb (fun n => shouldPlan (configured_chain cfg n)) names in
  let run := construct_chains cfg names i acc mg in
  fst (snd run) = acc ++ map (configured_chain cfg) names /\
  snd (snd run) = mg || planning /\
  planner_inits (fst run)
  = (if negb mg && planning then ["move_action"] else []).
Proof.
  induction names as [|n names IH]; intros i acc mg; simpl.
  - rewrite app_nil_r, orb_false_r, andb_false_r. auto.
  - set (c := ChainController_new cfg n
                (declare_string cfg (n ++ ".planning_group") "")).
    change (configured_chain cfg n) with c.
    specialize (IH (S i) (acc ++ [c]) (mg || shouldPlan c && negb mg)).
    destruct (construct_chains cfg names (S i) (acc ++ [c])
                (mg || shouldPlan c && negb mg)) as [t [cs mg']].
    simpl in IH |- *. destruct IH as (Hcs & Hmg & Hinit).
    split; [rewrite Hcs, <- app_assoc; reflexivity|].
    split.
    + rewrite Hmg. destruct mg, (shouldPlan c); reflexivity.
    + unfold planner_inits in *.
      rewrite !omap_app. 
      assert (Hconn : omap (fun e => match e with
                                     | MoveGroupInit a => Some a
                                     | _ => None
                                     end)
                (if server_ready cfg i (declare_string cfg (n ++ ".topic") "")
                 then []
                 else [SetupWarn ("Failed to connect to " ++
                         declare_string cfg (n ++ ".topic") "")]) = []).
      { destruct (server_ready cfg i _); reflexivity. }
      simpl. rewrite Hconn. simpl. rewrite Hinit.
      destruct mg, (shouldPlan c); simpl; try reflexivity;
        destruct (planner_ready cfg); simpl; try reflexivity;
        destruct (existsb _ names); reflexivity.
Qed.

Lemma ChainManager_ctor_chains cfg unset n names :
  declare_string_array cfg "chains" [] = n :: names ->
  exists t,
    ChainManager_ctor cfg unset =
    (DeclareParameter "chains" :: t ++
     [DeclareParameter "duration"; DeclareParameter "velocity_factor";
      DeclareParameter "settling_timeout";
      CreateSubscription "/joint_states"],
     {| built_manager :=
          ChainManager_new (map (configured_chain cfg) (n :: names))
            (declare_double cfg "duration" Double.d5_0)
            (declare_double cfg "velocity_factor" Double.d1_0)
            (declare_double cfg "settling_timeout" Double.zero);
        move_group_created :=
          existsb (fun n => shouldPlan (configured_chain cfg n)) (n :: names);
        subscribed := true |}) /\
    planner_inits t =
      (if existsb (fun n => shouldPlan (configured_chain cfg n)) (n :: names)
       then ["move_action"] else []).
Proof.
  intros Hnames. unfold ChainManager_ctor. rewrite Hnames.
  pose proof (construct_chains_spec cfg (n :: names) 0 [] false) as Hspec.
  cbv zeta in Hspec.
  destruct (construct_chains cfg (n :: names) 0 [] false) as [t [cs mg]].
  simpl fst in Hspec. simpl snd in Hspec.
  destruct Hspec as (Hcs & Hmg & Hinit).
  exists t. rewrite Hcs, Hmg. split; [reflexivity|].
  rewrite Hinit. reflexivity.
Qed.

Lemma configured_chain_names cfg (l : list string) :
  map chain_name (map (configured_chain cfg) l) = l.
Proof.
  induction l as [|x l IH]; simpl; [reflexivity | rewrite IH; reflexivity].
Qed.

Lemma configured_chain_lookup cfg (l : list string) k :
  k ∈ l ->
  getChainJointNames_loop (map (configured_chain cfg) l) k
    = declare_string_array cfg (k ++ ".joints") [] /\
  getPlanningGroupName_loop (map (configured_chain cfg) l) k
    = declare_string cfg (k ++ ".planning_group") "".
Proof.
  induction l as [|x l IH]; intros Hk.
  - apply not_elem_of_nil in Hk. contradiction.
  - simpl. destruct (String.eqb_spec x k) as [Hxk|Hxk]; [subst; auto|].
    apply elem_of_cons in Hk as [Hk|Hk]; [congruence|]. apply IH, Hk.
Qed.

(** ** The constructor: theorems *)

(** X17. A constructor that finds chain names, all different (rclcpp
    refuses to declare a parameter twice, which the embedding leaves out),
    registers one chain per name, in order, with the joints and the
    planning group configured under that name: [getChains] gives back the
    list of names and the lookups give back the configuration.  It
    subscribes to the joint states, and leaves the store empty and
    invalid. *)
Theorem ChainManager_ctor_registers_chains (cfg : NodeConfig)
    (unset : ChainManager) :
  let names := declare_string_array cfg "chains" [] in
  let built := snd (ChainManager_ctor cfg unset) in
  names <> [] -> NoDup names ->
  controllers_ (built_manager built) = map (configured_chain cfg) names /\
  getChains (built_manager built) = names /\
  (forall n, n ∈ names ->
     getChainJointNames (built_manager built) n
       = declare_string_array cfg (n ++ ".joints") [] /\
     getPlanningGroupName (built_manager built) n
       = declare_string cfg (n ++ ".planning_group") "") /\
  subscribed built = true /\
  state_ (built_manager built) = mkJointState [] [] [] /\
  state_is_valid_ (built_manager built) = false /\
  reachable (built_manager built).
Proof.
  intros names built Hne _.
  destruct names as [|n names'] eqn:Enames; [congruence|].
  destruct (ChainManager_ctor_chains cfg unset n names' Enames)
    as (t & Hrun & _).
  unfold built. rewrite Hrun. simpl snd. cbn [built_manager subscribed].
  split; [reflexivity|]. split; [|split; [|split; [reflexivity|]]].
  - apply (configured_chain_names cfg (n :: names')).
  - intros k Hk. unfold getChainJointNames, getPlanningGroupName.
    cbn [controllers_ ChainManager_new].
    apply (configured_chain_lookup cfg (n :: names') k Hk).
  - split; [reflexivity|]. split; [reflexivity|]. apply reach_new.
Qed.

(** X18. The constructor creates the planner client exactly when some
    registered chain requires planning, and connects it once, to
    [move_action], however many chains require planning. *)
Theorem ChainManager_ctor_planner_client (cfg : NodeConfig)
    (unset : ChainManager) :
  let names := declare_string_array cfg "chains" [] in
  let run := ChainManager_ctor cfg unset in
  names <> [] -> NoDup names ->
  (move_group_created (snd run) = true <->
   exists c, c ∈ controllers_ (built_manager (snd run)) /\
             shouldPlan c = true) /\
  planner_inits (fst run)
  = (if move_group_created (snd run) then ["move_action"] else []).
Proof.
  intros names run Hne _.
  destruct names as [|n names'] eqn:Enames; [congruence|].
  destruct (ChainManager_ctor_chains cfg unset n names' Enames)
    as (t & Hrun & Hinit).
  unfold run. rewrite Hrun. cbn [fst snd built_manager move_group_created].
  split.
  - cbn [controllers_ ChainManager_new]. rewrite existsb_exists. split.
    + intros (x & Hx & Hsp). exists (configured_chain cfg x).
      split; [|exact Hsp]. apply list_elem_of_fmap. exists x.
      split; [reflexivity|]. apply list_elem_of_In, Hx.
    + intros (c & Hc & Hsp). apply list_elem_of_fmap in Hc as (x & -> & Hx).
      exists x. split; [apply list_elem_of_In, Hx | exact Hsp].
  - unfold planner_inits in *. simpl. rewrite omap_app. simpl.
    rewrite app_nil_r. exact Hinit.
Qed.

Section NoChains.
Variable from_seconds : double -> Duration.
Variable seconds : Duration -> double.
Variable move_group : nat -> MoveGroupGoal -> MoveGroupResult.

(** X19. A constructor that finds no chain name warns and returns at
    once: it declares no other parameter and does not subscribe to the
    joint states.  On the manager it leaves, [moveToState] returns true
    and [waitToSettle] returns true, both without doing anything, whatever
    the members that were not assigned hold. *)
Theorem ChainManager_ctor_without_chains (cfg : NodeConfig)
    (unset : ChainManager) :
  declare_string_array cfg "chains" [] = [] ->
  let run := ChainManager_ctor cfg unset in
  let cm := built_manager (snd run) in
  fst run = [DeclareParameter "chains"; SetupWarn "No chains defined."] /\
  subscribed (snd run) = false /\ move_group_created (snd run) = false /\
  getChains cm = [] /\
  (forall cr state,
     moveToState from_seconds seconds move_group cr cm state
     = ([], Returns true)) /\
  (forall env, waitToSettle seconds cm env = ([], Returns (cm, true))).
Proof.
  intros Hnames run cm. unfold cm, run, ChainManager_ctor. rewrite Hnames.
  simpl. auto 10.
Qed.

End NoChains.

(** ** [getState]: proofs *)

Lemma spin_some_validity msgs : forall cm,
  store_inv (state_ cm) ->
  exists t cm', spin_some cm msgs = (t, Returns cm') /\
    (state_is_valid_ cm' = true <->
     state_is_valid_ cm = true \/ Exists aligned msgs) /\
    (~ Exists aligned msgs -> cm' = cm) /\
    Forall (fun e => exists text, e = LogError text) t.
Proof.
  induction msgs as [|m msgs IH]; intros cm Hinv.
  - exists [], cm. split; [reflexivity|]. split.
    + split; [auto|]. intros [H|H]; [exact H|]. inversion H.
    + split; [reflexivity | apply Forall_nil_2].
  - destruct (aligned_or_not m) as [Hm|Hm].
    + destruct (stateCallback_accepts cm m Hm (proj1 Hinv))
        as (st' & Hup & Hcb).
      assert (Hinv' : store_inv (state_ (set_state cm st' true))).
      { destruct (stateCallback_step cm m Hinv)
          as (t0 & cm0 & Hcb0 & Hinv0 & _).
        rewrite Hcb in Hcb0. injection Hcb0 as _ <-. exact Hinv0. }
      destruct (IH _ Hinv') as (t & cm' & Hrun & Hval & _ & Hlog).
      exists t, cm'. split; [simpl; rewrite Hcb; simpl; rewrite Hrun;
                             reflexivity|].
      split; [|split; [|exact Hlog]].
      * split; [intros _; right; apply Exists_cons_hd, Hm|].
        intros _. apply Hval. left. reflexivity.
      * intros Hno. exfalso. apply Hno, Exists_cons_hd, Hm.
    + destruct (stateCallback_rejects cm m Hm) as [text Hcb].
      destruct (IH _ Hinv) as (t & cm' & Hrun & Hval & Hsame & Hlog).
      exists (LogError text :: t), cm'.
      split; [simpl; rewrite Hcb; simpl; rewrite Hrun; reflexivity|].
      split; [|split].
      * rewrite Hval. split; (intros [H|H]; [left; exact H | right]).
        -- apply Exists_cons_tl, H.
        -- apply Exists_cons in H as [H|H]; [contradiction | exact H].
      * intros Hno. apply Hsame. intros H. apply Hno, Exists_cons_tl, H.
      * apply Forall_cons_2; [eexists; reflexivity | exact Hlog].
Qed.

(** ** [getState]: theorem *)

(** X20. After the validity flag has been reset, [getState] reports a
    valid store exactly when a well-formed message has been delivered
    since; while it reports an invalid store, the store it copies is the
    one of before the reset.  Each message that is not well-formed leaves
    log lines only. *)
Theorem getState_valid_iff_message_accepted (cm : ChainManager)
    (msgs : list JointState) :
  reachable cm ->
  exists t cm',
    spin_some (set_state cm (state_ cm) false) msgs = (t, Returns cm') /\
    (snd (getState cm') = true <-> Exists aligned msgs) /\
    (snd (getState cm') = false -> fst (getState cm') = state_ cm) /\
    Forall (fun e => exists text, e = LogError text) t.
Proof.
  intros Hr.
  destruct (spin_some_validity msgs (set_state cm (state_ cm) false))
    as (t & cm' & Hrun & Hval & Hsame & Hlog).
  { simpl. apply reachable_store_inv, Hr. }
  exists t, cm'. split; [exact Hrun|]. unfold getState. simpl fst. simpl snd.
  split; [|split; [|exact Hlog]].
  - rewrite Hval. simpl. split; [intros [H|H]; [discriminate | exact H]|].
    intros H. right. exact H.
  - intros Hfalse. rewrite Hsame; [reflexivity|].
    intros H. assert (Htrue : state_is_valid_ cm' = true)
      by (apply Hval; right; exact H).
    congruence.
Qed.

(** ** The further theorems at work on the sample data *)


Lemma waitToSettle_false_cause_witness :
  exists t cm',
    waitToSettle rcl_seconds timed_manager silent_env
      = (t, Returns (cm', false)) /\
    exists tk, tk ∈ ticks silent_env /\
      elapsed rcl_seconds timed_manager (clock_start silent_env)
        (tick_now tk) = true /\
      last t = Some (ClockNow (tick_now tk)).
Proof.
  destruct (waitToSettle rcl_seconds timed_manager silent_env)
    as [t o] eqn:Hrun.
  assert (Ho : exists cm', o = Returns (cm', false)).
  { apply (f_equal snd) in Hrun. vm_compute in Hrun. subst o.
    eexists. reflexivity. }
  destruct Ho as [cm' ->]. exists t, cm'. split; [reflexivity|].
  destruct (waitToSettle_false_cause rcl_seconds timed_manager silent_env
              t cm' Hrun) as (_ & [(Hdead & _) | (_ & _ & Hcause)]).
  - discriminate Hdead.
  - exact Hcause.
Defined.

Lemma waitToSettle_waits_for_a_message_witness :
  Forall (fun tk => Forall (fun m => ~ aligned m) (tick_msgs tk))
    (ticks silent_env) /\
  exists t o,
    waitToSettle rcl_seconds sample_manager silent_env = (t, o) /\
    (o = Spinning \/ o = Returns (sample_manager, false) \/
     o = Returns (set_state sample_manager (state_ sample_manager) false,
                  false)).
Proof.
  assert (Hbad : ~ aligned msg_malformed).
  { intros [_ H]. discriminate H. }
  assert (Hquiet : Forall (fun tk => Forall (fun m => ~ aligned m)
                                       (tick_msgs tk)) (ticks silent_env)).
  { repeat (apply Forall_cons_2;
            [apply Forall_cons_2; [exact Hbad | apply Forall_nil_2]|]).
    apply Forall_nil_2. }
  split; [exact Hquiet|].
  apply (waitToSettle_waits_for_a_message rcl_seconds sample_manager
           silent_env); [discriminate | exact Hquiet].
Defined.

Lemma waitToSettle_times_out_witness :
  exists t,
    waitToSettle rcl_seconds timed_manager silent_env
    = (t, Returns (set_state timed_manager (state_ timed_manager) false,
                   false)) /\
    clock_reads t = [0%Z; 500000000%Z; 2000000000%Z].
Proof.
  apply (waitToSettle_times_out rcl_seconds timed_manager silent_env
           [ {| tick_now := 500000000%Z; tick_msgs := [msg_malformed] |} ]
           {| tick_now := 2000000000%Z; tick_msgs := [msg_malformed] |} []).
  - discriminate.
  - reflexivity.
  - reflexivity.
  - reflexivity.
  - apply Forall_cons_2; [|apply Forall_nil_2].
    split; [vm_compute; reflexivity|].
    apply Forall_cons_2; [|apply Forall_nil_2].
    intros [_ H]. discriminate H.
  - vm_compute. reflexivity.
Defined.

Lemma waitToSettle_trusts_stored_velocities_witness :
  exists t cm',
    waitToSettle rcl_seconds manager_at_rest wheel_env
      = (t, Returns (cm', true)) /\
    velocity_entry (state_ cm') 3 "wheel" Double.d1_0 /\
    forall n, in_some_chain (controllers_ manager_at_rest) n ->
      lookup_joint (state_ cm') n = lookup_joint (state_ manager_at_rest) n.
Proof.
  destruct (waitToSettle_trusts_stored_velocities rcl_seconds
              manager_at_rest wheel_env
              {| tick_now := 10000000%Z; tick_msgs := [msg_wheel] |} []
              msg_wheel)
    as (t & cm' & Hrun & Hcb & Hsame).
  - exact reachable_manager_at_rest.
  - discriminate.
  - reflexivity.
  - reflexivity.
  - reflexivity.
  - reflexivity.
  - split; reflexivity.
  - intros n Hn (c & Hc & Hj).
    apply list_elem_of_singleton in Hn as ->.
    repeat (apply elem_of_cons in Hc as [->|Hc];
            [repeat (apply elem_of_cons in Hj as [Hj|Hj]; [discriminate|]);
             apply not_elem_of_nil in Hj; contradiction|]).
    apply not_elem_of_nil in Hc. contradiction.
  - intros j n v [Hn Hv] _.
    destruct j as [|[|[|j]]]; simpl in Hv; try discriminate;
      injection Hv as <-; reflexivity.
  - exists t, cm'. split; [exact Hrun|]. split; [|exact Hsame].
    vm_compute in Hcb. injection Hcb as <-. split; reflexivity.
Defined.

Lemma waitToSettle_blocked_by_moving_joint_witness :
  velocity_entry (state_ manager_moving) 2 "elbow" Double.d0_001 /\
  ~ below_threshold Double.d0_001 /\
  forall t cm',
    waitToSettle rcl_seconds manager_moving wheel_env
      <> (t, Returns (cm', true)).
Proof.
  assert (Hentry : velocity_entry (state_ manager_moving) 2 "elbow"
                     Double.d0_001) by (split; reflexivity).
  assert (Hfast : ~ below_threshold Double.d0_001).
  { intros H. vm_compute in H. discriminate H. }
  split; [exact Hentry|]. split; [exact Hfast|].
  apply (waitToSettle_blocked_by_moving_joint rcl_seconds manager_moving
           wheel_env 2 "elbow" Double.d0_001).
  - exact reachable_manager_moving.
  - exact Hentry.
  - exists chain_arm. split; [left | right; left].
  - exact Hfast.
  - apply Forall_cons_2; [|apply Forall_nil_2].
    apply Forall_cons_2; [|apply Forall_nil_2].
    intros H. apply list_elem_of_singleton in H. discriminate H.
Defined.

Lemma moveToState_direct_only_witness :
  exists t,
    moveToState rcl_from_seconds rcl_seconds planner_fails channel_ok
      timed_manager sample_target = (t, Returns true) /\
    plan_requests t = [] /\
    wait_events t = [(0%nat, 7500000000%Z)].
Proof.
  destruct (moveToState_direct_only rcl_from_seconds rcl_seconds
              planner_fails channel_ok timed_manager sample_target)
    as (t & Hrun & Hreq & _ & _ & Hwait).
  - apply Forall_cons_2; [reflexivity | apply Forall_nil_2].
  - apply Forall_cons_2; [|apply Forall_nil_2].
    repeat (apply Forall_cons_2; [eexists; reflexivity|]).
    apply Forall_nil_2.
  - exists t. split; [exact Hrun|]. split; [exact Hreq|].
    rewrite Hwait. vm_compute. reflexivity.
Defined.

Lemma dispatchable_arm (move_group : nat -> MoveGroupGoal -> MoveGroupResult)
    (k : nat) (c' : ChainController) :
  [chain_arm] !! k = Some c' -> dispatchable move_group sample_target k c' /\
                                dispatchable move_group target_without_pan k c'.
Proof.
  destruct k as [|k]; simpl; [|intros H; discriminate H].
  intros [= <-]. split; (split; [|intros H; discriminate H]);
    repeat (apply Forall_cons_2; [eexists; reflexivity|]);
    apply Forall_nil_2.
Qed.


Lemma moveToState_plan_failure_ends_dispatch_witness :
  exists t req,
    moveToState rcl_from_seconds rcl_seconds planner_fails channel_ok
      {| controllers_ := [chain_arm; chain_head; chain_arm];
         duration_ := Double.d5_0; velocity_factor_ := Double.d1_0;
         settling_timeout_ := Double.zero;
         state_ := mkJointState [] [] []; state_is_valid_ := false |}
      sample_target
      = (t ++ plan_events rcl_from_seconds planner_fails 1 req,
         Returns false) /\
    group_name req = "head_group" /\
    sent_chains t = [0%nat] /\
    wait_events t = [].
Proof.
  destruct (moveToState_plan_failure_ends_dispatch rcl_from_seconds
              rcl_seconds planner_fails channel_ok
              {| controllers_ := [chain_arm; chain_head; chain_arm];
                 duration_ := Double.d5_0; velocity_factor_ := Double.d1_0;
                 settling_timeout_ := Double.zero;
                 state_ := mkJointState [] [] [];
                 state_is_valid_ := false |}
              sample_target [chain_arm] chain_head [chain_arm])
    as (t & req & Hrun & Hreq & Hsent & Hwait).
  - reflexivity.
  - intros k c' H. apply (dispatchable_arm planner_fails k c' H).
  - apply Forall_cons_2; [eexists; reflexivity | apply Forall_nil_2].
  - reflexivity.
  - intros g H. discriminate H.
  - exists t, req. split; [exact Hrun|].
    split; [exact (proj1 Hreq)|]. split; [exact Hsent | exact Hwait].
Defined.

Lemma stateCallback_of_joined_messages_witness :
  aligned (msg_app msg_pan msg_arm) /\
  stateCallback sample_manager (msg_app msg_pan msg_arm)
  = spin_some sample_manager [msg_pan; msg_arm].
Proof.
  apply (stateCallback_of_joined_messages sample_manager msg_pan msg_arm);
    split; reflexivity.
Defined.

Lemma stateCallback_disjoint_commute_witness :
  exists cm12 cm21,
    spin_some manager_at_rest [msg_pan; msg_arm] = ([], Returns cm12) /\
    spin_some manager_at_rest [msg_arm; msg_pan] = ([], Returns cm21) /\
    cm12 = cm21.
Proof.
  destruct (stateCallback_disjoint_commute manager_at_rest msg_pan msg_arm)
    as (cm12 & cm21 & H12 & H21 & _ & _ & Heq).
  - exact reachable_manager_at_rest.
  - split; reflexivity.
  - split; reflexivity.
  - intros n Hn Hn'. apply list_elem_of_singleton in Hn as ->.
    repeat (apply elem_of_cons in Hn' as [Hn'|Hn']; [discriminate|]).
    apply not_elem_of_nil in Hn'. contradiction.
  - exists cm12, cm21. split; [exact H12|]. split; [exact H21|].
    apply Heq. intros n Hn. simpl in Hn.
    repeat (apply elem_of_cons in Hn as [->|Hn];
            [apply list_elem_of_In; simpl; auto 10|]).
    apply not_elem_of_nil in Hn. contradiction.
Defined.

Lemma makePoint_trusts_the_target_witness :
  ~ aligned target_short_of_positions /\
  makePoint target_short_of_positions ["shoulder"; "elbow"]
  = ([], Undefined).
Proof.
  apply (makePoint_trusts_the_target target_short_of_positions
           ["shoulder"] "elbow" [] 2).
  - apply Forall_cons_2; [eexists; reflexivity | apply Forall_nil_2].
  - reflexivity.
  - simpl. lia.
Defined.

Lemma sample_config_names :
  declare_string_array sample_config "chains" [] <> [] /\
  NoDup (declare_string_array sample_config "chains" []).
Proof.
  split; [discriminate|].
  apply NoDup_cons_2.
  - intros H. apply list_elem_of_singleton in H. discriminate H.
  - apply NoDup_cons_2; [apply not_elem_of_nil | apply NoDup_nil_2].
Qed.

Lemma ChainManager_ctor_registers_chains_witness :
  controllers_ (built_manager (snd (ChainManager_ctor sample_config
                                      idle_manager)))
    = [chain_arm; chain_head] /\
  getChains (built_manager (snd (ChainManager_ctor sample_config
                                   idle_manager))) = ["arm"; "head"].
Proof.
  destruct (ChainManager_ctor_registers_chains sample_config idle_manager
              (proj1 sample_config_names) (proj2 sample_config_names))
    as (Hcs & Hnames & _).
  split; [exact Hcs | exact Hnames].
Defined.

Lemma ChainManager_ctor_planner_client_witness :
  move_group_created (snd (ChainManager_ctor sample_config idle_manager))
    = true /\
  planner_inits (fst (ChainManager_ctor sample_config idle_manager))
    = ["move_action"].
Proof.
  destruct (ChainManager_ctor_planner_client sample_config idle_manager
              (proj1 sample_config_names) (proj2 sample_config_names))
    as (Hiff & Hinit).
  assert (Hmg : move_group_created
                  (snd (ChainManager_ctor sample_config idle_manager))
                = true).
  { apply Hiff. exists chain_head. split; [right; left | reflexivity]. }
  split; [exact Hmg|]. rewrite Hinit, Hmg. reflexivity.
Defined.

Lemma ChainManager_ctor_without_chains_witness :
  subscribed (snd (ChainManager_ctor empty_config sample_manager)) = false /\
  forall cr state,
    moveToState rcl_from_seconds rcl_seconds planner_ok cr
      (built_manager (snd (ChainManager_ctor empty_config sample_manager)))
      state
    = ([], Returns true).
Proof.
  destruct (ChainManager_ctor_without_chains rcl_from_seconds rcl_seconds
              planner_ok empty_config sample_manager eq_refl)
    as (_ & Hsub & _ & _ & Hmove & _).
  split; [exact Hsub | exact Hmove].
Defined.

Lemma getState_valid_iff_message_accepted_witness :
  exists t cm',
    spin_some (set_state manager_at_rest (state_ manager_at_rest) false)
      [msg_malformed; msg_wheel; msg_malformed] = (t, Returns cm') /\
    snd (getState cm') = true /\
    length t = 2%nat.
Proof.
  destruct (getState_valid_iff_message_accepted manager_at_rest
              [msg_malformed; msg_wheel; msg_malformed])
    as (t & cm' & Hrun & Hvalid & _ & _).
  - exact reachable_manager_at_rest.
  - exists t, cm'. split; [exact Hrun|]. split.
    + apply Hvalid. apply Exists_cons_tl, Exists_cons_hd. split; reflexivity.
    + vm_compute in Hrun. injection Hrun as <- _. reflexivity.
Defined.
